(** * SimpleJobBot: the tagged-output parser, the text normalizer, the fit
    labels, the folder-name sanitizers, package assembly and the dashboard
    listing, embedded from [src/main.py] and [src/app/...].

    Python strings are sequences of Unicode code points: a character is a
    code point in [N] and a string is a list of them.  Exceptions are
    results in a sum type.  The file system and the clock are explicit
    state; the model server is a function handed to the assembler. *)

From stdpp Require Import base list gmap strings sorting.
From Stdlib Require Import NArith ZArith QArith Qminmax Lia Lqa ZifyNat.
Close Scope Q_scope.
Local Open Scope N_scope.
Local Open Scope nat_scope.
Local Open Scope list_scope.

(** ** Python strings *)

Module Py.

Abbreviation char := N.
Abbreviation str := (list N).

(** A string literal of the source, as its code points. *)
Definition lit (s : String.string) : str :=
  List.map Ascii.N_of_ascii (String.list_ascii_of_string s).
Arguments lit s%_string.

Definition NL : char := 10%N.
Definition CR : char := 13%N.
Definition TAB : char := 9%N.
Definition BACKSLASH : char := 92%N.
Definition DQUOTE : char := 34%N.
Definition BACKTICK : char := 96%N.
Definition UNDERSCORE : char := 95%N.
Definition DOT : char := 46%N.

Definition in_range (lo hi c : N) : bool := (lo <=? c)%N && (c <=? hi)%N.

(** [str.isspace] on one character, which is also what [\s] matches in a
    [str] pattern of [re]: U+0009..U+000D, U+001C..U+0020, U+0085, U+00A0,
    U+1680, U+2000..U+200A, U+2028, U+2029, U+202F, U+205F, U+3000. *)
Definition isspace (c : char) : bool :=
  in_range 9 13 c || in_range 28 32 c || (c =? 133)%N || (c =? 160)%N
  || (c =? 5760)%N || in_range 8192 8202 c || (c =? 8232)%N || (c =? 8233)%N
  || (c =? 8239)%N || (c =? 8287)%N || (c =? 12288)%N.

(** The class [[0-9]] of the patterns (ASCII digits only). *)
Definition isdigit (c : char) : bool := in_range 48 57 c.
Definition is_lower_az (c : char) : bool := in_range 97 122 c.
Definition is_upper_AZ (c : char) : bool := in_range 65 90 c.

(** The line boundaries of [str.splitlines]: \n \r \v \f U+001C U+001D
    U+001E U+0085 U+2028 U+2029 (and \r\n as one boundary). *)
Definition is_linebreak (c : char) : bool :=
  in_range 10 13 c || in_range 28 30 c || (c =? 133)%N
  || (c =? 8232)%N || (c =? 8233)%N.

(** [str.lower].  The full Unicode mapping is a table of the interpreter;
    the program only looks at the result through the test for the ASCII
    word "continued" and through the filter to [[a-z0-9_]], so what matters
    is which code points lower-case to something containing an ASCII letter:
    A..Z, U+0130 (to "i" followed by U+0307) and U+212A (to "k").  All other
    code points are left as they are. *)
Definition lower_char (c : char) : str :=
  if is_upper_AZ c then [(c + 32)%N]
  else if (c =? 304)%N then [105%N; 775%N]
  else if (c =? 8490)%N then [107%N]
  else [c].

Definition lower (s : str) : str := flat_map lower_char s.

(** [s.startswith(p)] *)
Fixpoint startswith (s p : str) : bool :=
  match p, s with
  | [], _ => true
  | _ :: _, [] => false
  | a :: p', b :: s' => (a =? b)%N && startswith s' p'
  end.

(** [s.find(sub)]: the index of the first occurrence, [None] for -1. *)
Fixpoint find (sub s : str) : option nat :=
  if startswith s sub then Some 0
  else match s with
       | [] => None
       | _ :: t => S <$> find sub t
       end.

(** [s.find(sub, start)] for [0 <= start]. *)
Definition find_from (sub s : str) (start : nat) : option nat :=
  if length s <? start then None
  else Nat.add start <$> find sub (drop start s).

(** [sub in s] *)
Definition contains (sub s : str) : bool :=
  match find sub s with Some _ => true | None => false end.

(** [s[a:b]] for [0 <= a], [0 <= b]. *)
Definition slice (s : str) (a b : nat) : str := take (b - a) (drop a s).

Fixpoint lstrip (s : str) : str :=
  match s with
  | c :: t => if isspace c then lstrip t else s
  | [] => []
  end.

Definition rstrip (s : str) : str := rev (lstrip (rev s)).

(** [s.strip()] *)
Definition strip (s : str) : str := rstrip (lstrip s).

Fixpoint lstrip_chars (P : char -> bool) (s : str) : str :=
  match s with
  | c :: t => if P c then lstrip_chars P t else s
  | [] => []
  end.

(** [s.strip(chars)], with [chars] given as a predicate. *)
Definition strip_chars (P : char -> bool) (s : str) : str :=
  rev (lstrip_chars P (rev (lstrip_chars P s))).

(** [s.replace(old, new)] for a non-empty [old]: occurrences are found
    left to right and do not overlap.  [skip] counts the characters of a
    replaced occurrence that are still to be passed over. *)
Fixpoint replace_go (old new : str) (skip : nat) (s : str) : str :=
  match s with
  | [] => []
  | c :: t =>
      match skip with
      | S k => replace_go old new k t
      | O => if startswith s old
             then new ++ replace_go old new (length old - 1) t
             else c :: replace_go old new 0 t
      end
  end.

Definition replace (old new s : str) : str :=
  match old with
  | [] => new ++ flat_map (fun c => c :: new) s
  | _ :: _ => replace_go old new 0 s
  end.

(** [s.split(sep)] for a non-empty [sep]; [cur] is the piece being read. *)
Fixpoint split_go (sep : str) (skip : nat) (cur : str) (s : str) : list str :=
  match s with
  | [] => [cur]
  | c :: t =>
      match skip with
      | S k => split_go sep k cur t
      | O => if startswith s sep
             then cur :: split_go sep (length sep - 1) [] t
             else split_go sep 0 (cur ++ [c]) t
      end
  end.

Definition split (sep s : str) : list str := split_go sep 0 [] s.

(** [s.splitlines()]: a final piece is a line only when it is not empty. *)
Fixpoint splitlines_go (cur : str) (s : str) : list str :=
  match s with
  | [] => match cur with [] => [] | _ => [cur] end
  | c :: t =>
      if (c =? CR)%N then
        match t with
        | d :: t' => if (d =? NL)%N then cur :: splitlines_go [] t'
                     else cur :: splitlines_go [] t
        | [] => [cur]
        end
      else if is_linebreak c then cur :: splitlines_go [] t
      else splitlines_go (cur ++ [c]) t
  end.

Definition splitlines (s : str) : list str := splitlines_go [] s.

(** [sep.join(parts)] *)
Fixpoint join (sep : str) (parts : list str) : str :=
  match parts with
  | [] => []
  | [p] => p
  | p :: rest => p ++ sep ++ join sep rest
  end.

(** The longest prefix of characters in a class, and what follows it. *)
Fixpoint span (P : char -> bool) (s : str) : str * str :=
  match s with
  | c :: t => if P c then let '(a, b) := span P t in (c :: a, b) else ([], s)
  | [] => ([], [])
  end.

(** [re.sub(r"[class]+", rep, s)]: every maximal run of characters of the
    class becomes one [rep]. *)
Fixpoint sub_runs_go (P : char -> bool) (rep : str) (in_run : bool) (s : str) : str :=
  match s with
  | [] => []
  | c :: t =>
      if P c then (if in_run then sub_runs_go P rep true t
                   else rep ++ sub_runs_go P rep true t)
      else c :: sub_runs_go P rep false t
  end.

Definition sub_runs (P : char -> bool) (rep s : str) : str := sub_runs_go P rep false s.

(** [re.sub] of [[class]] by the empty string: the characters of the class
    are removed. *)
Definition remove_chars (P : char -> bool) (s : str) : str :=
  List.filter (fun c => negb (P c)) s.

(** [int(ds)] for a string of ASCII digits. *)
Definition int_of_digits (ds : str) : Z :=
  fold_left (fun acc d => (10 * acc + (Z.of_N d - 48))%Z) ds 0%Z.

(** [str(n)] for a natural number: the decimal digits, the last one first
    computed; [fuel] bounds the number of digits and [S n] is enough. *)
Fixpoint digits_go (fuel n : nat) (acc : str) : str :=
  match fuel with
  | O => acc
  | S fuel' =>
      let acc' := N.of_nat (48 + n mod 10) :: acc in
      match n / 10 with
      | O => acc'
      | S _ as m => digits_go fuel' m acc'
      end
  end.

Definition str_of_nat (n : nat) : str := digits_go (S n) n [].

(** The two-digit fields of [strftime]. *)

Definition pad2 (n : nat) : str :=
  if n <? 10 then 48%N :: str_of_nat n else str_of_nat n.

(** The text of an f-string: the fixed pieces around the formatted values. *)
Fixpoint fstring (pieces values : list str) : str :=
  match pieces, values with
  | p :: pieces', v :: values' => p ++ v ++ fstring pieces' values'
  | p :: _, [] => p
  | [], _ => []
  end.

(** The length in bytes of the UTF-8 encoding. *)
Definition utf8_len (s : str) : nat :=
  foldr (fun c acc =>
           (if (c <? 128)%N then 1 else if (c <? 2048)%N then 2
            else if (c <? 65536)%N then 3 else 4) + acc) 0 s.

End Py.

Import Py.

(** ** Exceptions and results *)

Inductive exn : Type :=
| HTTPException (status_code : nat) (detail : str)
| RuntimeError (msg : str)
| AttributeError (msg : str)
| OSError (msg : str).

Inductive result (A : Type) : Type :=
| Ok (a : A)
| Raise (e : exn).
Arguments Ok {A} a.
Arguments Raise {A} e.

(** [str(exc)] *)
Definition exn_str (e : exn) : str :=
  match e with
  | HTTPException c d => str_of_nat c ++ lit ": " ++ d
  | RuntimeError m | AttributeError m | OSError m => m
  end.

(** [datetime.now()], as the fields that [strftime] prints. *)
Record datetime : Type := {
  year : N; month : N; day : N; hour : N; minute : N; second : N }.

(** [d.strftime("%Y%m%d_%H%M%S")]; the year is printed without padding, as
    the C library does. *)
Definition strftime_stamp (d : datetime) : str :=
  str_of_nat (N.to_nat (year d)) ++ pad2 (N.to_nat (month d))
  ++ pad2 (N.to_nat (day d)) ++ [UNDERSCORE]
  ++ pad2 (N.to_nat (hour d)) ++ pad2 (N.to_nat (minute d))
  ++ pad2 (N.to_nat (second d)).

Definition is_ok {A} (r : result A) : bool :=
  match r with Ok _ => true | Raise _ => false end.

(** A state-and-exception monad: a raised exception keeps the state
    reached so far, as writes to the file system are not undone. *)
Definition M (S A : Type) : Type := S -> result A * S.

Definition ret {S A} (a : A) : M S A := fun s => (Ok a, s).
Definition raise {S A} (e : exn) : M S A := fun s => (Raise e, s).
Definition bind {S A B} (m : M S A) (k : A -> M S B) : M S B :=
  fun s => match m s with
           | (Ok a, s') => k a s'
           | (Raise e, s') => (Raise e, s')
           end.
Definition lift {S A} (r : result A) : M S A := fun s => (r, s).
Definition get_state {S} : M S S := fun s => (Ok s, s).

Declare Scope m_scope.
Delimit Scope m_scope with M.
Notation "'do' x <- m ; k" := (bind m (fun x => k))
  (at level 10, x name, m at level 100, k at level 200) : m_scope.
Notation "'do' ' pat <- m ; k" := (bind m (fun x => match x with pat => k end))
  (at level 10, pat pattern, m at level 100, k at level 200) : m_scope.
Notation "'exec' m ; k" := (bind m (fun _ => k))
  (at level 10, m at level 100, k at level 200) : m_scope.

(** ** JSON values, as [json.load] returns them and [json.dumps] takes them *)

#[warnings="-register-all"]
Inductive json : Type :=
| JNull
| JBool (b : bool)
| JNum (q : Q)
| JStr (s : str)
| JArr (items : list json)
| JObj (members : list (str * json)).

Definition str_eqb (a b : str) : bool := bool_decide (a = b).

(** [d.get(key, default)] on the members of an object; a later member with
    the same key wins, as in [json.load]. *)
Definition dict_get (members : list (str * json)) (key : str) (default : json) : json :=
  match List.find (fun kv => str_eqb (fst kv) key) (rev members) with
  | Some kv => snd kv
  | None => default
  end.

(** The truth value of a value, as [x or y] and [if not x] test it. *)
Definition truthy (j : json) : bool :=
  match j with
  | JNull => false
  | JBool b => b
  | JNum q => negb (Qeq_bool q 0)
  | JStr s => match s with [] => false | _ :: _ => true end
  | JArr items => match items with [] => false | _ :: _ => true end
  | JObj members => match members with [] => false | _ :: _ => true end
  end.

(** What a POST to the model server comes to: the request (or the check
    of its status) raises, the body cannot be decoded as JSON, or the
    decoded body. *)
Inductive post_outcome : Type :=
| PostFailed (e : exn)
| PostUndecodable (e : exn)
| PostJson (data : json).

(** ** The file system *)

Module FS.

(** A path is the list of its components below the starting directory (the
    root for an absolute path, the working directory for a relative one),
    which always exists. *)
Abbreviation path := (list (list N)).

Inductive node : Type :=
| Dir
| File (content : str).

Abbreviation t := (gmap (list (list N)) node).

Definition node_at (fs : t) (p : path) : option node :=
  match p with
  | [] => Some Dir
  | _ :: _ => fs !! p
  end.

(** [Path.exists], [Path.is_dir] *)
Definition exists_ (fs : t) (p : path) : bool :=
  match node_at fs p with Some _ => true | None => false end.

Definition is_dir (fs : t) (p : path) : bool :=
  match node_at fs p with Some Dir => true | _ => false end.

Definition parent (p : path) : path := removelast p.

(** [Path.mkdir(parents=True, exist_ok=True)]: the missing directories of
    the chain are created; a file on the way is an error. *)
Fixpoint mkdir_chain (pre : path) (rest : list str) (fs : t) : result unit * t :=
  match rest with
  | [] => (Ok tt, fs)
  | n :: rest' =>
      let p := pre ++ [n] in
      match fs !! p with
      | Some Dir => mkdir_chain p rest' fs
      | Some (File _) => (Raise (OSError (lit "FileExistsError")), fs)
      | None => mkdir_chain p rest' (<[p := Dir]> fs)
      end
  end.

Definition mkdir_parents_exist_ok (p : path) : M t unit := mkdir_chain [] p.

(** A lone surrogate cannot be encoded as UTF-8. *)
Definition is_surrogate (c : char) : bool := in_range 55296 57343 c.

(** [Path.write_text(data, encoding="utf8")]: the file is opened for
    writing (created or emptied) and then the encoded text is written. *)
Definition write_text (p : path) (data : str) : M t unit :=
  fun fs =>
    if negb (is_dir fs (parent p)) then
      (Raise (OSError (lit "FileNotFoundError")), fs)
    else match node_at fs p with
         | Some Dir => (Raise (OSError (lit "IsADirectoryError")), fs)
         | _ =>
             if existsb is_surrogate data
             then (Raise (OSError (lit "UnicodeEncodeError")), <[p := File []]> fs)
             else (Ok tt, <[p := File data]> fs)
         end.

(** The name of [q] when [q] is an entry of the directory [p]. *)
Fixpoint child_name (p q : path) : option str :=
  match p, q with
  | [], [n] => Some n
  | a :: p', b :: q' => if str_eqb a b then child_name p' q' else None
  | _, _ => None
  end.

(** Lexicographic order on names, by code point, as [str] compares. *)
Fixpoint str_ltb (a b : str) : bool :=
  match a, b with
  | [], _ :: _ => true
  | x :: a', y :: b' => (x <? y)%N || ((x =? y)%N && str_ltb a' b')
  | _, [] => false
  end.

Fixpoint insert_desc (n : str) (l : list str) : list str :=
  match l with
  | [] => [n]
  | m :: l' => if str_ltb m n then n :: l else m :: insert_desc n l'
  end.

(** [sorted(p.iterdir(), reverse=True)], as the names of the entries. *)
Definition sorted_entries_desc (fs : t) (p : path) : list str :=
  foldr insert_desc [] (omap (fun kv => child_name p (fst kv)) (map_to_list fs)).

End FS.

(** ** The single-call variant: [src/main.py] *)

Module Main.

(** [re.sub(r"[^A-Za-z0-9]+", "_", text)], then [strip("_")]. *)
Definition is_alnum (c : char) : bool :=
  is_upper_AZ c || is_lower_az c || isdigit c.

Definition is_underscore (c : char) : bool := (c =? UNDERSCORE)%N.

Definition sanitize_part (text : str) : str :=
  match text with
  | [] => lit "job"
  | _ :: _ =>
      let cleaned := sub_runs (fun c => negb (is_alnum c)) [UNDERSCORE] text in
      let cleaned := strip_chars is_underscore cleaned in
      match cleaned with
      | [] => lit "job"
      | _ :: _ => cleaned
      end
  end.

Definition map_score_to_label (score : Q) : str :=
  if Qle_bool 85 score then lit "Strong fit"
  else if Qle_bool 70 score then lit "Good fit"
  else if Qle_bool 55 score then lit "Moderate fit"
  else lit "Low fit".

(** A match of [\[([^\]]+)\]\(([^)]+)\)] that starts at the head of [s]:
    the label and the number of characters matched.  The label runs to the
    first "]" and the address to the first ")"; both are non-empty. *)
Definition link_at (s : str) : option (str * nat) :=
  match s with
  | 91%N :: r =>
      let '(label, r1) := span (fun c => negb (c =? 93)%N) r in
      match label, r1 with
      | _ :: _, 93%N :: 40%N :: r2 =>
          let '(url, r3) := span (fun c => negb (c =? 41)%N) r2 in
          match url, r3 with
          | _ :: _, 41%N :: _ => Some (label, 1 + length label + 2 + length url + 1)
          | _, _ => None
          end
      | _, _ => None
      end
  | _ => None
  end.

(** [re.sub(r"\[([^\]]+)\]\(([^)]+)\)", r"\1", s)] *)
Fixpoint sub_links_go (skip : nat) (s : str) : str :=
  match s with
  | [] => []
  | c :: t =>
      match skip with
      | S k => sub_links_go k t
      | O => match link_at s with
             | Some (label, n) => label ++ sub_links_go (n - 1) t
             | None => c :: sub_links_go 0 t
             end
      end
  end.

Definition sub_links (s : str) : str := sub_links_go 0 s.

(** [re.sub(r"\n{3,}", "\n\n", s)]; [k] newlines are pending. *)
Definition emit_newlines (k : nat) : str :=
  if k <? 3 then replicate k NL else [NL; NL].

Fixpoint collapse_newlines_go (k : nat) (s : str) : str :=
  match s with
  | [] => emit_newlines k
  | c :: t =>
      if (c =? NL)%N then collapse_newlines_go (S k) t
      else emit_newlines k ++ c :: collapse_newlines_go 0 t
  end.

Definition collapse_newlines (s : str) : str := collapse_newlines_go 0 s.

Definition ELLIPSIS : str := [DOT; DOT; DOT].

(** The test of the loop over the lines: [true] when the line is kept. *)
Definition keep_line (line : str) : bool :=
  let stripped := strip line in
  let lower := lower stripped in
  if startswith stripped ELLIPSIS then false
  else if contains (lit "continued") lower && contains ELLIPSIS stripped then false
  else true.

Definition clean_model_text (text : str) : str :=
  match text with
  | [] => []
  | _ :: _ =>
      let s := text in
      let s := replace [BACKSLASH; 110%N] [NL] s in
      let s := replace [BACKSLASH; 114%N] [CR] s in
      let s := replace [BACKSLASH; 116%N] [TAB] s in
      let s := replace (lit "\u0022") [DQUOTE] s in
      let s := replace [BACKTICK; BACKTICK; BACKTICK] [] s in
      let s := sub_links s in
      let cleaned_lines := List.filter keep_line (splitlines s) in
      let s := join [NL] cleaned_lines in
      let s := collapse_newlines s in
      strip s
  end.

Definition extract_block (text start_tag end_tag : str) : str :=
  match find start_tag text with
  | None => []
  | Some start_idx =>
      let start_idx := start_idx + length start_tag in
      let end_idx :=
        match find_from end_tag text start_idx with
        | None => length text
        | Some e => e
        end in
      strip (slice text start_idx end_idx)
  end.

(** A match of [FIT_SCORE:\s*([0-9]+(?:\.[0-9]+)?)] at the head of [s]:
    the digits before and after the point of group 1. *)
Definition fit_score_at (s : str) : option (str * str) :=
  if startswith s (lit "FIT_SCORE:") then
    let r := lstrip (drop 10 s) in
    let '(ds, r1) := span isdigit r in
    match ds with
    | [] => None
    | _ :: _ =>
        match r1 with
        | 46%N :: r2 =>
            let '(fs, _) := span isdigit r2 in Some (ds, fs)
        | _ => Some (ds, [])
        end
    end
  else None.

(** [re.search] of that pattern: the leftmost match. *)
Fixpoint fit_score_search (s : str) : option (str * str) :=
  match fit_score_at s with
  | Some m => Some m
  | None => match s with
            | [] => None
            | _ :: t => fit_score_search t
            end
  end.

(** [float(m.group(1))], as the exact value of the decimal numeral (the
    rounding to a binary float is not modelled; whole numbers below 2^53
    are exact). *)
Definition float_of_decimal (ds fs : str) : Q :=
  match fs with
  | [] => inject_Z (int_of_digits ds)
  | _ :: _ =>
      Qred (inject_Z (int_of_digits ds)
            + Qmake (int_of_digits fs) (Pos.pow 10 (Pos.of_nat (length fs))))%Q
  end.

(** [re.sub] of [^[0-9]+\s*[\).\-\:]\s*] by the empty string: a leading
    enumerator is removed. *)
Definition is_enum_punct (c : char) : bool :=
  (c =? 41)%N || (c =? 46)%N || (c =? 45)%N || (c =? 58)%N.

Definition strip_enumerator (line : str) : str :=
  let '(ds, r) := span isdigit line in
  match ds with
  | [] => line
  | _ :: _ =>
      match lstrip r with
      | c :: r' => if is_enum_punct c then lstrip r' else line
      | [] => line
      end
  end.

(** The loop [while len(l) < n: l.append(x)]. *)
Definition append_while_shorter {A} (n : nat) (x : A) (l : list A) : list A :=
  l ++ replicate (n - length l) x.

(** The short-answers part of [parse_model_output], from the cleaned block. *)
Definition short_answers_of (sa_block : str) : list str :=
  let short_answers :=
    flat_map (fun line =>
                let line := strip line in
                match line with
                | [] => []
                | _ :: _ => [strip_enumerator line]
                end) (splitlines sa_block) in
  let short_answers :=
    if 3 <? length short_answers then take 3 short_answers else short_answers in
  append_while_shorter 3 [] short_answers.

Definition parse_model_output (raw : str)
  : result (Q * str * str * str * list str) :=
  let text := raw in
  match fit_score_search text with
  | None =>
      Raise (HTTPException 500
               (lit "Could not find FIT_SCORE in model output. Snippet: "
                ++ take 300 text))
  | Some (ds, fs) =>
      let fit_score := float_of_decimal ds fs in
      let reasoning := extract_block text (lit "REASONING:" ++ [NL]) (lit "COVER_LETTER:") in
      let reasoning :=
        match reasoning with
        | [] => extract_block text (lit "REASONING:") (lit "COVER_LETTER:")
        | _ :: _ => reasoning
        end in
      let reasoning := clean_model_text reasoning in
      let cover_letter := extract_block text (lit "COVER_LETTER:" ++ [NL]) (lit "END_COVER_LETTER") in
      let cover_letter :=
        match cover_letter with
        | [] => extract_block text (lit "COVER_LETTER:") (lit "END_COVER_LETTER")
        | _ :: _ => cover_letter
        end in
      let cover_letter := clean_model_text cover_letter in
      let resume := extract_block text (lit "RESUME:" ++ [NL]) (lit "END_RESUME") in
      let resume :=
        match resume with
        | [] => extract_block text (lit "RESUME:") (lit "END_RESUME")
        | _ :: _ => resume
        end in
      let resume := clean_model_text resume in
      let sa_block := extract_block text (lit "SHORT_ANSWERS:" ++ [NL]) (lit "END_SHORT_ANSWERS") in
      let sa_block :=
        match sa_block with
        | [] => extract_block text (lit "SHORT_ANSWERS:") (lit "END_SHORT_ANSWERS")
        | _ :: _ => sa_block
        end in
      let sa_block := clean_model_text sa_block in
      Ok (fit_score, reasoning, cover_letter, resume, short_answers_of sa_block)
  end.


Record JobInput : Type := {
  resume_text : str;
  company : str;
  title : str;
  location : option str;
  job_description : str;
  seniority_hint : option str }.

Record PackageOutput : Type := {
  fit_score : Q;
  fit_label : str;
  reasoning : str;
  cover_letter : str;
  resume : str;
  short_answers : list str;
  container_folder : str;
  host_folder : option str }.

Definition OUTPUT_ROOT : FS.path := [lit "app"; lit "output"].

(** [str(p)] for an absolute path. *)
Definition path_str (p : FS.path) : str :=
  flat_map (fun n => 47%N :: n) p.

(** [f"{x}"] for an optional string. *)
Definition fmt_opt (o : option str) : str :=
  match o with Some s => s | None => lit "None" end.

Definition json_opt (o : option str) : json :=
  match o with Some s => JStr s | None => JNull end.

(** [answers_text += f"Answer {idx}:\n{ans}\n\n"] over the answers. *)
Fixpoint answers_text_from (idx : nat) (answers : list str) : str :=
  match answers with
  | [] => []
  | ans :: rest =>
      lit "Answer " ++ str_of_nat idx ++ lit ":" ++ [NL] ++ ans ++ [NL; NL]
      ++ answers_text_from (S idx) rest
  end.

Section Assembly.

(** The environment: the host path shown to the user, the fixed system
    prompt, [json.dumps(_, indent=2)] and the call to the model server. *)
Variable HOST_OUTPUT_ROOT : str.
Variable SYSTEM_PROMPT : str.
Variable json_dumps : json -> str.
Variable call_ollama : str -> str -> result str.

Definition create_job_folder (now : datetime) (job : JobInput)
  : M FS.t (FS.path * option str * str) :=
  let stamp := strftime_stamp now in
  let name := stamp ++ [UNDERSCORE] ++ sanitize_part (company job)
              ++ [UNDERSCORE] ++ sanitize_part (title job) in
  let job_dir := OUTPUT_ROOT ++ [name] in
  (exec FS.mkdir_parents_exist_ok job_dir ;
   let host_path :=
     match HOST_OUTPUT_ROOT with
     | [] => None
     | _ :: _ => Some (HOST_OUTPUT_ROOT ++ [47%N] ++ name)
     end in
   ret (job_dir, host_path, name))%M.

Definition user_prompt_of (job : JobInput) : str :=
  fstring
    [ [NL] ++ lit "Candidate resume text:" ++ [NL];
      [NL; NL] ++ lit "Job title: ";
      [NL] ++ lit "Company: ";
      [NL] ++ lit "Location: ";
      [NL] ++ lit "Seniority hint: ";
      [NL; NL] ++ lit "Job description:" ++ [NL];
      [NL; NL] ++ lit "Follow the required output format exactly." ++ [NL] ]
    [ resume_text job; title job; company job; fmt_opt (location job);
      fmt_opt (seniority_hint job); job_description job ].

Definition process_job (now : datetime) (job : JobInput) : M FS.t PackageOutput :=
  let system_prompt := SYSTEM_PROMPT in
  let user_prompt := user_prompt_of job in
  (do raw <- lift (match call_ollama system_prompt user_prompt with
                   | Ok raw => Ok raw
                   | Raise exc =>
                       Raise (HTTPException 500 (lit "Error talking to Ollama: " ++ exn_str exc))
                   end) ;
   do '(fit_score, reasoning, cover_letter, resume, short_answers) <-
     lift (parse_model_output raw) ;
   let fit_label := map_score_to_label fit_score in
   do '(job_dir, host_path, _) <- create_job_folder now job ;
   exec FS.write_text (job_dir ++ [lit "cover_letter.txt"]) cover_letter ;
   exec FS.write_text (job_dir ++ [lit "resume_full.txt"]) resume ;
   let answers_text := answers_text_from 1 short_answers in
   exec FS.write_text (job_dir ++ [lit "short_answers.txt"]) answers_text ;
   let meta := JObj
     [ (lit "company", JStr (company job));
       (lit "title", JStr (title job));
       (lit "location", json_opt (location job));
       (lit "seniority_hint", json_opt (seniority_hint job));
       (lit "fit_score", JNum fit_score);
       (lit "fit_label", JStr fit_label);
       (lit "reasoning", JStr reasoning);
       (lit "container_folder", JStr (path_str job_dir));
       (lit "host_folder", json_opt host_path) ] in
   exec FS.write_text (job_dir ++ [lit "meta.json"]) (json_dumps meta) ;
   ret {| fit_score := fit_score; fit_label := fit_label; reasoning := reasoning;
          cover_letter := cover_letter; resume := resume;
          short_answers := short_answers;
          container_folder := path_str job_dir; host_folder := host_path |})%M.

End Assembly.

(** One row of the dashboard. *)
Record JobSummary : Type := {
  js_folder : str;
  js_host_folder : json;
  js_company : json;
  js_title : json;
  js_location : json;
  js_fit_score : json;
  js_fit_label : json }.

Section Dashboard.

(** [json.load] on the text of a file; [None] when it raises. *)
Variable json_load : str -> option json.

(** The loop of [get_recent_jobs] over the sorted entries. *)
Fixpoint recent_loop (fs : FS.t) (limit : Z) (entries : list str)
    (jobs : list JobSummary) : result (list JobSummary) :=
  match entries with
  | [] => Ok jobs
  | name :: rest =>
      let entry := OUTPUT_ROOT ++ [name] in
      if negb (FS.is_dir fs entry) then recent_loop fs limit rest jobs
      else
        let meta_path := entry ++ [lit "meta.json"] in
        match FS.node_at fs meta_path with
        | None => recent_loop fs limit rest jobs
        | Some FS.Dir => recent_loop fs limit rest jobs
        | Some (FS.File content) =>
            match json_load content with
            | None => recent_loop fs limit rest jobs
            | Some (JObj meta) =>
                let jobs := jobs ++
                  [ {| js_folder := path_str entry;
                       js_host_folder := dict_get meta (lit "host_folder") (JStr []);
                       js_company := dict_get meta (lit "company") (JStr []);
                       js_title := dict_get meta (lit "title") (JStr []);
                       js_location := dict_get meta (lit "location") (JStr []);
                       js_fit_score := dict_get meta (lit "fit_score") (JStr []);
                       js_fit_label := dict_get meta (lit "fit_label") (JStr []) |} ] in
                if (limit <=? Z.of_nat (length jobs))%Z then Ok jobs
                else recent_loop fs limit rest jobs
            | Some _ =>
                Raise (AttributeError (lit "object has no attribute 'get'"))
            end
        end
  end.

Definition get_recent_jobs (fs : FS.t) (limit : Z) : result (list JobSummary) :=
  if negb (FS.exists_ fs OUTPUT_ROOT) then Ok []
  else if negb (FS.is_dir fs OUTPUT_ROOT) then Raise (OSError (lit "NotADirectoryError"))
  else recent_loop fs limit (FS.sorted_entries_desc fs OUTPUT_ROOT) [].

End Dashboard.

Section Client.

(** The environment: the address of the server, the name of the model,
    the POST itself, and [repr] of the decoded body. *)
Variable OLLAMA_HOST : str.
Variable MODEL_NAME : str.
Variable post : str -> json -> post_outcome.
Variable repr_json : json -> str.

Definition call_ollama (system_prompt user_prompt : str) : result json :=
  let url := OLLAMA_HOST ++ lit "/api/chat" in
  let body := JObj
    [ (lit "model", JStr MODEL_NAME);
      (lit "messages",
       JArr [ JObj [ (lit "role", JStr (lit "system")); (lit "content", JStr system_prompt) ];
              JObj [ (lit "role", JStr (lit "user")); (lit "content", JStr user_prompt) ] ]);
      (lit "stream", JBool false) ] in
  match post url body with
  | PostFailed exc =>
      Raise (RuntimeError (lit "Error calling Ollama at " ++ url ++ lit ": " ++ exn_str exc))
  | PostUndecodable exc => Raise exc
  | PostJson data =>
      match data with
      | JObj members =>
          let message := dict_get members (lit "message") JNull in
          let message := if truthy message then message else JObj [] in
          match message with
          | JObj message_members =>
              let content := dict_get message_members (lit "content") JNull in
              if negb (truthy content) then
                Raise (RuntimeError (lit "Ollama returned no content. Raw response: "
                                     ++ repr_json data))
              else Ok content
          | _ => Raise (AttributeError (lit "object has no attribute 'get'"))
          end
      | _ => Raise (AttributeError (lit "object has no attribute 'get'"))
      end
  end.

End Client.

End Main.

(** ** The variant with one call per artifact: [src/app/...] *)

Module App.

(** *** [app/utils.py] *)

Definition sanitize_part (text fallback : str) : str :=
  let cleaned := strip text in
  match cleaned with
  | [] => fallback
  | _ :: _ =>
      let cleaned := sub_runs isspace [UNDERSCORE] (lower cleaned) in
      let cleaned :=
        remove_chars (fun c => negb (is_lower_az c || isdigit c || (c =? UNDERSCORE)%N))
                     cleaned in
      match cleaned with
      | [] => fallback
      | _ :: _ => cleaned
      end
  end.

Fixpoint build_short_answers_text_from (idx : nat) (short_answers : list str) : str :=
  match short_answers with
  | [] => []
  | ans :: rest =>
      lit "Answer " ++ str_of_nat idx ++ lit ":" ++ [NL] ++ ans ++ [NL; NL]
      ++ build_short_answers_text_from (S idx) rest
  end.

Definition build_short_answers_text (short_answers : list str) : str :=
  build_short_answers_text_from 1 short_answers.

Definition label_fit (score : Q) : str :=
  if Qle_bool 85 score then lit "Strong fit"
  else if Qle_bool 65 score then lit "Good fit"
  else lit "Weak fit".

(** *** [app/models.py] *)

Inductive SeniorityHint : Type :=
| junior | intermediate | senior | lead | director | executive.

Definition hint_value (h : SeniorityHint) : str :=
  match h with
  | junior => lit "junior"
  | intermediate => lit "intermediate"
  | senior => lit "senior"
  | lead => lit "lead"
  | director => lit "director"
  | executive => lit "executive"
  end.

Definition all_hints : list SeniorityHint :=
  [junior; intermediate; senior; lead; director; executive].

(** [SeniorityHint(value)]: the member with that value; [None] stands for
    the [ValueError] of a value that no member has. *)
Definition SeniorityHint_of (value : str) : option SeniorityHint :=
  List.find (fun h => str_eqb (hint_value h) value) all_hints.

Record JobInput : Type := {
  resume_text : str;
  company : str;
  title : str;
  location : option str;
  job_description : str;
  seniority_hint : option SeniorityHint }.

(** *** [app/services/generation.py] *)

Definition OUTPUT_ROOT : FS.path := [lit "job-packages"].

(** [str(p)] for a relative path. *)
Definition path_str (p : FS.path) : str := join [47%N] p.

(** The values that the prompts format with [x or "unspecified"]. *)
Definition or_unspecified (o : option str) : str :=
  match o with
  | Some (_ :: _ as s) => s
  | _ => lit "unspecified"
  end.

(** The post-processing of the raw answer text in [generate_short_answers]. *)
Definition short_answer_parts (raw : str) : list str :=
  let parts := List.filter (fun p => match p with [] => false | _ => true end)
                           (List.map strip (split [NL; NL] raw)) in
  if 3 <=? length parts then take 3 parts
  else match parts with
       | _ :: _ =>
           (* while len(parts) < 3: parts.append(parts[-1]) *)
           take 3 (parts ++ replicate (3 - length parts) (List.last parts []))
       | [] => [[]; []; []]
       end.

Definition estimate_fit_score (job : JobInput) : Q :=
  let base := 70%Q in
  let base :=
    match seniority_hint job with
    | Some h =>
        if existsb (fun v => str_eqb (hint_value h) v)
             [lit "senior"; lit "lead"; lit "director"; lit "executive"]
        then (base + 5)%Q else base
    | None => base
    end in
  let base := if 1500 <? length (job_description job) then (base + 5)%Q else base in
  Qmax 0 (Qmin 100 base).

(** What [generate_full_package] returns. *)
Record PackageInfo : Type := {
  job_dir : str;
  fit_score : Q;
  fit_label : str;
  folder_name : str }.

Section Generation.

(** The environment: the fixed text of the three prompts (the pieces of
    each f-string around its formatted values), how a member of the
    enumeration is formatted inside an f-string, [json.dumps(_, indent=2)]
    and the call to the model server. *)
Variable RESUME_PROMPT : list str.
Variable COVER_PROMPT : list str.
Variable ANSWERS_PROMPT : list str.
Variable format_hint : SeniorityHint -> str.
Variable json_dumps : json -> str.
Variable ollama_chat : str -> result str.

Definition generate_resume (job : JobInput) : result str :=
  let prompt := strip (fstring RESUME_PROMPT
    [ resume_text job; job_description job; company job; title job;
      or_unspecified (location job);
      match seniority_hint job with
      | Some h => format_hint h
      | None => lit "unspecified"
      end ]) in
  ollama_chat prompt.

Definition generate_cover_letter (job : JobInput) : result str :=
  let prompt := strip (fstring COVER_PROMPT
    [ resume_text job; job_description job; company job; title job;
      or_unspecified (location job);
      match seniority_hint job with
      | Some h => format_hint h
      | None => lit "unspecified"
      end ]) in
  ollama_chat prompt.

Definition generate_short_answers (job : JobInput) : result (list str) :=
  let prompt := strip (fstring ANSWERS_PROMPT
    [ resume_text job; job_description job; company job; title job ]) in
  match ollama_chat prompt with
  | Ok raw => Ok (short_answer_parts raw)
  | Raise e => Raise e
  end.

Definition generate_full_package (now : datetime) (job : JobInput) : M FS.t PackageInfo :=
  let timestamp := strftime_stamp now in
  (exec FS.mkdir_parents_exist_ok OUTPUT_ROOT ;
   let folder_name :=
     sanitize_part (company job) (lit "company") ++ [UNDERSCORE]
     ++ sanitize_part (title job) (lit "title") ++ [UNDERSCORE] ++ timestamp in
   let job_dir := OUTPUT_ROOT ++ [folder_name] in
   exec FS.mkdir_parents_exist_ok job_dir ;
   do resume_text <- lift (generate_resume job) ;
   do cover_text <- lift (generate_cover_letter job) ;
   do short_answers_list <- lift (generate_short_answers job) ;
   let answers_text := build_short_answers_text short_answers_list in
   exec FS.write_text (job_dir ++ [lit "resume_full.txt"]) resume_text ;
   exec FS.write_text (job_dir ++ [lit "cover_letter.txt"]) cover_text ;
   exec FS.write_text (job_dir ++ [lit "short_answers.txt"]) answers_text ;
   let fit_score := estimate_fit_score job in
   let fit_label := label_fit fit_score in
   let meta := JObj
     [ (lit "company", JStr (company job));
       (lit "title", JStr (title job));
       (lit "location", match location job with Some l => JStr l | None => JNull end);
       (lit "seniority_hint",
        match seniority_hint job with Some h => JStr (hint_value h) | None => JNull end);
       (lit "fit_score", JNum fit_score);
       (lit "fit_label", JStr fit_label);
       (lit "folder_name", JStr folder_name);
       (lit "created_at", JStr timestamp) ] in
   exec FS.write_text (job_dir ++ [lit "meta.json"]) (json_dumps meta) ;
   ret {| job_dir := path_str job_dir; fit_score := fit_score;
          fit_label := fit_label; folder_name := folder_name |})%M.

(** *** [app/services/diagnostics.py] *)

(** The error buffer, most recent first: the time and the message. *)
Definition record_error (time : str) (exc : exn) (buffer : list (str * str))
  : list (str * str) :=
  take 20 ((time, exn_str exc) :: buffer).

Definition init_diagnostics : M FS.t unit := FS.mkdir_parents_exist_ok OUTPUT_ROOT.

Record OutputStats : Type := { total_jobs : nat; total_bytes : nat }.

Definition is_below (root q : FS.path) : bool :=
  bool_decide (take (length root) q = root) && (length root <? length q).

Definition get_output_stats : M FS.t OutputStats :=
  (exec FS.mkdir_parents_exist_ok OUTPUT_ROOT ;
   do fs <- get_state ;
   let job_dirs :=
     List.filter (fun n => FS.is_dir fs (OUTPUT_ROOT ++ [n]))
                 (FS.sorted_entries_desc fs OUTPUT_ROOT) in
   let total_bytes :=
     map_fold (fun q nd acc =>
                 match nd with
                 | FS.File content =>
                     if is_below OUTPUT_ROOT q then utf8_len content + acc else acc
                 | FS.Dir => acc
                 end) 0 fs in
   ret {| total_jobs := length job_dirs; total_bytes := total_bytes |})%M.

Record DashboardStats : Type := {
  errors : list (str * str);
  output : OutputStats }.

Definition get_dashboard_stats (buffer : list (str * str)) : M FS.t DashboardStats :=
  (do out <- get_output_stats ;
   ret {| errors := buffer; output := out |})%M.

(** *** [app/routers/ui.py] *)

(** The form of a submission. *)
Record SubmitForm : Type := {
  f_resume_text : str;
  f_company : str;
  f_title : str;
  f_location : str;
  f_job_description : str;
  f_seniority_hint : str }.

(** The context handed to the template, and the status of the response. *)
Record Response : Type := {
  status_code : nat;
  stats : DashboardStats;
  last_job : option PackageInfo;
  error_message : option str }.

(** [index]: the dashboard with no package and no error shown. *)
Definition index (buffer : list (str * str)) : M FS.t Response :=
  (do stats <- get_dashboard_stats buffer ;
   ret {| status_code := 200; stats := stats; last_job := None;
          error_message := None |})%M.

(** The [JobInput] that [submit] builds from the form. *)
Definition job_input_of (form : SubmitForm) : JobInput :=
  let hint :=
    match f_seniority_hint form with
    | [] => None
    | _ :: _ => SeniorityHint_of (f_seniority_hint form)
    end in
  {| resume_text := f_resume_text form;
     company := f_company form;
     title := f_title form;
     location := match f_location form with [] => None | l => Some l end;
     job_description := f_job_description form;
     seniority_hint := hint |}.

(** [submit]: the state is the file system and the error buffer; [now] is
    the clock read by the assembler and [err_time] the time that
    [record_error] prints. *)
Definition submit (now : datetime) (err_time : str) (form : SubmitForm)
    (fs : FS.t) (buffer : list (str * str))
  : result Response * FS.t * list (str * str) :=
  let job_input := job_input_of form in
  let body :=
    (do result <- generate_full_package now job_input ;
     do stats <- get_dashboard_stats buffer ;
     ret {| status_code := 200; stats := stats; last_job := Some result;
            error_message := None |})%M in
  match body fs with
  | (Ok resp, fs') => (Ok resp, fs', buffer)
  | (Raise exc, fs') =>
      let buffer' := record_error err_time exc buffer in
      match get_dashboard_stats buffer' fs' with
      | (Ok stats, fs'') =>
          (Ok {| status_code := 500; stats := stats; last_job := None;
                 error_message := Some (exn_str exc) |}, fs'', buffer')
      | (Raise e, fs'') => (Raise e, fs'', buffer')
      end
  end.

End Generation.

(** *** [app/services/ollama_client.py] *)

Section Client.

Variable OLLAMA_HOST : str.
Variable MODEL : str.
Variable post : str -> json -> post_outcome.

Definition ollama_chat (prompt : str) : result json :=
  let payload := JObj
    [ (lit "model", JStr MODEL); (lit "prompt", JStr prompt); (lit "stream", JBool false) ] in
  match post (OLLAMA_HOST ++ lit "/api/generate") payload with
  | PostFailed exc => Raise exc
  | PostUndecodable exc => Raise exc
  | PostJson data =>
      match data with
      | JObj members =>
          let message := dict_get members (lit "response") JNull in
          if negb (truthy message) then
            Raise (RuntimeError (lit "Ollama response missing 'response' field"))
          else Ok message
      | _ => Raise (AttributeError (lit "object has no attribute 'get'"))
      end
  end.

End Client.

End App.

(** * The claims of the specification, as definitions *)

(** [sub] occurs in [s] as a substring. *)
Definition occurs (sub s : str) : Prop := exists pre post, s = pre ++ sub ++ post.

(** The text holds "FIT_SCORE:", optional white space and a digit. *)
Definition has_fit_score (raw : str) : Prop :=
  exists pre ws d post,
    raw = pre ++ lit "FIT_SCORE:" ++ ws ++ d :: post
    /\ Forall (fun c => isspace c = true) ws /\ isdigit d = true.

Definition missing_fit_score (raw : str) : exn :=
  HTTPException 500
    (lit "Could not find FIT_SCORE in model output. Snippet: " ++ take 300 raw).

(** The character class [[a-z0-9_]] and the pattern [^[a-z0-9_]+$]. *)
Definition is_slug_char (c : char) : bool :=
  is_lower_az c || isdigit c || (c =? UNDERSCORE)%N.

Definition is_slug (s : str) : bool :=
  match s with [] => false | _ :: _ => forallb is_slug_char s end.

(** The pattern [^[A-Za-z0-9_]+$]. *)
Definition is_word_char (c : char) : bool := Main.is_alnum c || (c =? UNDERSCORE)%N.

Definition is_word (s : str) : bool :=
  match s with [] => false | _ :: _ => forallb is_word_char s end.

(** ASCII punctuation other than the underscore. *)
Definition is_punct (c : char) : bool :=
  in_range 33 47 c || in_range 58 64 c || in_range 91 94 c || (c =? 96)%N
  || in_range 123 126 c.

Definition nonempty (s : str) : bool := match s with [] => false | _ :: _ => true end.

(** The enumerator of the claim: digits, then one of ") . - :", then
    optional white space. *)
Definition strip_enumerator_spec (line : str) : str :=
  let '(ds, r) := span isdigit line in
  match ds, r with
  | _ :: _, c :: r' => if Main.is_enum_punct c then lstrip r' else line
  | _, _ => line
  end.

(** Short-answer post-processing as the claim words it: the non-empty
    lines without their enumerators, cut to three, padded with empty strings. *)
Definition short_answers_spec (block : str) : list str :=
  take 3 (List.map strip_enumerator_spec (List.filter nonempty (splitlines block))
          ++ [[]; []; []]).

(** The answers that [parse_model_output] reads from the block: the
    stripped lines that are not empty, without their enumerators. *)
Definition numbered_answers (block : str) : list str :=
  List.map Main.strip_enumerator
    (List.filter nonempty (List.map strip (splitlines block))).

(** The answers that [generate_short_answers] reads from the raw text: the
    stripped pieces between blank lines that are not empty. *)
Definition paragraphs (raw : str) : list str :=
  List.filter nonempty (List.map strip (split [NL; NL] raw)).

(** ** The normalizer as the specification words it, step by step *)

(** Step 1, in one pass: backslash n, backslash r, backslash t become the
    newline, the carriage return and the tab. *)
Fixpoint unescape (s : str) : str :=
  match s with
  | [] => []
  | c :: s' =>
      if (c =? BACKSLASH)%N then
        match s' with
        | d :: t =>
            if (d =? 110)%N then NL :: unescape t
            else if (d =? 114)%N then CR :: unescape t
            else if (d =? 116)%N then TAB :: unescape t
            else c :: unescape s'
        | [] => [c]
        end
      else c :: unescape s'
  end.

(** [s.replace(old, new)] for an [old] of two characters and a [new] of
    one. *)
Definition replace_pair (a b x : char) (s : str) : str := replace_go [a; b] [x] 0 s.

(** Step 2. *)
Definition unquote (s : str) : str := replace (lit "\u0022") [DQUOTE] s.

(** Step 3. *)
Definition remove_fences (s : str) : str := replace [BACKTICK; BACKTICK; BACKTICK] [] s.

(** [str.splitlines(keepends=True)]: the lines with their terminators. *)
Fixpoint splitlines_keepends_go (cur : str) (s : str) : list str :=
  match s with
  | [] => match cur with [] => [] | _ => [cur] end
  | c :: t =>
      if (c =? CR)%N then
        match t with
        | d :: t' => if (d =? NL)%N then (cur ++ [CR; NL]) :: splitlines_keepends_go [] t'
                     else (cur ++ [CR]) :: splitlines_keepends_go [] t
        | [] => [cur ++ [CR]]
        end
      else if is_linebreak c then (cur ++ [c]) :: splitlines_keepends_go [] t
      else splitlines_keepends_go (cur ++ [c]) t
  end.

(** Step 5 as worded: the placeholder lines are dropped, the other lines
    stay as they are, line terminators included. *)
Definition drop_lines (s : str) : str :=
  concat (List.filter Main.keep_line (splitlines_keepends_go [] s)).

(** Step 5 as the code has it: the lines that are kept are joined again
    with one newline each, so every line terminator becomes a newline and
    a terminator at the end of the text is lost. *)
Definition drop_lines_rejoin (s : str) : str :=
  join [NL] (List.filter Main.keep_line (splitlines s)).

Definition normalize_ref (raw : str) : str :=
  strip (Main.collapse_newlines (drop_lines
    (Main.sub_links (remove_fences (unquote (unescape raw)))))).

Definition normalize_amended (raw : str) : str :=
  strip (Main.collapse_newlines (drop_lines_rejoin
    (Main.sub_links (remove_fences (unquote (unescape raw)))))).

(** ** The tagged format *)

(** The tag strings of the format. *)
Definition TAGS : list str :=
  [ lit "FIT_SCORE:"; lit "REASONING:"; lit "COVER_LETTER:"; lit "END_COVER_LETTER";
    lit "RESUME:"; lit "END_RESUME"; lit "SHORT_ANSWERS:"; lit "END_SHORT_ANSWERS" ].

(** A piece of text in which no tag string occurs. *)
Definition tag_free (s : str) : bool :=
  forallb (fun tag => negb (contains tag s)) TAGS.

(** A response in the format that the system prompt asks for: every tag on
    a line of its own, in order, around the bodies [b1] .. [b4]; [pre],
    [g0], [g1], [g2] and [post] are the text before, between and after. *)
Definition tagged_blob (pre g0 b1 b2 g1 b3 g2 b4 post : str) : str :=
  pre ++ (lit "FIT_SCORE: 73" ++ [NL]) ++ g0
  ++ (lit "REASONING:" ++ [NL]) ++ b1
  ++ (lit "COVER_LETTER:" ++ [NL]) ++ b2 ++ (lit "END_COVER_LETTER" ++ [NL]) ++ g1
  ++ (lit "RESUME:" ++ [NL]) ++ b3 ++ (lit "END_RESUME" ++ [NL]) ++ g2
  ++ (lit "SHORT_ANSWERS:" ++ [NL]) ++ b4 ++ lit "END_SHORT_ANSWERS" ++ post.

(** Two strings agree as far as both go. *)
Definition compat (a b : str) : bool := startswith a b || startswith b a.

(** No occurrence of [sub] can start inside [l], whatever follows [l]. *)
Fixpoint clear_of (sub l : str) : bool :=
  match l with
  | [] => true
  | _ :: t => negb (compat sub l) && clear_of sub t
  end.

(** No occurrence of [sub] can start before [l] and run into [l]. *)
Definition no_straddle (sub l : str) : bool :=
  forallb (fun j => negb (compat (drop j sub) l)) (seq 1 (length sub - 1)).

Definition head_is_not (c : char) (s : str) : bool :=
  match s with d :: _ => negb (d =? c)%N | [] => false end.

(** [s.endswith(p)] *)
Definition endswith (s p : str) : bool := startswith (rev s) (rev p).

(** ** The package on disk *)

Definition PACKAGE_FILES : list str :=
  [ lit "resume_full.txt"; lit "cover_letter.txt"; lit "short_answers.txt";
    lit "meta.json" ].

(** Going from [fs] to [fs'], the directory [dir] and the four files in it
    are new, they are all that is new, and nothing that was there has
    changed. *)
Definition package_created (fs fs' : FS.t) (dir : FS.path) : Prop :=
  dom fs' = dom fs ∪ {[ dir ]} ∪ list_to_set ((fun f => dir ++ [f]) <$> PACKAGE_FILES)
  /\ (forall q, is_Some (fs !! q) -> fs' !! q = fs !! q)
  /\ fs !! dir = None /\ fs' !! dir = Some FS.Dir
  /\ (forall f, f ∈ PACKAGE_FILES ->
                fs !! (dir ++ [f]) = None /\
                exists content, fs' !! (dir ++ [f]) = Some (FS.File content)).

(** Nothing exists at [dir] or below it. *)
Definition nothing_at (fs : FS.t) (dir : FS.path) : Prop :=
  forall q, dir `prefix_of` q -> fs !! q = None.

(** The folder names of the two variants. *)
Definition main_folder_name (now : datetime) (job : Main.JobInput) : str :=
  strftime_stamp now ++ [UNDERSCORE] ++ Main.sanitize_part (Main.company job)
  ++ [UNDERSCORE] ++ Main.sanitize_part (Main.title job).

Definition app_folder_name (now : datetime) (job : App.JobInput) : str :=
  App.sanitize_part (App.company job) (lit "company") ++ [UNDERSCORE]
  ++ App.sanitize_part (App.title job) (lit "title") ++ [UNDERSCORE]
  ++ strftime_stamp now.

(** What [datetime.now()] can be, for a year of four digits. *)
Definition valid_datetime (d : datetime) : Prop :=
  (1000 <= year d <= 9999)%N /\ (1 <= month d <= 12)%N /\ (1 <= day d <= 31)%N
  /\ (hour d <= 23)%N /\ (minute d <= 59)%N /\ (second d <= 59)%N.

(** The shape YYYYMMDD_HHMMSS. *)
Definition is_stamp (s : str) : bool :=
  match s with
  | [y1; y2; y3; y4; m1; m2; d1; d2; u; h1; h2; n1; n2; s1; s2] =>
      forallb isdigit [y1; y2; y3; y4; m1; m2; d1; d2; h1; h2; n1; n2; s1; s2]
      && (u =? UNDERSCORE)%N
  | _ => false
  end.

(** ** Fit labels and the local estimate *)

(** The labels, and their order as buckets. *)
Definition STRONG : str := lit "Strong fit".
Definition GOOD : str := lit "Good fit".
Definition MODERATE : str := lit "Moderate fit".
Definition LOW : str := lit "Low fit".
Definition WEAK : str := lit "Weak fit".

Definition bucket_rank (label : str) : nat :=
  if str_eqb label STRONG then 3
  else if str_eqb label GOOD then 2
  else if str_eqb label MODERATE then 1
  else 0.

(** The levels for which the estimate adds the seniority bonus. *)
Definition is_senior_level (h : App.SeniorityHint) : bool :=
  match h with
  | App.senior | App.lead | App.director | App.executive => true
  | App.junior | App.intermediate => false
  end.

(** The two bonuses of the estimate and the clamp. *)
Definition seniority_bonus (job : App.JobInput) : Q :=
  match App.seniority_hint job with
  | Some h => if is_senior_level h then 5 else 0
  | None => 0
  end.

Definition length_bonus (job : App.JobInput) : Q :=
  if 1500 <? length (App.job_description job) then 5 else 0.

Definition clamp (lo hi x : Q) : Q := Qmax lo (Qmin hi x).

(** The form with another seniority hint. *)
Definition with_hint (form : App.SubmitForm) (hint : str) : App.SubmitForm :=
  {| App.f_resume_text := App.f_resume_text form;
     App.f_company := App.f_company form;
     App.f_title := App.f_title form;
     App.f_location := App.f_location form;
     App.f_job_description := App.f_job_description form;
     App.f_seniority_hint := hint |}.


(** The text can be written as UTF-8. *)
Definition encodable (s : str) : bool := negb (existsb FS.is_surrogate s).

(** The metadata record that [process_job] writes. *)
Definition main_meta (host_root : str) (now : datetime) (job : Main.JobInput)
    (fit : Q) (reasoning : str) : json :=
  let name := main_folder_name now job in
  JObj
    [ (lit "company", JStr (Main.company job));
      (lit "title", JStr (Main.title job));
      (lit "location", Main.json_opt (Main.location job));
      (lit "seniority_hint", Main.json_opt (Main.seniority_hint job));
      (lit "fit_score", JNum fit);
      (lit "fit_label", JStr (Main.map_score_to_label fit));
      (lit "reasoning", JStr reasoning);
      (lit "container_folder", JStr (Main.path_str (Main.OUTPUT_ROOT ++ [name])));
      (lit "host_folder",
       Main.json_opt (match host_root with
                      | [] => None
                      | _ :: _ => Some (host_root ++ [47%N] ++ name)
                      end)) ].

(** The metadata record that [generate_full_package] writes. *)
Definition app_meta (now : datetime) (job : App.JobInput) : json :=
  JObj
    [ (lit "company", JStr (App.company job));
      (lit "title", JStr (App.title job));
      (lit "location", match App.location job with Some l => JStr l | None => JNull end);
      (lit "seniority_hint",
       match App.seniority_hint job with
       | Some h => JStr (App.hint_value h)
       | None => JNull
       end);
      (lit "fit_score", JNum (App.estimate_fit_score job));
      (lit "fit_label", JStr (App.label_fit (App.estimate_fit_score job)));
      (lit "folder_name", JStr (app_folder_name now job));
      (lit "created_at", JStr (strftime_stamp now)) ].

(** ** Concrete inputs *)

Definition acme_job : Main.JobInput :=
  {| Main.resume_text := lit "Jane Doe, engineer";
     Main.company := lit "Acme Corp";
     Main.title := lit "Staff Engineer";
     Main.location := None;
     Main.job_description := lit "Build things";
     Main.seniority_hint := None |}.

(** A response in the tagged format with the fit score 88. *)
Definition acme_response : str :=
  lit "FIT_SCORE: 88" ++ [NL]
  ++ lit "REASONING:" ++ [NL] ++ lit "Strong match." ++ [NL]
  ++ lit "COVER_LETTER:" ++ [NL] ++ lit "Dear team" ++ [NL] ++ lit "END_COVER_LETTER" ++ [NL]
  ++ lit "RESUME:" ++ [NL] ++ lit "Jane Doe" ++ [NL] ++ lit "END_RESUME" ++ [NL]
  ++ lit "SHORT_ANSWERS:" ++ [NL] ++ lit "1) a" ++ [NL] ++ lit "2) b" ++ [NL]
  ++ lit "3) c" ++ [NL] ++ lit "END_SHORT_ANSWERS".

(** A response in the tagged format whose reasoning is a placeholder line. *)
Definition placeholder_response : str :=
  tagged_blob [] [] (lit "..." ++ [NL]) (lit "Dear team" ++ [NL]) []
    (lit "Jane Doe" ++ [NL]) [] (lit "1) a" ++ [NL]) [].

Definition plain_response : str :=
  tagged_blob [] [] (lit "Strong match." ++ [NL]) (lit "Dear team" ++ [NL]) []
    (lit "Jane Doe" ++ [NL]) [] (lit "1) a" ++ [NL]) [].

Definition jan_2nd : datetime :=
  {| year := 2024; month := 1; day := 2; hour := 3; minute := 4; second := 5 |}.

(** A file system that holds the output root of [main.py] and nothing else. *)
Definition root_only : FS.t :=
  <[Main.OUTPUT_ROOT := FS.Dir]> (<[[lit "app"] := FS.Dir]> ∅).

Definition acme_run : result Main.PackageOutput * FS.t :=
  Main.process_job (lit "./job-packages") [] (fun _ => lit "{}")
    (fun _ _ => Ok acme_response) jan_2nd acme_job root_only.

Definition acme_package : Main.PackageOutput :=
  {| Main.fit_score := 88;
     Main.fit_label := lit "Strong fit";
     Main.reasoning := lit "Strong match.";
     Main.cover_letter := lit "Dear team";
     Main.resume := lit "Jane Doe";
     Main.short_answers := [lit "a"; lit "b"; lit "c"];
     Main.container_folder := lit "/app/output/20240102_030405_Acme_Corp_Staff_Engineer";
     Main.host_folder := Some (lit "./job-packages/20240102_030405_Acme_Corp_Staff_Engineer") |}.

(** A stand-in for [json.load] that reads the two texts used below. *)
Definition tiny_json_load (s : str) : option json :=
  if str_eqb s (lit "[]") then Some (JArr [])
  else if str_eqb s (lit "{}") then Some (JObj [])
  else None.

Definition acme_folder : FS.path :=
  Main.OUTPUT_ROOT ++ [lit "20240102_030405_Acme_Corp_Staff_Engineer"].

(** The output root with one folder whose metadata file holds [meta]. *)
Definition one_folder (meta : str) : FS.t :=
  <[acme_folder ++ [lit "meta.json"] := FS.File meta]>
    (<[acme_folder := FS.Dir]> root_only).

(** The output root with a folder that has a metadata record and a folder
    that has none. *)
Definition two_folders : FS.t :=
  <[Main.OUTPUT_ROOT ++ [lit "20240102_030406_Other_Role"] := FS.Dir]> (one_folder (lit "{}")).

Definition senior_manager_form : App.SubmitForm :=
  {| App.f_resume_text := lit "Jane Doe, engineer";
     App.f_company := lit "Acme Corp";
     App.f_title := lit "Staff Engineer";
     App.f_location := [];
     App.f_job_description := lit "Build things";
     App.f_seniority_hint := lit "Senior Manager" |}.

(** ** Notions used in the further properties of the code *)

(** No run of three newlines from here on, after a run of [k]. *)
Fixpoint nl_runs_ok (k : nat) (s : str) : bool :=
  match s with
  | [] => true
  | c :: t => if (c =? NL)%N then (S k <? 3) && nl_runs_ok (S k) t
              else nl_runs_ok 0 t
  end.

(** The newline is the only line boundary in the text. *)
Definition newline_only (s : str) : Prop :=
  Forall (fun c => is_linebreak c = true -> c = NL) s.

(** No line boundary at all: the text is a single line. *)
Definition single_line (s : str) : Prop :=
  Forall (fun c => is_linebreak c = false) s.

(** The characters that start an escape, a fence or a link. *)
Definition is_markup_char (c : char) : bool :=
  (c =? BACKSLASH)%N || (c =? BACKTICK)%N || (c =? 91)%N.

(** Letters and digits with single underscores between them; [after_sep]
    says that an underscore (or the start of the name) comes just before. *)
Fixpoint sep_ok (after_sep : bool) (s : str) : bool :=
  match s with
  | [] => true
  | c :: t => if Main.is_alnum c then sep_ok false t
              else (c =? UNDERSCORE)%N && negb after_sep && sep_ok true t
  end.

(** The row that [get_recent_jobs] builds from the members of a metadata
    record. *)
Definition summary_of (entry : FS.path) (meta : list (str * json)) : Main.JobSummary :=
  {| Main.js_folder := Main.path_str entry;
     Main.js_host_folder := dict_get meta (lit "host_folder") (JStr []);
     Main.js_company := dict_get meta (lit "company") (JStr []);
     Main.js_title := dict_get meta (lit "title") (JStr []);
     Main.js_location := dict_get meta (lit "location") (JStr []);
     Main.js_fit_score := dict_get meta (lit "fit_score") (JStr []);
     Main.js_fit_label := dict_get meta (lit "fit_label") (JStr []) |}.

(** The row of the entry [name] of the output root, when it has one: the
    entry is a directory and its meta.json is a file that parses to an
    object. *)
Definition row_of (json_load : str -> option json) (fs : FS.t) (name : str)
  : option Main.JobSummary :=
  let entry := Main.OUTPUT_ROOT ++ [name] in
  if FS.is_dir fs entry then
    match FS.node_at fs (entry ++ [lit "meta.json"]) with
    | Some (FS.File content) =>
        match json_load content with
        | Some (JObj meta) => Some (summary_of entry meta)
        | _ => None
        end
    | _ => None
    end
  else None.

(** The entry [name] is a directory whose meta.json parses to something
    that is not an object. *)
Definition bad_meta (json_load : str -> option json) (fs : FS.t) (name : str) : bool :=
  let entry := Main.OUTPUT_ROOT ++ [name] in
  FS.is_dir fs entry &&
  match FS.node_at fs (entry ++ [lit "meta.json"]) with
  | Some (FS.File content) =>
      match json_load content with
      | Some (JObj _) | None => false
      | Some _ => true
      end
  | _ => false
  end.

(** The order of the listing: [a] does not come before [b]. *)
Definition name_ge (a b : str) : Prop := FS.str_ltb a b = false.

(** An operation keeps an invariant of the file system, whether it
    returns or raises. *)
Definition keeps {A : Type} (I : FS.t -> Prop) (m : M FS.t A) : Prop :=
  forall s r s', I s -> m s = (r, s') -> I s'.

(** What one entry adds to the total size that [get_output_stats] sums up
    over the files below [root]. *)
Definition bytes_step (root : FS.path) (q : FS.path) (nd : FS.node) (acc : nat) : nat :=
  match nd with
  | FS.File content => if App.is_below root q then utf8_len content + acc else acc
  | FS.Dir => acc
  end.

(** The errors recorded one after the other, the oldest first. *)
Definition record_all (log : list (str * exn)) (buffer : list (str * str))
  : list (str * str) :=
  fold_left (fun b te => App.record_error te.1 te.2 b) log buffer.

(** ** Further concrete inputs *)

Definition acme_app_job : App.JobInput :=
  {| App.resume_text := lit "Jane Doe, engineer";
     App.company := lit "Acme Corp";
     App.title := lit "Staff Engineer";
     App.location := None;
     App.job_description := lit "Build things";
     App.seniority_hint := Some App.senior |}.

(** A file system that holds the output root of [app/services] only. *)
Definition packages_root : FS.t := <[App.OUTPUT_ROOT := FS.Dir]> ∅.

Definition acme_app_folder : FS.path :=
  App.OUTPUT_ROOT ++ [lit "acme_corp_staff_engineer_20240102_030405"].

(** A model server that answers every prompt with the same text, and one
    that is down. *)
Definition echo_chat (prompt : str) : result str := Ok (lit "Text.").
Definition down_chat (prompt : str) : result str := Raise (RuntimeError (lit "down")).

Definition acme_app_run : result App.PackageInfo * FS.t :=
  App.generate_full_package [] [] [] App.hint_value (fun _ => lit "{}") echo_chat
    jan_2nd acme_app_job packages_root.

Definition acme_app_info : App.PackageInfo :=
  {| App.job_dir := lit "job-packages/acme_corp_staff_engineer_20240102_030405";
     App.fit_score := 75;
     App.fit_label := lit "Good fit";
     App.folder_name := lit "acme_corp_staff_engineer_20240102_030405" |}.

(** The body of the request that [call_ollama] posts, and the payload
    that [ollama_chat] posts. *)
Definition chat_request (model system_prompt user_prompt : str) : json :=
  JObj
    [ (lit "model", JStr model);
      (lit "messages",
       JArr [ JObj [ (lit "role", JStr (lit "system")); (lit "content", JStr system_prompt) ];
              JObj [ (lit "role", JStr (lit "user")); (lit "content", JStr user_prompt) ] ]);
      (lit "stream", JBool false) ].

Definition generate_request (model prompt : str) : json :=
  JObj [ (lit "model", JStr model); (lit "prompt", JStr prompt); (lit "stream", JBool false) ].

Section Service.
Variable RESUME_PROMPT COVER_PROMPT ANSWERS_PROMPT : list str.
Variable format_hint : App.SeniorityHint -> str.
Variable json_dumps : json -> str.
Variable ollama_chat : str -> result str.

(** The submissions handled one after the other, each with the time of
    its clock readings: the responses, and the file system and the error
    buffer at the end. *)
Fixpoint serve (requests : list (datetime * str * App.SubmitForm)) (fs : FS.t)
    (buffer : list (str * str))
  : list (result App.Response) * FS.t * list (str * str) :=
  match requests with
  | [] => ([], fs, buffer)
  | (now, err_time, form) :: rest =>
      let '(r, fs1, buffer1) :=
        App.submit RESUME_PROMPT COVER_PROMPT ANSWERS_PROMPT format_hint json_dumps
          ollama_chat now err_time form fs buffer in
      let '(rs, fs2, buffer2) := serve rest fs1 buffer1 in
      (r :: rs, fs2, buffer2)
  end.

End Service.

(** A response was rendered, with the status 200 or 500. *)
Definition rendered (r : result App.Response) : Prop :=
  exists resp, r = Ok resp /\ (App.status_code resp = 200 \/ App.status_code resp = 500).

(** * Lemmas on the string primitives *)

Lemma startswith_nil (s : str) : startswith s [] = true.
Proof. destruct s; reflexivity. Qed.

Lemma startswith_iff (s p : str) : startswith s p = true <-> exists r, s = p ++ r.
Proof.
  revert s. induction p as [|a p IH]; intros s.
  - rewrite startswith_nil. split; [eauto|done].
  - destruct s as [|b s]; simpl.
    + split; [done|]. intros [r Hr]. discriminate.
    + rewrite andb_true_iff, N.eqb_eq, IH. split.
      * intros [-> [r ->]]. eauto.
      * intros [r Hr]. injection Hr as -> ->. eauto.
Qed.

Lemma startswith_app (p r : str) : startswith (p ++ r) p = true.
Proof. apply startswith_iff. eauto. Qed.

Lemma startswith_app_l (l p r : str) :
  startswith l p = true -> startswith (l ++ r) p = true.
Proof.
  rewrite !startswith_iff. intros [x ->]. exists (x ++ r). by rewrite app_assoc.
Qed.

Lemma find_Some (sub s : str) (i : nat) :
  find sub s = Some i ->
  exists pre post, s = pre ++ sub ++ post /\ length pre = i.
Proof.
  revert i. induction s as [|c s IH]; intros i; cbn [find].
  - destruct (startswith [] sub) eqn:E; [|done].
    intros [= <-]. apply startswith_iff in E as [r ->]. by exists [], r.
  - destruct (startswith (c :: s) sub) eqn:E.
    + intros [= <-]. apply startswith_iff in E as [r ->]. by exists [], r.
    + destruct (find sub s) as [j|]; [|done]. simpl. intros [= <-].
      destruct (IH j eq_refl) as (pre & post & -> & <-).
      by exists (c :: pre), post.
Qed.

Lemma find_None (sub s : str) : find sub s = None <-> ~ occurs sub s.
Proof.
  induction s as [|c s IH]; cbn [find].
  - destruct (startswith [] sub) eqn:E.
    + split; [done|]. intros H. exfalso. apply H.
      apply startswith_iff in E as [r E]. by exists [], r.
    + split; [|done]. intros _ (pre & post & H).
      symmetry in H. apply app_eq_nil in H as [-> H].
      apply not_true_iff_false in E. apply E, startswith_iff. exists post. done.
  - destruct (startswith (c :: s) sub) eqn:E.
    + split; [done|]. intros H. exfalso. apply H.
      apply startswith_iff in E as [r E]. by exists [], r.
    + apply not_true_iff_false in E. rewrite startswith_iff in E.
      destruct (find sub s) as [j|]; simpl.
      * split; [done|]. intros H. exfalso.
        assert (Hs : ~ occurs sub s) by (intros (pre & post & ->); apply H;
          by exists (c :: pre), post).
        apply IH in Hs. done.
      * split; [|done]. intros _ (pre & post & H).
        destruct pre as [|x pre]; simpl in H.
        -- apply E. eauto.
        -- injection H as -> ->. destruct IH as [IH _].
           apply IH; [done|]. by exists pre, post.
Qed.

Lemma occurs_app_r (sub x s : str) : occurs (sub ++ x) s -> occurs sub s.
Proof.
  intros (pre & post & ->). exists pre, (x ++ post). by rewrite <- app_assoc.
Qed.

Lemma lstrip_split (s : str) :
  exists ws, s = ws ++ lstrip s /\ Forall (fun c => isspace c = true) ws.
Proof.
  induction s as [|c s (ws & IH & Hws)]; simpl.
  - by exists [].
  - destruct (isspace c) eqn:E.
    + exists (c :: ws). split; [simpl; congruence | by constructor].
    + by exists [].
Qed.

Lemma lstrip_spaces (ws s : str) :
  Forall (fun c => isspace c = true) ws -> lstrip (ws ++ s) = lstrip s.
Proof. induction 1 as [|c ws Hc _ IH]; simpl; [done|]. by rewrite Hc. Qed.

Lemma lstrip_head (c : char) (s : str) : isspace c = false -> lstrip (c :: s) = c :: s.
Proof. simpl. by intros ->. Qed.

Lemma span_head (P : char -> bool) (s : str) (c : char) (a b : str) :
  span P s = (c :: a, b) -> exists t, s = c :: t /\ P c = true.
Proof.
  destruct s as [|d t]; simpl; [done|].
  destruct (P d) eqn:E; [|done]. destruct (span P t). intros [= -> _ _]. eauto.
Qed.

Lemma span_cons_true (P : char -> bool) (c : char) (t : str) :
  P c = true -> exists a b, span P (c :: t) = (c :: a, b).
Proof. simpl. intros ->. destruct (span P t) as [a b]. eauto. Qed.

Ltac bool_N :=
  unfold Main.is_alnum, Main.is_underscore, Main.is_enum_punct in *;
  unfold isspace, isdigit, is_lower_az, is_upper_AZ, is_linebreak in *;
  unfold in_range, UNDERSCORE, NL, CR, TAB in *;
  repeat match goal with
         | H : _ = false |- _ => apply not_true_iff_false in H
         | |- _ = false => apply not_true_iff_false; intro
         end;
  rewrite ?orb_true_iff, ?andb_true_iff, ?negb_true_iff, ?N.leb_le, ?N.eqb_eq in *;
  try lia.

Lemma digit_not_space (d : char) : isdigit d = true -> isspace d = false.
Proof. intros H. bool_N. Qed.

(** ** The decimal printer and the timestamp *)

Lemma digits_go_S (fuel n : nat) (acc : str) :
  digits_go (S fuel) n acc
  = match n / 10 with
    | O => N.of_nat (48 + n mod 10) :: acc
    | S _ as m => digits_go fuel m (N.of_nat (48 + n mod 10) :: acc)
    end.
Proof. reflexivity. Qed.

Lemma digit_char (m : nat) : isdigit (N.of_nat (48 + m mod 10)) = true.
Proof.
  unfold isdigit, in_range. rewrite andb_true_iff, !N.leb_le.
  assert (m mod 10 < 10) by lia. lia.
Qed.

Lemma str_of_nat_1 (n : nat) :
  n < 10 -> exists a, str_of_nat n = [a] /\ isdigit a = true.
Proof.
  intros H. unfold str_of_nat. rewrite digits_go_S.
  replace (n / 10) with 0 by lia. eauto using digit_char.
Qed.

Lemma str_of_nat_2 (n : nat) :
  10 <= n < 100 ->
  exists a b, str_of_nat n = [a; b] /\ isdigit a = true /\ isdigit b = true.
Proof.
  intros H. unfold str_of_nat.
  replace (S n) with (S (S (n - 1))) by lia. rewrite digits_go_S.
  destruct (n / 10) as [|q] eqn:E; [exfalso; lia|]. rewrite <- E.
  rewrite digits_go_S. replace (n / 10 / 10) with 0 by lia.
  eauto 6 using digit_char.
Qed.

Lemma str_of_nat_4 (n : nat) :
  1000 <= n < 10 * 1000 ->
  exists a b c d, str_of_nat n = [a; b; c; d]
    /\ isdigit a = true /\ isdigit b = true /\ isdigit c = true /\ isdigit d = true.
Proof.
  intros H. unfold str_of_nat.
  replace (S n) with (S (S (S (S (n - 3))))) by lia. rewrite digits_go_S.
  destruct (n / 10) as [|q] eqn:E; [exfalso; lia|]. rewrite <- E.
  rewrite digits_go_S.
  destruct (n / 10 / 10) as [|q2] eqn:E2; [exfalso; lia|]. rewrite <- E2.
  rewrite digits_go_S.
  destruct (n / 10 / 10 / 10) as [|q3] eqn:E3; [exfalso; lia|]. rewrite <- E3.
  rewrite digits_go_S. replace (n / 10 / 10 / 10 / 10) with 0 by lia.
  eauto 10 using digit_char.
Qed.

Lemma pad2_2 (n : nat) :
  n < 100 -> exists a b, pad2 n = [a; b] /\ isdigit a = true /\ isdigit b = true.
Proof.
  intros H. unfold pad2. destruct (n <? 10) eqn:E.
  - apply Nat.ltb_lt in E. destruct (str_of_nat_1 n E) as (a & -> & Ha).
    exists 48%N, a. done.
  - apply Nat.ltb_ge in E. apply str_of_nat_2. lia.
Qed.

Lemma strftime_stamp_shape (d : datetime) :
  valid_datetime d -> is_stamp (strftime_stamp d) = true.
Proof.
  intros (Hy & Hm & Hd & Hh & Hn & Hs). unfold strftime_stamp.
  destruct (str_of_nat_4 (N.to_nat (year d))) as (y1 & y2 & y3 & y4 & -> & ? & ? & ? & ?);
    [lia|].
  destruct (pad2_2 (N.to_nat (month d))) as (m1 & m2 & -> & ? & ?); [lia|].
  destruct (pad2_2 (N.to_nat (day d))) as (d1 & d2 & -> & ? & ?); [lia|].
  destruct (pad2_2 (N.to_nat (hour d))) as (h1 & h2 & -> & ? & ?); [lia|].
  destruct (pad2_2 (N.to_nat (minute d))) as (n1 & n2 & -> & ? & ?); [lia|].
  destruct (pad2_2 (N.to_nat (second d))) as (s1 & s2 & -> & ? & ?); [lia|].
  cbn [app is_stamp forallb].
  repeat match goal with H : isdigit _ = true |- _ => rewrite H; clear H end.
  reflexivity.
Qed.

Lemma digits_go_fuel (f1 f2 n : nat) (acc : str) :
  n < f1 -> n < f2 -> digits_go f1 n acc = digits_go f2 n acc.
Proof.
  revert f2 n acc. induction f1 as [|f1 IH]; intros f2 n acc H1 H2; [lia|].
  destruct f2 as [|f2]; [lia|]. rewrite !digits_go_S.
  destruct (n / 10) as [|q] eqn:E; [done|]. rewrite <- E. apply IH; lia.
Qed.

(** ** Searching across literal and free pieces of a text *)

Lemma startswith_length (s p : str) : startswith s p = true -> length p <= length s.
Proof. intros [r ->]%startswith_iff. rewrite length_app. lia. Qed.

Lemma startswith_app_compat (sub a r : str) :
  startswith (a ++ r) sub = true -> compat sub a = true.
Proof.
  unfold compat. revert sub. induction a as [|c a IH]; intros sub H.
  - by rewrite startswith_nil.
  - destruct sub as [|d sub]; [by rewrite startswith_nil, orb_true_r|].
    simpl in H. apply andb_true_iff in H as [Hd H]. apply N.eqb_eq in Hd. subst d.
    simpl. rewrite N.eqb_refl. simpl. by apply IH.
Qed.

Lemma startswith_app_split (g x sub : str) :
  startswith (g ++ x) sub = true ->
  startswith g sub = true \/
  (length g < length sub /\ startswith x (drop (length g) sub) = true).
Proof.
  revert sub. induction g as [|c g IH]; intros sub H.
  - destruct sub as [|d sub]; [left; apply startswith_nil|]. right. simpl. split; [lia | done].
  - destruct sub as [|d sub]; [by left|].
    simpl in H. apply andb_true_iff in H as [Hd H].
    destruct (IH _ H) as [Hg|[Hl Hx]].
    + left. simpl. by rewrite Hd, Hg.
    + right. simpl. split; [lia | done].
Qed.

Lemma contains_false (sub s : str) : contains sub s = false <-> find sub s = None.
Proof. unfold contains. destruct (find sub s); split; done. Qed.

Lemma find_cons_None (sub : str) (c : char) (s : str) :
  find sub (c :: s) = None -> startswith (c :: s) sub = false /\ find sub s = None.
Proof.
  cbn [find]. destruct (startswith (c :: s) sub); [done|].
  destruct (find sub s); [done|]. done.
Qed.

Lemma find_hit (sub l r : str) : startswith l sub = true -> find sub (l ++ r) = Some 0.
Proof.
  intros H. apply (startswith_app_l _ _ r) in H.
  destruct (l ++ r); cbn [find]; by rewrite H.
Qed.

Lemma find_skip_lit (sub l r : str) :
  clear_of sub l = true -> find sub (l ++ r) = Nat.add (length l) <$> find sub r.
Proof.
  induction l as [|c l IH]; intros H.
  - simpl. by destruct (find sub r).
  - cbn [clear_of] in H. apply andb_true_iff in H as [Hc H].
    change ((c :: l) ++ r) with (c :: (l ++ r)). cbn [find].
    destruct (startswith (c :: l ++ r) sub) eqn:E.
    + apply (startswith_app_compat sub (c :: l) r) in E. by rewrite E in Hc.
    + rewrite (IH H). by destruct (find sub r).
Qed.

Lemma find_skip_seg (sub g l r : str) :
  contains sub g = false -> no_straddle sub l = true ->
  find sub (g ++ l ++ r) = Nat.add (length g) <$> find sub (l ++ r).
Proof.
  intros Hg Hl. apply contains_false in Hg.
  induction g as [|c g IH].
  - simpl. by destruct (find sub (l ++ r)).
  - apply find_cons_None in Hg as [Hc Hg].
    change ((c :: g) ++ l ++ r) with (c :: (g ++ l ++ r)). cbn [find].
    destruct (startswith (c :: g ++ l ++ r) sub) eqn:E.
    + exfalso.
      apply (startswith_app_split (c :: g) (l ++ r) sub) in E as [E|[Hlen E]];
        [by rewrite E in Hc|].
      apply startswith_app_compat in E.
      unfold no_straddle in Hl. rewrite forallb_forall in Hl.
      specialize (Hl (length (c :: g))).
      rewrite E in Hl. assert (false = true); [|done].
      apply Hl. apply in_seq. simpl in *. lia.
    + rewrite (IH Hg). by destruct (find sub (l ++ r)).
Qed.

Lemma contains_app_false (sub x s : str) :
  contains sub s = false -> contains (sub ++ x) s = false.
Proof.
  rewrite !contains_false, !find_None. intros H Ho. by apply H, (occurs_app_r _ x).
Qed.

Lemma tag_free_elim (s tag : str) :
  tag_free s = true -> In tag TAGS -> contains tag s = false.
Proof.
  unfold tag_free. rewrite forallb_forall. intros H Hin.
  apply H in Hin. by apply negb_true_iff in Hin.
Qed.

Lemma fit_score_at_None (s : str) :
  startswith s (lit "FIT_SCORE:") = false -> Main.fit_score_at s = None.
Proof. unfold Main.fit_score_at. by intros ->. Qed.

Lemma fit_search_skip_seg (g l r : str) :
  contains (lit "FIT_SCORE:") g = false -> no_straddle (lit "FIT_SCORE:") l = true ->
  Main.fit_score_search (g ++ l ++ r) = Main.fit_score_search (l ++ r).
Proof.
  intros Hg Hl. apply contains_false in Hg.
  induction g as [|c g IH]; [done|].
  apply find_cons_None in Hg as [Hc Hg].
  change ((c :: g) ++ l ++ r) with (c :: (g ++ l ++ r)). cbn [Main.fit_score_search].
  rewrite fit_score_at_None; [by apply IH|].
  destruct (startswith (c :: g ++ l ++ r) (lit "FIT_SCORE:")) eqn:E; [|done].
  exfalso.
  apply (startswith_app_split (c :: g) (l ++ r)) in E as [E|[Hlen E]];
    [by rewrite E in Hc|].
  apply startswith_app_compat in E.
  unfold no_straddle in Hl. rewrite forallb_forall in Hl.
  specialize (Hl (length (c :: g))).
  rewrite E in Hl. assert (false = true); [|done].
  apply Hl. apply in_seq. simpl in *. lia.
Qed.

Lemma drop_seg (a r : str) (n : nat) : drop (length a + n) (a ++ r) = drop n r.
Proof. induction a; simpl; [done|]. apply IHa. Qed.

Lemma extract_block_found (text st en : str) (i k : nat) :
  find st text = Some i ->
  find en (drop (i + length st) text) = Some k ->
  Main.extract_block text st en = strip (take k (drop (i + length st) text)).
Proof.
  intros H1 H2. unfold Main.extract_block, find_from, slice. rewrite H1.
  destruct (find_Some _ _ _ H1) as (pre & post & Htext & Hlen).
  assert ((length text <? i + length st) = false) as ->.
  { apply Nat.ltb_ge. rewrite Htext, !length_app. lia. }
  rewrite H2. simpl. by rewrite Nat.add_sub'.
Qed.

Lemma strip_cons_space (c : char) (s : str) : isspace c = true -> strip (c :: s) = strip s.
Proof. intros H. unfold strip. simpl. by rewrite H. Qed.

Lemma extract_section (text tag en body rest : str) (i : nat) :
  find (tag ++ [NL]) text = Some i ->
  find tag text = Some i ->
  drop (i + length (tag ++ [NL])) text = body ++ rest ->
  find en (body ++ rest) = Some (length body) ->
  head_is_not NL en = true ->
  match Main.extract_block text (tag ++ [NL]) en with
  | [] => Main.extract_block text tag en
  | _ :: _ => Main.extract_block text (tag ++ [NL]) en
  end = strip body.
Proof.
  intros H1 H2 Hdrop Hen Hhd.
  assert (E1 : Main.extract_block text (tag ++ [NL]) en = strip body).
  { rewrite (extract_block_found _ _ _ i (length body)); [|done|by rewrite Hdrop].
    by rewrite Hdrop, take_app_length. }
  rewrite E1. destruct (strip body) as [|c s] eqn:Hs; [|done].
  destruct (find_Some _ _ _ H1) as (pre & post & Htext & Hlen).
  assert (Hd : drop (i + length tag) text = NL :: body ++ rest).
  { rewrite Htext, <- Hlen in Hdrop |- *.
    rewrite drop_seg, drop_app_length in Hdrop.
    rewrite drop_seg, <- app_assoc, drop_app_length. simpl. by rewrite Hdrop. }
  rewrite (extract_block_found _ _ _ i (S (length body))); [|done|].
  - rewrite Hd. simpl. rewrite take_app_length.
    rewrite strip_cons_space by done. done.
  - rewrite Hd. cbn [find].
    assert (startswith (NL :: body ++ rest) en = false) as ->.
    { destruct en as [|e en]; [done|]. simpl in *.
      apply negb_true_iff in Hhd. by rewrite Hhd. }
    by rewrite Hen.
Qed.

Lemma startswith_app_take (g x sub : str) :
  startswith (g ++ x) sub = true -> length g < length sub ->
  take (length g) sub = g /\ startswith x (drop (length g) sub) = true.
Proof.
  revert sub. induction g as [|c g IH]; intros sub H Hlen.
  - by rewrite take_0, drop_0.
  - destruct sub as [|d sub]; [simpl in Hlen; lia|].
    simpl in H. apply andb_true_iff in H as [Hd H]. apply N.eqb_eq in Hd. subst d.
    destruct (IH _ H) as [Ht Hx]; [simpl in Hlen; lia|].
    simpl. by rewrite Ht.
Qed.

Lemma endswith_refl (g : str) : endswith g g = true.
Proof. unfold endswith. apply startswith_iff. exists []. by rewrite app_nil_r. Qed.

Lemma endswith_cons_false (c : char) (g x : str) :
  endswith (c :: g) x = false -> endswith g x = false.
Proof.
  unfold endswith. simpl. intros H.
  destruct (startswith (rev g) (rev x)) eqn:E; [|done].
  by rewrite (startswith_app_l _ _ [c] E) in H.
Qed.

(** The general form: a straddle at offset [j] is excluded either by what
    follows the segment or by how the segment ends. *)
Lemma find_skip_seg_gen (sub g l r : str) :
  contains sub g = false ->
  (forall j, 1 <= j < length sub ->
             compat (drop j sub) l = true -> endswith g (take j sub) = false) ->
  find sub (g ++ l ++ r) = Nat.add (length g) <$> find sub (l ++ r).
Proof.
  intros Hg Hl. apply contains_false in Hg.
  induction g as [|c g IH].
  - simpl. by destruct (find sub (l ++ r)).
  - apply find_cons_None in Hg as [Hc Hg].
    change ((c :: g) ++ l ++ r) with (c :: (g ++ l ++ r)). cbn [find].
    destruct (startswith (c :: g ++ l ++ r) sub) eqn:E.
    + exfalso.
      destruct (startswith_app_split (c :: g) (l ++ r) sub E) as [E'|[Hlen _]];
        [by rewrite E' in Hc|].
      destruct (startswith_app_take (c :: g) (l ++ r) sub E Hlen) as [Ht Hx].
      apply startswith_app_compat in Hx.
      specialize (Hl (length (c :: g))). rewrite Ht, endswith_refl in Hl.
      assert (true = false); [|done].
      apply Hl; [simpl in *; lia | done].
    + rewrite IH; [by destruct (find sub (l ++ r)) | done |].
      intros j Hj Hcompat. eapply endswith_cons_false. by apply Hl.
Qed.

Lemma find_end_resume (b3 r : str) :
  contains (lit "END_RESUME") b3 = false ->
  endswith b3 (lit "END_RESUM") = false ->
  find (lit "END_RESUME") (b3 ++ (lit "END_RESUME" ++ [NL]) ++ r)
  = Nat.add (length b3) <$> find (lit "END_RESUME") ((lit "END_RESUME" ++ [NL]) ++ r).
Proof.
  intros Hc He. apply find_skip_seg_gen; [done|].
  intros j Hj. change (length (lit "END_RESUME")) with 10 in Hj.
  assert (Hcases : j = 1 \/ j = 2 \/ j = 3 \/ j = 4 \/ j = 5 \/ j = 6 \/ j = 7 \/ j = 8 \/ j = 9)
    by lia.
  destruct Hcases as [->|[->|[->|[->|[->|[->|[->|[->| ->]]]]]]]];
    first [ intros _; exact He | vm_compute; discriminate ].
Qed.

(** * The tagged-output parser *)

Lemma fit_search_line (rest : str) :
  Main.fit_score_search ((lit "FIT_SCORE: 73" ++ [NL]) ++ rest) = Some ([55%N; 51%N], []).
Proof. reflexivity. Qed.

Ltac in_tags := unfold TAGS; cbn [In]; solve [repeat (first [left; reflexivity | right])].

Ltac tag_side :=
  first [ eapply tag_free_elim; [eassumption | in_tags]
        | apply contains_app_false; eapply tag_free_elim; [eassumption | in_tags] ].

Ltac side :=
  lazymatch goal with
  | |- contains _ _ = false => tag_side
  | |- _ => vm_compute; reflexivity
  end.

Ltac find_chain :=
  repeat first [ rewrite find_hit by side
               | rewrite find_skip_lit by side
               | rewrite find_skip_seg by side
               | rewrite find_end_resume by first [assumption | side] ];
  cbn [fmap option_fmap option_map];
  rewrite ?Nat.add_0_r.

Ltac drop_chain :=
  rewrite <- ?Nat.add_assoc; rewrite ?drop_seg;
  rewrite ?Nat.add_0_l; rewrite ?drop_app_length.

Ltac section_tac :=
  eapply extract_section;
  [ find_chain; reflexivity
  | find_chain; reflexivity
  | drop_chain; reflexivity
  | find_chain; reflexivity
  | vm_compute; reflexivity ].

Lemma parse_tagged_blob (pre g0 b1 b2 g1 b3 g2 b4 post : str) :
  tag_free pre = true -> tag_free g0 = true ->
  tag_free b1 = true -> tag_free b2 = true -> tag_free g1 = true ->
  tag_free b3 = true -> tag_free g2 = true -> tag_free b4 = true ->
  endswith b3 (lit "END_RESUM") = false ->
  Main.parse_model_output (tagged_blob pre g0 b1 b2 g1 b3 g2 b4 post)
  = Ok (73%Q,
        Main.clean_model_text (strip b1),
        Main.clean_model_text (strip b2),
        Main.clean_model_text (strip b3),
        Main.short_answers_of (Main.clean_model_text (strip b4))).
Proof.
  intros Hpre Hg0 Hb1 Hb2 Hg1 Hb3 Hg2 Hb4 Hend.
  unfold Main.parse_model_output, tagged_blob.
  rewrite fit_search_skip_seg by side.
  rewrite fit_search_line.
  change (Main.float_of_decimal [55%N; 51%N] []) with 73%Q.
  cbv zeta.
  match goal with
  | |- context [match Main.extract_block ?t (lit "REASONING:" ++ [NL]) ?e with
                | [] => ?x | _ :: _ => ?y end] =>
      replace (match Main.extract_block t (lit "REASONING:" ++ [NL]) e with
               | [] => x | _ :: _ => y end) with (strip b1)
        by (symmetry; section_tac)
  end.
  match goal with
  | |- context [match Main.extract_block ?t (lit "COVER_LETTER:" ++ [NL]) ?e with
                | [] => ?x | _ :: _ => ?y end] =>
      replace (match Main.extract_block t (lit "COVER_LETTER:" ++ [NL]) e with
               | [] => x | _ :: _ => y end) with (strip b2)
        by (symmetry; section_tac)
  end.
  match goal with
  | |- context [match Main.extract_block ?t (lit "RESUME:" ++ [NL]) ?e with
                | [] => ?x | _ :: _ => ?y end] =>
      replace (match Main.extract_block t (lit "RESUME:" ++ [NL]) e with
               | [] => x | _ :: _ => y end) with (strip b3)
        by (symmetry; section_tac)
  end.
  match goal with
  | |- context [match Main.extract_block ?t (lit "SHORT_ANSWERS:" ++ [NL]) ?e with
                | [] => ?x | _ :: _ => ?y end] =>
      replace (match Main.extract_block t (lit "SHORT_ANSWERS:" ++ [NL]) e with
               | [] => x | _ :: _ => y end) with (strip b4)
        by (symmetry; section_tac)
  end.
  reflexivity.
Qed.

Lemma extract_block_to_end (text st en : str) (i : nat) :
  find st text = Some i ->
  find en (drop (i + length st) text) = None ->
  Main.extract_block text st en = strip (drop (i + length st) text).
Proof.
  intros H1 H2. unfold Main.extract_block, find_from, slice. rewrite H1.
  destruct (find_Some _ _ _ H1) as (pre & post & Htext & Hlen).
  assert ((length text <? i + length st) = false) as ->.
  { apply Nat.ltb_ge. rewrite Htext, !length_app. lia. }
  rewrite H2. simpl. rewrite <- length_drop. by rewrite firstn_all.
Qed.

(** C1 (as amended).  For a response in the tagged format (the line
    "FIT_SCORE: 73" as the first fit-score match, then the REASONING:,
    COVER_LETTER:, RESUME: and SHORT_ANSWERS: blocks, every tag on its own
    line, no tag string inside the bodies or the text around them, the
    resume body not ending in "END_RESUM") [parse_model_output] returns the
    fit score 73 and, for each section, the body trimmed and then
    normalized; a field is non-empty exactly when that normalized body is.
    The extraction rule of a section: the text from the end of the first
    start tag to the first end tag after it, to the end of the text when
    there is no end tag, trimmed; the empty string when there is no start
    tag. *)
Theorem parse_tagged_blob_sections :
  (forall pre g0 b1 b2 g1 b3 g2 b4 post : str,
      tag_free pre = true -> tag_free g0 = true ->
      tag_free b1 = true -> tag_free b2 = true -> tag_free g1 = true ->
      tag_free b3 = true -> tag_free g2 = true -> tag_free b4 = true ->
      endswith b3 (lit "END_RESUM") = false ->
      Main.parse_model_output (tagged_blob pre g0 b1 b2 g1 b3 g2 b4 post)
      = Ok (73%Q,
            Main.clean_model_text (strip b1),
            Main.clean_model_text (strip b2),
            Main.clean_model_text (strip b3),
            Main.short_answers_of (Main.clean_model_text (strip b4)))) /\
  (forall (text st en : str) (i k : nat),
      find st text = Some i ->
      find en (drop (i + length st) text) = Some k ->
      Main.extract_block text st en = strip (take k (drop (i + length st) text))) /\
  (forall (text st en : str) (i : nat),
      find st text = Some i ->
      find en (drop (i + length st) text) = None ->
      Main.extract_block text st en = strip (drop (i + length st) text)) /\
  (forall text st en : str,
      find st text = None -> Main.extract_block text st en = []).
Proof.
  split; [exact parse_tagged_blob|].
  split; [exact extract_block_found|].
  split; [exact extract_block_to_end|].
  intros text st en H. unfold Main.extract_block. by rewrite H.
Qed.

Lemma parse_tagged_blob_sections_witness :
  Main.parse_model_output plain_response
  = Ok (73%Q,
        Main.clean_model_text (strip (lit "Strong match." ++ [NL])),
        Main.clean_model_text (strip (lit "Dear team" ++ [NL])),
        Main.clean_model_text (strip (lit "Jane Doe" ++ [NL])),
        Main.short_answers_of (Main.clean_model_text (strip (lit "1) a" ++ [NL])))).
Proof.
  apply (proj1 parse_tagged_blob_sections
           [] [] (lit "Strong match." ++ [NL]) (lit "Dear team" ++ [NL]) []
           (lit "Jane Doe" ++ [NL]) [] (lit "1) a" ++ [NL]) []);
    vm_compute; reflexivity.
Defined.

(** The claim as stated fails: the reasoning block has the non-empty body
    "...", a placeholder line that the normalizer drops, and the field
    comes back empty. *)
Lemma parse_placeholder_reasoning_is_empty :
  Main.parse_model_output placeholder_response
  = Ok (73%Q, [], lit "Dear team", lit "Jane Doe", [lit "a"; []; []])
  /\ Main.extract_block placeholder_response (lit "REASONING:" ++ [NL]) (lit "COVER_LETTER:")
     = lit "...".
Proof. split; vm_compute; reflexivity. Qed.

(** The fit score is that of the first match: a later line "FIT_SCORE: 73"
    does not count. *)
Lemma parse_takes_first_fit_score :
  Main.parse_model_output (lit "FIT_SCORE: 12" ++ [NL] ++ plain_response)
  = Ok (12%Q, lit "Strong match.", lit "Dear team", lit "Jane Doe", [lit "a"; []; []]).
Proof. vm_compute. reflexivity. Qed.

Lemma fit_score_at_iff (s : str) :
  is_Some (Main.fit_score_at s) <->
  exists ws d post,
    s = lit "FIT_SCORE:" ++ ws ++ d :: post
    /\ Forall (fun c => isspace c = true) ws /\ isdigit d = true.
Proof.
  unfold Main.fit_score_at. split.
  - destruct (startswith s (lit "FIT_SCORE:")) eqn:E; [|by intros [? ?]].
    apply startswith_iff in E as [r0 ->].
    change 10 with (length (lit "FIT_SCORE:")). rewrite drop_app_length.
    destruct (lstrip_split r0) as (ws & Hr & Hws).
    destruct (span isdigit (lstrip r0)) as [ds r1] eqn:Hspan.
    destruct ds as [|d ds]; [by intros [? ?]|]. intros _.
    apply span_head in Hspan as (t & Ht & Hd).
    exists ws, d, t. rewrite <- Ht. by rewrite <- Hr.
  - intros (ws & d & post & -> & Hws & Hd).
    rewrite startswith_app.
    change 10 with (length (lit "FIT_SCORE:")). rewrite drop_app_length.
    rewrite (lstrip_spaces _ _ Hws), (lstrip_head _ _ (digit_not_space _ Hd)).
    destruct (span_cons_true isdigit d post Hd) as (a & b & ->).
    destruct b as [|c b]; [eauto|].
    destruct c; try eauto. repeat (destruct p; try eauto).
    all: destruct (span isdigit b); eauto.
Qed.

Lemma fit_score_search_iff (s : str) :
  is_Some (Main.fit_score_search s) <->
  exists pre t, s = pre ++ t /\ is_Some (Main.fit_score_at t).
Proof.
  induction s as [|c s IH]; cbn [Main.fit_score_search].
  - destruct (Main.fit_score_at []) eqn:E.
    + split; [|eauto]. intros _. exists [], []. rewrite E. eauto.
    + split; [by intros [? ?]|]. intros (pre & t & H & Ht).
      symmetry in H. apply app_eq_nil in H as [-> ->]. by rewrite E in Ht.
  - destruct (Main.fit_score_at (c :: s)) eqn:E.
    + split; [|eauto]. intros _. exists [], (c :: s). rewrite E. eauto.
    + rewrite IH. split.
      * intros (pre & t & -> & Ht). by exists (c :: pre), t.
      * intros (pre & t & H & Ht). destruct pre as [|x pre]; simpl in H.
        -- subst t. rewrite E in Ht. by destruct Ht.
        -- injection H as -> ->. eauto.
Qed.

Lemma fit_score_search_has (raw : str) :
  is_Some (Main.fit_score_search raw) <-> has_fit_score raw.
Proof.
  rewrite fit_score_search_iff. unfold has_fit_score. split.
  - intros (pre & t & -> & Ht). apply fit_score_at_iff in Ht as (ws & d & post & -> & ? & ?).
    by exists pre, ws, d, post.
  - intros (pre & ws & d & post & -> & ? & ?).
    exists pre, (lit "FIT_SCORE:" ++ ws ++ d :: post). split; [done|].
    apply fit_score_at_iff. by exists ws, d, post.
Qed.

Lemma extract_block_absent (text start_tag end_tag : str) :
  ~ occurs start_tag text -> Main.extract_block text start_tag end_tag = [].
Proof. intros H. apply find_None in H. unfold Main.extract_block. by rewrite H. Qed.

Lemma extract_block_absent_nl (text tag end_tag : str) :
  ~ occurs tag text -> Main.extract_block text (tag ++ [NL]) end_tag = [].
Proof. intros H. apply extract_block_absent. intros Ho. by apply H, (occurs_app_r _ [NL]). Qed.

(** C2.  [parse_model_output] raises the missing-field error, with the
    first 300 characters of the text in its message, exactly when the text
    has no "FIT_SCORE:" followed by optional white space and a digit; that
    is its only error; with the pattern present it returns, and a section
    whose tag is absent gives the empty string (three empty answers for
    SHORT_ANSWERS:). *)
Theorem parse_fails_iff_no_fit_score (raw : str) :
  (Main.parse_model_output raw = Raise (missing_fit_score raw) <-> ~ has_fit_score raw) /\
  (forall e, Main.parse_model_output raw = Raise e -> e = missing_fit_score raw) /\
  (has_fit_score raw -> exists r, Main.parse_model_output raw = Ok r) /\
  (forall fit reasoning cover_letter resume short_answers,
      Main.parse_model_output raw = Ok (fit, reasoning, cover_letter, resume, short_answers) ->
      (~ occurs (lit "REASONING:") raw -> reasoning = []) /\
      (~ occurs (lit "COVER_LETTER:") raw -> cover_letter = []) /\
      (~ occurs (lit "RESUME:") raw -> resume = []) /\
      (~ occurs (lit "SHORT_ANSWERS:") raw -> short_answers = [[]; []; []])).
Proof.
  pose proof (fit_score_search_has raw) as Hhas.
  unfold Main.parse_model_output.
  destruct (Main.fit_score_search raw) as [[ds fs]|] eqn:E.
  - assert (Hf : has_fit_score raw) by (apply Hhas; eauto).
    split; [split; [discriminate | done]|].
    split; [discriminate|]. split; [eauto|].
    intros fit reasoning cover_letter resume short_answers [= <- <- <- <- <-].
    repeat split; intros Habs;
      rewrite (extract_block_absent_nl _ _ _ Habs), (extract_block_absent _ _ _ Habs);
      reflexivity.
  - assert (Hf : ~ has_fit_score raw).
    { intros Hf. apply Hhas in Hf. by destruct Hf. }
    split; [split; [done | reflexivity]|].
    split; [by intros e [= <-]|]. split; [done | discriminate].
Qed.

Lemma parse_fails_iff_no_fit_score_witness :
  exists r, Main.parse_model_output (lit "FIT_SCORE: 73") = Ok r.
Proof.
  apply (proj1 (proj2 (proj2 (parse_fails_iff_no_fit_score (lit "FIT_SCORE: 73"))))).
  exists [], [32%N], 55%N, [51%N].
  split; [reflexivity | split; [repeat constructor | reflexivity]].
Defined.

(** * Short answers *)

Lemma span_app_stop (P : char -> bool) (a r : str) :
  Forall (fun c => P c = true) a ->
  match r with [] => True | c :: _ => P c = false end ->
  span P (a ++ r) = (a, r).
Proof.
  intros Ha Hr. induction Ha as [|c a Hc _ IH]; simpl.
  - destruct r as [|c r]; [done|]. simpl. by rewrite Hr.
  - by rewrite Hc, IH.
Qed.

Lemma enum_punct_facts (c : char) :
  Main.is_enum_punct c = true -> isdigit c = false /\ isspace c = false.
Proof.
  intros H.
  assert (Hc : (c = 41 \/ c = 46 \/ c = 45 \/ c = 58)%N).
  { unfold Main.is_enum_punct in H. rewrite ?orb_true_iff, ?N.eqb_eq in H. tauto. }
  clear H. split; bool_N.
Qed.

Lemma space_not_digit (c : char) : isspace c = true -> isdigit c = false.
Proof. intros H. bool_N. Qed.

Lemma strip_enumerator_match (ds ws1 ws2 rest : str) (c : char) :
  ds <> [] ->
  Forall (fun d => isdigit d = true) ds ->
  Forall (fun w => isspace w = true) ws1 ->
  Main.is_enum_punct c = true ->
  Forall (fun w => isspace w = true) ws2 ->
  lstrip rest = rest ->
  Main.strip_enumerator (ds ++ ws1 ++ c :: ws2 ++ rest) = rest.
Proof.
  intros Hne Hds Hws1 Hc Hws2 Hrest. unfold Main.strip_enumerator.
  destruct (enum_punct_facts c Hc) as [Hcd Hcs].
  rewrite (span_app_stop isdigit ds); [|done|].
  - destruct ds as [|d ds]; [done|].
    rewrite (lstrip_spaces _ _ Hws1), (lstrip_head _ _ Hcs), Hc.
    by rewrite (lstrip_spaces _ _ Hws2).
  - destruct Hws1 as [|w ws1 Hw _]; simpl; [done | by apply space_not_digit].
Qed.

Lemma flat_map_answers (lines : list str) :
  flat_map (fun line =>
              match strip line with
              | [] => []
              | _ :: _ => [Main.strip_enumerator (strip line)]
              end) lines
  = List.map Main.strip_enumerator (List.filter nonempty (List.map strip lines)).
Proof.
  induction lines as [|l lines IH]; [done|].
  cbn [flat_map List.map List.filter]. rewrite IH.
  by destruct (strip l).
Qed.

(** C3 (as amended).  In [parse_model_output] the short answers are always
    exactly three strings: the stripped non-empty lines of the block, each
    without a leading enumerator (digits, optional white space, one of
    ") . - :", optional white space), cut to the first three and padded on
    the right with empty strings.  In [generate_short_answers] the answers
    are always exactly three strings as well, but they are the stripped
    non-empty pieces between blank lines, no enumerator is removed, and a
    list that is too short is padded by repeating its last answer. *)
Theorem short_answers_three :
  (forall block : str,
      length (Main.short_answers_of block) = 3 /\
      Main.short_answers_of block = take 3 (numbered_answers block ++ [[]; []; []])) /\
  (forall (ds ws1 ws2 rest : str) (c : char),
      ds <> [] ->
      Forall (fun d => isdigit d = true) ds ->
      Forall (fun w => isspace w = true) ws1 ->
      Main.is_enum_punct c = true ->
      Forall (fun w => isspace w = true) ws2 ->
      lstrip rest = rest ->
      Main.strip_enumerator (ds ++ ws1 ++ c :: ws2 ++ rest) = rest) /\
  (forall raw : str,
      length (App.short_answer_parts raw) = 3 /\
      App.short_answer_parts raw
      = take 3 (paragraphs raw ++ replicate 3 (List.last (paragraphs raw) []))).
Proof.
  split; [|split].
  - intros block. unfold Main.short_answers_of, numbered_answers. cbv zeta.
    rewrite flat_map_answers.
    destruct (List.map _ _) as [|a [|b [|c [|d l]]]]; split; reflexivity.
  - apply strip_enumerator_match.
  - intros raw. unfold App.short_answer_parts. fold nonempty. fold (paragraphs raw).
    destruct (paragraphs raw) as [|a [|b [|c l]]]; split; reflexivity.
Qed.

Lemma short_answers_three_witness :
  Main.strip_enumerator (lit "12 ) yes") = lit "yes".
Proof.
  apply (proj1 (proj2 short_answers_three) (lit "12") [32%N] [32%N] (lit "yes") 41%N);
    first [ discriminate | repeat constructor ].
Defined.

(** The claim as stated fails for the variant with one call per artifact:
    its single answer keeps the enumerator and is repeated. *)
Lemma short_answers_app_pads_with_last :
  App.short_answer_parts (lit "1) yes") <> short_answers_spec (lit "1) yes")
  /\ App.short_answer_parts (lit "1) yes") = [lit "1) yes"; lit "1) yes"; lit "1) yes"]
  /\ short_answers_spec (lit "1) yes") = [lit "yes"; []; []].
Proof. split; [vm_compute; discriminate | split; vm_compute; reflexivity]. Qed.

(** * The text normalizer *)

Section Replace2.
(** Replacing a two-character sequence [a b] by one character [x]. *)
Variables a b x : char.

Lemma replace2_hit (t : str) : replace_pair a b x (a :: b :: t) = x :: replace_pair a b x t.
Proof.
  unfold replace_pair. cbn [replace_go startswith length Nat.sub app].
  by rewrite !N.eqb_refl, startswith_nil.
Qed.

Lemma replace2_other (c : char) (t : str) : c <> a -> replace_pair a b x (c :: t) = c :: replace_pair a b x t.
Proof.
  intros Hc. unfold replace_pair. cbn [replace_go startswith].
  apply N.eqb_neq in Hc. rewrite N.eqb_sym in Hc. by rewrite Hc.
Qed.

Lemma replace2_miss (d : char) (t : str) : d <> b -> replace_pair a b x (a :: d :: t) = a :: replace_pair a b x (d :: t).
Proof.
  intros Hd. unfold replace_pair.
  change (replace_go [a; b] [x] 0 (a :: d :: t))
    with (if startswith (a :: d :: t) [a; b]
          then [x] ++ replace_go [a; b] [x] (length [a; b] - 1) (d :: t)
          else a :: replace_go [a; b] [x] 0 (d :: t)).
  cbn [startswith].
  apply N.eqb_neq in Hd. rewrite N.eqb_sym in Hd.
  by rewrite N.eqb_refl, Hd.
Qed.

Lemma replace2_last : replace_pair a b x [a] = [a].
Proof. unfold replace_pair. cbn [replace_go startswith]. by rewrite N.eqb_refl. Qed.

Lemma replace2_head (d : char) (t : str) :
  exists h w, replace_pair a b x (d :: t) = h :: w /\ (h = d \/ h = x).
Proof.
  destruct (N.eq_dec d a) as [->|Hd].
  - destruct t as [|e t].
    + rewrite replace2_last. eauto.
    + destruct (N.eq_dec e b) as [->|He].
      * rewrite replace2_hit. eauto.
      * rewrite replace2_miss by done. eauto.
  - rewrite replace2_other by done. eauto.
Qed.
End Replace2.

Lemma unescape_sequential (s : str) :
  replace [BACKSLASH; 116%N] [TAB]
    (replace [BACKSLASH; 114%N] [CR] (replace [BACKSLASH; 110%N] [NL] s))
  = unescape s.
Proof.
  change (replace_pair BACKSLASH 116 TAB
            (replace_pair BACKSLASH 114 CR (replace_pair BACKSLASH 110 NL s)) = unescape s).
  revert s. 
  enough (H : forall n s, length s = n ->
            replace_pair BACKSLASH 116 TAB
              (replace_pair BACKSLASH 114 CR (replace_pair BACKSLASH 110 NL s)) = unescape s)
    by (intros s; by apply (H (length s))).
  intros n s Hn. symmetry in Hn. revert s Hn.
  induction (lt_wf n) as [n _ IH]. intros s Hn.
  destruct s as [|c s']; [reflexivity|].
  cbn [unescape].
  destruct (N.eqb_spec c BACKSLASH) as [->|Hc].
  - destruct s' as [|d t].
    + by rewrite !replace2_last.
    + destruct (N.eqb_spec d 110) as [->|Hd1].
      { rewrite replace2_hit. rewrite (replace2_other _ _ _ NL) by done.
        rewrite (replace2_other _ _ _ NL) by done.
        f_equal. apply (IH (length t)); [simpl in Hn; lia | done]. }
      destruct (N.eqb_spec d 114) as [->|Hd2].
      { rewrite replace2_miss by done. rewrite (replace2_other _ _ _ 114%N) by done.
        rewrite replace2_hit. rewrite (replace2_other _ _ _ CR) by done.
        f_equal. apply (IH (length t)); [simpl in Hn; lia | done]. }
      destruct (N.eqb_spec d 116) as [->|Hd3].
      { rewrite replace2_miss by done. rewrite (replace2_other _ _ _ 116%N) by done.
        rewrite replace2_miss by done. rewrite (replace2_other _ _ _ 116%N) by done.
        rewrite replace2_hit.
        f_equal. apply (IH (length t)); [simpl in Hn; lia | done]. }
      rewrite replace2_miss by done.
      destruct (replace2_head BACKSLASH 110 NL d t) as (h & w & Hw & Hh).
      rewrite <- (IH (length (d :: t))) with (s := d :: t);
        [|simpl in *; lia | done].
      rewrite Hw.
      assert (h <> 114%N) by (destruct Hh as [->| ->]; done).
      rewrite replace2_miss by done.
      destruct (replace2_head BACKSLASH 114 CR h w) as (h' & w' & Hw' & Hh').
      rewrite Hw'.
      assert (h' <> 116%N) by (destruct Hh' as [->| ->]; [destruct Hh as [->| ->]|]; done).
      by rewrite replace2_miss by done.
  - rewrite !replace2_other by done. f_equal.
    apply (IH (length s')); [simpl in Hn; lia | done].
Qed.

(** C4 (as amended).  For every input, [clean_model_text] is the pipeline
    of the seven steps in order, with step 5 as the code has it: the text
    is split at every line boundary, the placeholder lines are dropped and
    the lines that remain are joined with one newline each.  Step 1 is the
    one-pass replacement of the three escape sequences.  The function is
    total, and the empty input gives the empty string. *)
Theorem clean_model_text_pipeline (text : str) :
  Main.clean_model_text text = normalize_amended text.
Proof.
  unfold Main.clean_model_text, normalize_amended.
  destruct text as [|c t]; [reflexivity|]. cbv zeta.
  rewrite unescape_sequential. reflexivity.
Qed.

(** The claim as stated fails: the carriage return that step 1 writes for
    backslash-r is a line boundary, and the code joins the two lines with
    a newline instead of leaving the text as it is.  In the same way a
    text with the line ends CR LF comes back with newlines, and its blank
    lines are then collapsed by step 6. *)
Lemma clean_model_text_rewrites_carriage_return :
  Main.clean_model_text (lit "a\rb") <> normalize_ref (lit "a\rb")
  /\ Main.clean_model_text (lit "a\rb") = [97%N; NL; 98%N]
  /\ normalize_ref (lit "a\rb") = [97%N; CR; 98%N]
  /\ Main.clean_model_text [97%N; CR; NL; CR; NL; CR; NL; 98%N] = [97%N; NL; NL; 98%N]
  /\ normalize_ref [97%N; CR; NL; CR; NL; CR; NL; 98%N]
     = [97%N; CR; NL; CR; NL; CR; NL; 98%N].
Proof.
  split; [vm_compute; discriminate|].
  repeat split; vm_compute; reflexivity.
Qed.

(** * Fit labels *)

Lemma Qle_bool_false (a b : Q) : Qle_bool a b = false <-> (b < a)%Q.
Proof.
  rewrite <- not_true_iff_false, Qle_bool_iff. split; [apply Qnot_le_lt | apply Qlt_not_le].
Qed.

Ltac q_cases :=
  repeat match goal with
         | |- context [Qle_bool ?a ?b] =>
             let E := fresh "E" in
             destruct (Qle_bool a b) eqn:E;
             [apply Qle_bool_iff in E | apply Qle_bool_false in E]
         end.

Lemma main_label_cases (s : Q) :
  ((85 <= s)%Q /\ Main.map_score_to_label s = STRONG) \/
  ((70 <= s)%Q /\ (s < 85)%Q /\ Main.map_score_to_label s = GOOD) \/
  ((55 <= s)%Q /\ (s < 70)%Q /\ Main.map_score_to_label s = MODERATE) \/
  ((s < 55)%Q /\ Main.map_score_to_label s = LOW).
Proof. unfold Main.map_score_to_label. q_cases; auto 10. Qed.

Lemma app_label_cases (s : Q) :
  ((85 <= s)%Q /\ App.label_fit s = STRONG) \/
  ((65 <= s)%Q /\ (s < 85)%Q /\ App.label_fit s = GOOD) \/
  ((s < 65)%Q /\ App.label_fit s = WEAK).
Proof. unfold App.label_fit. q_cases; auto 10. Qed.

(** C5.  Both label functions are total over the scores and monotone in
    the order of the buckets; they apply the threshold table from the top:
    85 for "Strong fit", 70 (65 in the estimating variant) for "Good fit",
    55 for "Moderate fit" (model-derived variant only), otherwise
    "Low fit" / "Weak fit"; the values at 90, 75, 60 and 0, and the scores
    outside 0..100, are as stated. *)
Theorem fit_label_total_monotone :
  (forall s : Q,
      Main.map_score_to_label s ∈ [STRONG; GOOD; MODERATE; LOW] /\
      App.label_fit s ∈ [STRONG; GOOD; WEAK]) /\
  (forall s : Q,
      ((85 <= s)%Q -> Main.map_score_to_label s = STRONG /\ App.label_fit s = STRONG) /\
      ((70 <= s)%Q -> (s < 85)%Q -> Main.map_score_to_label s = GOOD) /\
      ((65 <= s)%Q -> (s < 85)%Q -> App.label_fit s = GOOD) /\
      ((55 <= s)%Q -> (s < 70)%Q -> Main.map_score_to_label s = MODERATE) /\
      ((s < 55)%Q -> Main.map_score_to_label s = LOW) /\
      ((s < 65)%Q -> App.label_fit s = WEAK)) /\
  (forall s1 s2 : Q, (s1 <= s2)%Q ->
      bucket_rank (Main.map_score_to_label s1) <= bucket_rank (Main.map_score_to_label s2) /\
      bucket_rank (App.label_fit s1) <= bucket_rank (App.label_fit s2)) /\
  (Main.map_score_to_label 90 = STRONG /\ App.label_fit 90 = STRONG /\
   Main.map_score_to_label 75 = GOOD /\ App.label_fit 75 = GOOD /\
   Main.map_score_to_label 60 = MODERATE /\ App.label_fit 60 = WEAK /\
   Main.map_score_to_label 0 = LOW /\ App.label_fit 0 = WEAK) /\
  (forall s : Q,
      ((s < 0)%Q -> Main.map_score_to_label s = LOW /\ App.label_fit s = WEAK) /\
      ((100 < s)%Q -> Main.map_score_to_label s = STRONG /\ App.label_fit s = STRONG)).
Proof.
  split; [|split; [|split; [|split]]].
  - intros s. split.
    + destruct (main_label_cases s) as [[_ ->]|[(_ & _ & ->)|[(_ & _ & ->)|[_ ->]]]];
        set_solver.
    + destruct (app_label_cases s) as [[_ ->]|[(_ & _ & ->)|[_ ->]]]; set_solver.
  - intros s.
    destruct (main_label_cases s) as [[? ->]|[(? & ? & ->)|[(? & ? & ->)|[? ->]]]];
      destruct (app_label_cases s) as [[? ->]|[(? & ? & ->)|[? ->]]];
      repeat split; intros; try reflexivity; exfalso; lra.
  - intros s1 s2 Hle. split.
    + destruct (main_label_cases s1) as [[? ->]|[(? & ? & ->)|[(? & ? & ->)|[? ->]]]];
        destruct (main_label_cases s2) as [[? ->]|[(? & ? & ->)|[(? & ? & ->)|[? ->]]]];
        vm_compute; try lia; exfalso; lra.
    + destruct (app_label_cases s1) as [[? ->]|[(? & ? & ->)|[? ->]]];
        destruct (app_label_cases s2) as [[? ->]|[(? & ? & ->)|[? ->]]];
        vm_compute; try lia; exfalso; lra.
  - repeat split; reflexivity.
  - intros s.
    destruct (main_label_cases s) as [[? ->]|[(? & ? & ->)|[(? & ? & ->)|[? ->]]]];
      destruct (app_label_cases s) as [[? ->]|[(? & ? & ->)|[? ->]]];
      repeat split; intros; try reflexivity; exfalso; lra.
Qed.

Lemma fit_label_total_monotone_witness :
  bucket_rank (Main.map_score_to_label 60) <= bucket_rank (Main.map_score_to_label 90)
  /\ bucket_rank (App.label_fit 60) <= bucket_rank (App.label_fit 90).
Proof.
  apply (proj1 (proj2 (proj2 fit_label_total_monotone)) 60%Q 90%Q).
  vm_compute. discriminate.
Defined.

(** * Folder-name sanitizers *)

Lemma forallb_Forall (f : char -> bool) (s : str) :
  forallb f s = true <-> Forall (fun c => f c = true) s.
Proof.
  induction s as [|c s IH]; simpl.
  - split; [constructor | done].
  - rewrite andb_true_iff, IH. split; [intros []; by constructor | by inversion 1].
Qed.

Lemma Forall_lstrip_chars (Q : char -> Prop) (P : char -> bool) (s : str) :
  Forall Q s -> Forall Q (lstrip_chars P s).
Proof.
  induction 1 as [|c s Hc Hs IH]; simpl; [constructor|].
  destruct (P c); [done | by constructor].
Qed.

Lemma Forall_strip_chars (Q : char -> Prop) (P : char -> bool) (s : str) :
  Forall Q s -> Forall Q (strip_chars P s).
Proof.
  intros H. unfold strip_chars.
  by apply List.Forall_rev, Forall_lstrip_chars, List.Forall_rev, Forall_lstrip_chars.
Qed.

Lemma Forall_lstrip (Q : char -> Prop) (s : str) : Forall Q s -> Forall Q (lstrip s).
Proof.
  induction 1 as [|c s Hc Hs IH]; simpl; [constructor|].
  destruct (isspace c); [done | by constructor].
Qed.

Lemma Forall_strip (Q : char -> Prop) (s : str) : Forall Q s -> Forall Q (strip s).
Proof.
  intros H. unfold strip, rstrip.
  by apply List.Forall_rev, Forall_lstrip, List.Forall_rev, Forall_lstrip.
Qed.

Lemma Forall_sub_runs_go (Q : char -> Prop) (P : char -> bool) (rep : str) (b : bool) (s : str) :
  Forall Q rep -> (forall c, P c = false -> Q c) ->
  Forall Q (sub_runs_go P rep b s).
Proof.
  intros Hrep HP. revert b. induction s as [|c s IH]; intros b; simpl; [constructor|].
  destruct (P c) eqn:E.
  - destruct b; [apply IH|]. apply Forall_app. split; [done | apply IH].
  - constructor; [by apply HP | apply IH].
Qed.

Lemma sub_runs_go_all (P : char -> bool) (rep : str) (s : str) :
  Forall (fun c => P c = true) s -> sub_runs_go P rep true s = [].
Proof. induction 1 as [|c s Hc _ IH]; simpl; [done|]. by rewrite Hc. Qed.

Lemma sub_runs_go_none (P : char -> bool) (rep : str) (b : bool) (s : str) :
  Forall (fun c => P c = false) s -> sub_runs_go P rep b s = s.
Proof.
  intros H. revert b. induction H as [|c s Hc _ IH]; intros b; simpl; [done|].
  by rewrite Hc, IH.
Qed.

Lemma lower_fixed (s : str) :
  Forall (fun c => lower_char c = [c]) s -> lower s = s.
Proof.
  unfold lower. induction 1 as [|c s Hc _ IH]; simpl; [done|]. by rewrite Hc, IH.
Qed.

Lemma filter_none (f : char -> bool) (s : str) :
  Forall (fun c => f c = false) s -> List.filter f s = [].
Proof. induction 1 as [|c s Hc _ IH]; simpl; [done|]. by rewrite Hc. Qed.

Lemma punct_facts (c : char) :
  is_punct c = true ->
  Main.is_alnum c = false /\ isspace c = false /\ lower_char c = [c]
  /\ is_slug_char c = false.
Proof.
  intros H. unfold is_punct in H.
  assert (Hr : (33 <= c <= 47 \/ 58 <= c <= 64 \/ 91 <= c <= 94 \/ c = 96 \/ 123 <= c <= 126)%N).
  { unfold in_range in H.
    rewrite ?orb_true_iff, ?andb_true_iff, ?N.leb_le, ?N.eqb_eq in H. lia. }
  clear H. repeat split.
  - bool_N.
  - bool_N.
  - unfold lower_char.
    assert (is_upper_AZ c = false) as -> by bool_N.
    assert ((c =? 304)%N = false) as -> by (apply N.eqb_neq; lia).
    assert ((c =? 8490)%N = false) as -> by (apply N.eqb_neq; lia).
    done.
  - unfold is_slug_char. bool_N.
Qed.

(** C6 (as amended).  The sanitizer of [app/utils.py] strips the text,
    lower-cases it, turns every run of white space into one underscore and
    drops every other character outside [a-z0-9_]; its result is the
    fallback token or matches ^[a-z0-9_]+$, so with a fallback of that form
    it is never empty and always matches.  The sanitizer of [main.py] does
    not lower-case: it turns every run of characters outside [A-Za-z0-9]
    into one underscore and strips underscores at both ends; its result is
    never empty and matches ^[A-Za-z0-9_]+$.  An input of punctuation only
    gives the fallback token in both ("job" in [main.py]). *)
Theorem sanitize_part_both_variants :
  (forall text fallback : str,
      is_slug fallback = true -> is_slug (App.sanitize_part text fallback) = true) /\
  (forall text fallback : str,
      Forall (fun c => is_punct c = true) text -> App.sanitize_part text fallback = fallback) /\
  (forall text : str, is_word (Main.sanitize_part text) = true) /\
  (forall text : str,
      Forall (fun c => is_punct c = true) text -> Main.sanitize_part text = lit "job") /\
  (forall text fallback : str,
      App.sanitize_part text fallback = fallback \/
      App.sanitize_part text fallback
      = remove_chars (fun c => negb (is_slug_char c))
          (sub_runs isspace [UNDERSCORE] (lower (strip text)))) /\
  (forall text : str,
      Main.sanitize_part text = lit "job" \/
      Main.sanitize_part text
      = strip_chars Main.is_underscore
          (sub_runs (fun c => negb (Main.is_alnum c)) [UNDERSCORE] text)) /\
  App.sanitize_part (lit "Acme, Inc.") (lit "company") = lit "acme_inc" /\
  Main.sanitize_part (lit "Acme, Inc.") = lit "Acme_Inc".
Proof.
  split; [|split; [|split; [|split; [|split; [|split; [|split]]]]]].
  - intros text fallback Hfb. unfold App.sanitize_part.
    destruct (strip text) as [|c0 s0]; [done|].
    set (cleaned := remove_chars _ _).
    assert (Hall : Forall (fun c => is_slug_char c = true) cleaned).
    { subst cleaned. unfold remove_chars. apply List.Forall_forall.
      intros c Hc. apply filter_In in Hc as [_ Hc].
      by rewrite negb_involutive in Hc. }
    destruct cleaned as [|c s]; [done|].
    unfold is_slug. by apply forallb_Forall.
  - intros text fallback Hp. unfold App.sanitize_part.
    pose proof (Forall_strip _ _ Hp) as Hs.
    destruct (strip text) as [|c0 s0] eqn:E; [done|].
    rewrite lower_fixed; [|eapply Forall_impl; [exact Hs|]; intros c Hc; by apply punct_facts].
    unfold sub_runs. rewrite sub_runs_go_none;
      [|eapply Forall_impl; [exact Hs|]; intros c Hc; by apply punct_facts].
    unfold remove_chars. rewrite filter_none; [done|].
    eapply Forall_impl; [exact Hs|]. intros c Hc. simpl.
    apply punct_facts in Hc as (_ & _ & _ & Hc). unfold is_slug_char in Hc.
    by rewrite Hc.
  - intros text. unfold Main.sanitize_part. destruct text as [|c0 t0]; [done|].
    set (cleaned := strip_chars _ _).
    assert (Hall : Forall (fun c => is_word_char c = true) cleaned).
    { subst cleaned. apply Forall_strip_chars. unfold sub_runs.
      apply Forall_sub_runs_go; [by repeat constructor|].
      intros c Hc. apply negb_false_iff in Hc. unfold is_word_char. by rewrite Hc. }
    destruct cleaned as [|c s]; [done|].
    unfold is_word. by apply forallb_Forall.
  - intros text Hp. unfold Main.sanitize_part. destruct text as [|c0 t0]; [done|].
    unfold sub_runs. cbn [sub_runs_go].
    apply Forall_cons in Hp as [Hc Ht].
    apply punct_facts in Hc as (-> & _). simpl negb. cbv iota.
    rewrite sub_runs_go_all; [done|].
    eapply Forall_impl; [exact Ht|]. intros c Hc.
    apply punct_facts in Hc as (-> & _). done.
  - intros text fallback. unfold App.sanitize_part, is_slug_char.
    destruct (strip text) as [|c0 s0]; [by left|].
    destruct (remove_chars _ _) as [|c s]; [by left | by right].
  - intros text. unfold Main.sanitize_part. destruct text as [|c0 t0]; [by left|].
    destruct (strip_chars _ _) as [|c s]; [by left | by right].
  - reflexivity.
  - reflexivity.
Qed.

Lemma sanitize_part_both_variants_witness :
  is_slug (App.sanitize_part (lit "Acme, Inc.") (lit "company")) = true.
Proof.
  apply (proj1 sanitize_part_both_variants (lit "Acme, Inc.") (lit "company")).
  reflexivity.
Defined.

(** The claim as stated fails for the sanitizer of [main.py]: the result
    for "Acme, Inc." keeps its capital letters. *)
Lemma sanitize_main_keeps_upper_case :
  is_slug (Main.sanitize_part (lit "Acme, Inc.")) = false
  /\ Main.sanitize_part (lit "Acme, Inc.") = lit "Acme_Inc".
Proof. split; reflexivity. Qed.

(** * Package assembly *)

Lemma bind_ok_inv {S A B} (m : M S A) (k : A -> M S B) (s s' : S) (b : B) :
  bind m k s = (Ok b, s') -> exists a s1, m s = (Ok a, s1) /\ k a s1 = (Ok b, s').
Proof. unfold bind. destruct (m s) as [[a|e] s1]; [eauto | done]. Qed.

Lemma lift_ok_inv {S A} (r : result A) (s s' : S) (a : A) :
  lift r s = (Ok a, s') -> r = Ok a /\ s' = s.
Proof. unfold lift. by intros [= -> ->]. Qed.

Lemma ret_inv {S A} (a a' : A) (s s' : S) : ret a s = (Ok a', s') -> a' = a /\ s' = s.
Proof. unfold ret. by intros [= -> ->]. Qed.

Lemma write_text_inv (p : FS.path) (data : str) (fs fs' : FS.t) (u : unit) :
  FS.write_text p data fs = (Ok u, fs') -> fs' = <[p := FS.File data]> fs.
Proof.
  unfold FS.write_text. destruct (negb _); [done|].
  destruct (FS.node_at fs p) as [[|c]|]; [done| |];
    destruct (existsb _ _); by intros [= <-].
Qed.

Lemma mkdir_chain_existing (pre rest : FS.path) (fs : FS.t) :
  (forall k, k < length rest -> fs !! (pre ++ take (S k) rest) = Some FS.Dir) ->
  FS.mkdir_chain pre rest fs = (Ok tt, fs).
Proof.
  revert pre. induction rest as [|n rest IH]; intros pre H; [done|].
  cbn [FS.mkdir_chain].
  pose proof (H 0 ltac:(simpl; lia)) as H0.
  change (take 1 (n :: rest)) with [n] in H0. rewrite H0.
  apply IH. intros k Hk. specialize (H (S k) ltac:(simpl; lia)).
  rewrite <- app_assoc. exact H.
Qed.

Lemma mkdir_chain_last (pre : FS.path) (n : str) (fs fs' : FS.t) (u : unit) :
  fs !! (pre ++ [n]) = None ->
  FS.mkdir_chain pre [n] fs = (Ok u, fs') -> fs' = <[pre ++ [n] := FS.Dir]> fs.
Proof. intros Hn. cbn [FS.mkdir_chain]. rewrite Hn. by intros [= <-]. Qed.

Lemma mkdir_chain_app (pre a b : FS.path) (fs : FS.t) :
  FS.mkdir_chain pre a fs = (Ok tt, fs) ->
  FS.mkdir_chain pre (a ++ b) fs = FS.mkdir_chain (pre ++ a) b fs.
Proof.
  revert pre fs. induction a as [|n a IH]; intros pre fs H.
  - by rewrite app_nil_r.
  - cbn [FS.mkdir_chain app] in *.
    destruct (fs !! (pre ++ [n])) as [[|c]|] eqn:E; [|done|].
    + rewrite IH by done. by rewrite <- app_assoc.
    + (* a directory was created: the state would have changed *)
      exfalso. clear IH.
      assert (Hins : forall a0 pre0 fs0 fs1 r,
                 FS.mkdir_chain pre0 a0 fs0 = (r, fs1) -> fs0 ⊆ fs1).
      { clear. induction a0 as [|m a0 IH]; intros pre0 fs0 fs1 r H.
        - cbn in H. by injection H as _ <-.
        - cbn [FS.mkdir_chain] in H.
          destruct (fs0 !! (pre0 ++ [m])) as [[|c]|] eqn:E.
          + by eapply IH.
          + by injection H as _ <-.
          + etrans; [|by eapply IH]. by apply insert_subseteq. }
      apply Hins in H.
      assert (Hl : <[pre ++ [n]:=FS.Dir]> fs !! (pre ++ [n]) = Some FS.Dir)
        by apply lookup_insert_eq.
      eapply lookup_weaken in Hl; [|exact H]. congruence.
Qed.

Lemma package_created_intro (fs : FS.t) (d : FS.path) (f1 f2 f3 f4 : str)
    (c1 c2 c3 c4 : str) :
  nothing_at fs d ->
  list_to_set (C := gset (list (list N))) ((fun f => d ++ [f]) <$> [f1; f2; f3; f4])
  = list_to_set ((fun f => d ++ [f]) <$> PACKAGE_FILES) ->
  (forall f, f ∈ PACKAGE_FILES -> f ∈ [f1; f2; f3; f4]) ->
  package_created fs
    (<[d ++ [f4] := FS.File c4]> (<[d ++ [f3] := FS.File c3]>
       (<[d ++ [f2] := FS.File c2]> (<[d ++ [f1] := FS.File c1]>
          (<[d := FS.Dir]> fs)))))
    d.
Proof.
  intros Hfresh Hset Hin.
  assert (Hd : fs !! d = None) by (apply Hfresh; exists []; by rewrite app_nil_r).
  assert (Hf : forall f, fs !! (d ++ [f]) = None) by (intros f; apply Hfresh; by exists [f]).
  assert (Hne : forall f, d ++ [f] <> d).
  { intros f H. apply (f_equal length) in H. rewrite length_app in H. simpl in H. lia. }
  unfold package_created. split; [|split; [|split; [|split]]].
  - rewrite <- Hset. rewrite !dom_insert_L. simpl. set_solver.
  - intros q [x Hq].
    rewrite !lookup_insert_ne; [done|..]; intros <-; first [by rewrite Hd in Hq | by rewrite Hf in Hq].
  - done.
  - rewrite !lookup_insert_ne by apply Hne. apply lookup_insert_eq.
  - intros f Hfin. split; [apply Hf|]. apply Hin in Hfin.
    apply list_elem_of_In in Hfin. simpl in Hfin.
    destruct (decide (f = f4)) as [->|N4]; [rewrite lookup_insert_eq; eauto|].
    rewrite lookup_insert_ne by (intros H%app_inv_head; congruence).
    destruct (decide (f = f3)) as [->|N3]; [rewrite lookup_insert_eq; eauto|].
    rewrite lookup_insert_ne by (intros H%app_inv_head; congruence).
    destruct (decide (f = f2)) as [->|N2]; [rewrite lookup_insert_eq; eauto|].
    rewrite lookup_insert_ne by (intros H%app_inv_head; congruence).
    destruct (decide (f = f1)) as [->|N1]; [rewrite lookup_insert_eq; eauto|].
    exfalso. intuition congruence.
Qed.

Lemma parent_child (d : FS.path) (f : str) : FS.parent (d ++ [f]) = d.
Proof. unfold FS.parent. apply removelast_last. Qed.

Lemma child_ne (d : FS.path) (f : str) : d ++ [f] <> d.
Proof.
  intros H. apply (f_equal length) in H. rewrite length_app in H. simpl in H. lia.
Qed.

Lemma write_text_ok (d : FS.path) (f data : str) (fs : FS.t) :
  d <> [] -> fs !! d = Some FS.Dir -> fs !! (d ++ [f]) <> Some FS.Dir ->
  encodable data = true ->
  FS.write_text (d ++ [f]) data fs = (Ok tt, <[d ++ [f] := FS.File data]> fs).
Proof.
  intros Hd Hdir Hf Henc. unfold FS.write_text, FS.is_dir. rewrite parent_child.
  unfold FS.node_at at 1. destruct d as [|x d]; [done|]. rewrite Hdir. simpl negb. cbv iota.
  assert (Hn : FS.node_at fs ((x :: d) ++ [f]) = fs !! ((x :: d) ++ [f])) by reflexivity.
  rewrite Hn. unfold encodable in Henc. apply negb_true_iff in Henc. rewrite Henc.
  destruct (fs !! ((x :: d) ++ [f])) as [[|c]|]; done.
Qed.

Lemma mkdir_new_folder (root : FS.path) (name : str) (fs : FS.t) :
  (forall k, k < length root -> fs !! take (S k) root = Some FS.Dir) ->
  fs !! (root ++ [name]) = None ->
  FS.mkdir_parents_exist_ok (root ++ [name]) fs
  = (Ok tt, <[root ++ [name] := FS.Dir]> fs).
Proof.
  intros Hroot Hnew. unfold FS.mkdir_parents_exist_ok.
  rewrite mkdir_chain_app by (by apply mkdir_chain_existing).
  cbn [FS.mkdir_chain app]. by rewrite Hnew.
Qed.

Section Assembly.
Variable HOST_OUTPUT_ROOT SYSTEM_PROMPT : str.
Variable main_dumps : json -> str.
Variable call_ollama : str -> str -> result str.
Variable RESUME_PROMPT COVER_PROMPT ANSWERS_PROMPT : list str.
Variable format_hint : App.SeniorityHint -> str.
Variable app_dumps : json -> str.
Variable ollama_chat : str -> result str.

Lemma process_job_creates (now : datetime) (job : Main.JobInput) (fs fs' : FS.t)
    (pkg : Main.PackageOutput) :
  Main.process_job HOST_OUTPUT_ROOT SYSTEM_PROMPT main_dumps call_ollama now job fs
  = (Ok pkg, fs') ->
  fs !! [lit "app"] = Some FS.Dir ->
  fs !! Main.OUTPUT_ROOT = Some FS.Dir ->
  nothing_at fs (Main.OUTPUT_ROOT ++ [main_folder_name now job]) ->
  package_created fs fs' (Main.OUTPUT_ROOT ++ [main_folder_name now job])
  /\ Main.container_folder pkg
     = Main.path_str (Main.OUTPUT_ROOT ++ [main_folder_name now job]).
Proof.
  intros H Happ Hroot Hfresh. unfold Main.process_job in H.
  apply bind_ok_inv in H as (raw & s1 & H1 & H). apply lift_ok_inv in H1 as [_ ->].
  apply bind_ok_inv in H as ([[[[fit reasoning] cover] resume] answers] & s2 & H2 & H).
  apply lift_ok_inv in H2 as [_ ->].
  apply bind_ok_inv in H as ([[job_dir host_path] name] & s3 & H3 & H).
  unfold Main.create_job_folder in H3.
  apply bind_ok_inv in H3 as ([] & s3' & Hmk & H3).
  apply ret_inv in H3 as [[= -> -> ->] ->].
  fold (main_folder_name now job) in *.
  set (d := Main.OUTPUT_ROOT ++ [main_folder_name now job]) in *.
  assert (Hs3 : s3' = <[d := FS.Dir]> fs).
  { unfold FS.mkdir_parents_exist_ok in Hmk. subst d.
    rewrite mkdir_chain_app in Hmk.
    - eapply mkdir_chain_last; [|exact Hmk]. apply Hfresh. exists []. by rewrite app_nil_r.
    - apply mkdir_chain_existing. intros k Hk. simpl in Hk.
      destruct k as [|[|k]]; [exact Happ | exact Hroot | lia]. }
  subst s3'.
  apply bind_ok_inv in H as ([] & s4 & Hw1 & H). apply write_text_inv in Hw1 as ->.
  apply bind_ok_inv in H as ([] & s5 & Hw2 & H). apply write_text_inv in Hw2 as ->.
  apply bind_ok_inv in H as ([] & s6 & Hw3 & H). apply write_text_inv in Hw3 as ->.
  apply bind_ok_inv in H as ([] & s7 & Hw4 & H). apply write_text_inv in Hw4 as ->.
  apply ret_inv in H as [-> ->]. split; [|reflexivity].
  apply package_created_intro; [done| |].
  - unfold PACKAGE_FILES. simpl. set_solver.
  - unfold PACKAGE_FILES. set_solver.
Qed.

Lemma generate_full_package_creates (now : datetime) (job : App.JobInput) (fs fs' : FS.t)
    (info : App.PackageInfo) :
  App.generate_full_package RESUME_PROMPT COVER_PROMPT ANSWERS_PROMPT format_hint
    app_dumps ollama_chat now job fs = (Ok info, fs') ->
  fs !! App.OUTPUT_ROOT = Some FS.Dir ->
  nothing_at fs (App.OUTPUT_ROOT ++ [app_folder_name now job]) ->
  package_created fs fs' (App.OUTPUT_ROOT ++ [app_folder_name now job])
  /\ App.folder_name info = app_folder_name now job.
Proof.
  intros H Hroot Hfresh. unfold App.generate_full_package in H.
  apply bind_ok_inv in H as ([] & s1 & Hmk0 & H).
  assert (s1 = fs) as ->.
  { unfold FS.mkdir_parents_exist_ok, App.OUTPUT_ROOT in Hmk0. cbn [FS.mkdir_chain] in Hmk0.
    change ([] ++ [lit "job-packages"]) with App.OUTPUT_ROOT in Hmk0.
    rewrite Hroot in Hmk0. by injection Hmk0 as <-. }
  fold (app_folder_name now job) in *.
  set (d := App.OUTPUT_ROOT ++ [app_folder_name now job]) in *.
  apply bind_ok_inv in H as ([] & s2 & Hmk & H).
  assert (Hs2 : s2 = <[d := FS.Dir]> fs).
  { unfold FS.mkdir_parents_exist_ok in Hmk. subst d.
    rewrite mkdir_chain_app in Hmk.
    - eapply mkdir_chain_last; [|exact Hmk]. apply Hfresh. exists []. by rewrite app_nil_r.
    - apply mkdir_chain_existing. intros k Hk. simpl in Hk.
      destruct k as [|k]; [exact Hroot | lia]. }
  subst s2.
  apply bind_ok_inv in H as (r & s3 & H1 & H). apply lift_ok_inv in H1 as [_ ->].
  apply bind_ok_inv in H as (c & s4 & H1 & H). apply lift_ok_inv in H1 as [_ ->].
  apply bind_ok_inv in H as (a & s5 & H1 & H). apply lift_ok_inv in H1 as [_ ->].
  apply bind_ok_inv in H as ([] & s6 & Hw1 & H). apply write_text_inv in Hw1 as ->.
  apply bind_ok_inv in H as ([] & s7 & Hw2 & H). apply write_text_inv in Hw2 as ->.
  apply bind_ok_inv in H as ([] & s8 & Hw3 & H). apply write_text_inv in Hw3 as ->.
  apply bind_ok_inv in H as ([] & s9 & Hw4 & H). apply write_text_inv in Hw4 as ->.
  apply ret_inv in H as [-> ->]. split; [|reflexivity].
  apply package_created_intro; [done| |].
  - unfold PACKAGE_FILES. simpl. set_solver.
  - unfold PACKAGE_FILES. set_solver.
Qed.

Lemma process_job_succeeds (now : datetime) (job : Main.JobInput) (fs : FS.t)
    (raw : str) (fit : Q) (reasoning cover resume : str) (answers : list str) :
  call_ollama SYSTEM_PROMPT (Main.user_prompt_of job) = Ok raw ->
  Main.parse_model_output raw = Ok (fit, reasoning, cover, resume, answers) ->
  fs !! [lit "app"] = Some FS.Dir ->
  fs !! Main.OUTPUT_ROOT = Some FS.Dir ->
  nothing_at fs (Main.OUTPUT_ROOT ++ [main_folder_name now job]) ->
  encodable cover = true -> encodable resume = true ->
  encodable (Main.answers_text_from 1 answers) = true ->
  encodable (main_dumps (main_meta HOST_OUTPUT_ROOT now job fit reasoning)) = true ->
  exists pkg fs',
    Main.process_job HOST_OUTPUT_ROOT SYSTEM_PROMPT main_dumps call_ollama now job fs
    = (Ok pkg, fs')
    /\ Main.fit_score pkg = fit /\ Main.fit_label pkg = Main.map_score_to_label fit
    /\ Main.reasoning pkg = reasoning /\ Main.cover_letter pkg = cover
    /\ Main.resume pkg = resume /\ Main.short_answers pkg = answers.
Proof.
  intros Hcall Hparse Happ Hroot Hfresh E1 E2 E3 E4.
  set (d := Main.OUTPUT_ROOT ++ [main_folder_name now job]).
  assert (Hd : d <> []) by done.
  assert (Hnew : forall f, fs !! (d ++ [f]) = None) by (intros f; apply Hfresh; by exists [f]).
  unfold Main.process_job, bind, lift. rewrite Hcall, Hparse.
  unfold Main.create_job_folder, bind. fold (main_folder_name now job). fold d.
  unfold d at 1. rewrite mkdir_new_folder; cycle 1.
  { intros k Hk. simpl in Hk. destruct k as [|[|k]]; [exact Happ | exact Hroot | lia]. }
  { apply Hfresh. exists []. by rewrite app_nil_r. }
  fold d. unfold ret.
  rewrite write_text_ok; [|done|apply lookup_insert_eq| |done]; cycle 1.
  { rewrite lookup_insert_ne by (symmetry; apply child_ne). by rewrite Hnew. }
  rewrite write_text_ok; [|done| | |done]; cycle 1.
  { rewrite lookup_insert_ne by apply child_ne. apply lookup_insert_eq. }
  { rewrite lookup_insert_ne by (intros H%app_inv_head; discriminate).
    rewrite lookup_insert_ne by (symmetry; apply child_ne). by rewrite Hnew. }
  rewrite write_text_ok; [|done| | |done]; cycle 1.
  { rewrite !lookup_insert_ne by apply child_ne. apply lookup_insert_eq. }
  { rewrite !lookup_insert_ne by (intros H%app_inv_head; discriminate).
    rewrite lookup_insert_ne by (symmetry; apply child_ne). by rewrite Hnew. }
  rewrite write_text_ok; [|done| | |exact E4]; cycle 1.
  { rewrite !lookup_insert_ne by apply child_ne. apply lookup_insert_eq. }
  { rewrite !lookup_insert_ne by (intros H%app_inv_head; discriminate).
    rewrite lookup_insert_ne by (symmetry; apply child_ne). by rewrite Hnew. }
  eexists _, _. split; [reflexivity|]. repeat split.
Qed.

Lemma generate_full_package_succeeds (now : datetime) (job : App.JobInput) (fs : FS.t)
    (resume cover : str) (answers : list str) :
  App.generate_resume RESUME_PROMPT format_hint ollama_chat job = Ok resume ->
  App.generate_cover_letter COVER_PROMPT format_hint ollama_chat job = Ok cover ->
  App.generate_short_answers ANSWERS_PROMPT ollama_chat job = Ok answers ->
  fs !! App.OUTPUT_ROOT = Some FS.Dir ->
  nothing_at fs (App.OUTPUT_ROOT ++ [app_folder_name now job]) ->
  encodable resume = true -> encodable cover = true ->
  encodable (App.build_short_answers_text answers) = true ->
  encodable (app_dumps (app_meta now job)) = true ->
  exists info fs',
    App.generate_full_package RESUME_PROMPT COVER_PROMPT ANSWERS_PROMPT format_hint
      app_dumps ollama_chat now job fs = (Ok info, fs')
    /\ App.fit_score info = App.estimate_fit_score job
    /\ App.fit_label info = App.label_fit (App.estimate_fit_score job)
    /\ App.folder_name info = app_folder_name now job.
Proof.
  intros H1 H2 H3 Hroot Hfresh E1 E2 E3 E4.
  set (d := App.OUTPUT_ROOT ++ [app_folder_name now job]).
  assert (Hd : d <> []) by done.
  assert (Hnew : forall f, fs !! (d ++ [f]) = None) by (intros f; apply Hfresh; by exists [f]).
  unfold App.generate_full_package, bind, lift.
  assert (FS.mkdir_parents_exist_ok App.OUTPUT_ROOT fs = (Ok tt, fs)) as ->.
  { apply mkdir_chain_existing. intros k Hk. simpl in Hk.
    destruct k as [|k]; [exact Hroot | lia]. }
  fold (app_folder_name now job). fold d.
  unfold d at 1. rewrite mkdir_new_folder; cycle 1.
  { intros k Hk. simpl in Hk. destruct k as [|k]; [exact Hroot | lia]. }
  { apply Hfresh. exists []. by rewrite app_nil_r. }
  fold d. rewrite H1, H2, H3. unfold ret.
  rewrite write_text_ok; [|done|apply lookup_insert_eq| |done]; cycle 1.
  { rewrite lookup_insert_ne by (symmetry; apply child_ne). by rewrite Hnew. }
  rewrite write_text_ok; [|done| | |done]; cycle 1.
  { rewrite lookup_insert_ne by apply child_ne. apply lookup_insert_eq. }
  { rewrite lookup_insert_ne by (intros H%app_inv_head; discriminate).
    rewrite lookup_insert_ne by (symmetry; apply child_ne). by rewrite Hnew. }
  rewrite write_text_ok; [|done| | |done]; cycle 1.
  { rewrite !lookup_insert_ne by apply child_ne. apply lookup_insert_eq. }
  { rewrite !lookup_insert_ne by (intros H%app_inv_head; discriminate).
    rewrite lookup_insert_ne by (symmetry; apply child_ne). by rewrite Hnew. }
  rewrite write_text_ok; [|done| | |exact E4]; cycle 1.
  { rewrite !lookup_insert_ne by apply child_ne. apply lookup_insert_eq. }
  { rewrite !lookup_insert_ne by (intros H%app_inv_head; discriminate).
    rewrite lookup_insert_ne by (symmetry; apply child_ne). by rewrite Hnew. }
  eexists _, _. split; [reflexivity|]. repeat split.
Qed.

(** C7 (as amended).  A successful assembly, started where the output root
    exists and nothing exists under the name of the new folder, creates
    exactly one directory under the output root and in it exactly the four
    files resume_full.txt, cover_letter.txt, short_answers.txt and
    meta.json; nothing else is created or changed.  The variant that parses
    the tagged response names the folder <timestamp>_<company>_<title>,
    with the sanitizer of [main.py]; the variant with one call per artifact
    names it <company>_<title>_<timestamp>.  The timestamp has the shape
    YYYYMMDD_HHMMSS for a year of four digits.  The assembly does succeed
    there when the model calls return, the response parses (first variant)
    and the four texts can be encoded as UTF-8. *)
Theorem package_folder_created (now : datetime) :
  (forall (job : Main.JobInput) (fs fs' : FS.t) (pkg : Main.PackageOutput),
      Main.process_job HOST_OUTPUT_ROOT SYSTEM_PROMPT main_dumps call_ollama now job fs
      = (Ok pkg, fs') ->
      fs !! [lit "app"] = Some FS.Dir ->
      fs !! Main.OUTPUT_ROOT = Some FS.Dir ->
      nothing_at fs (Main.OUTPUT_ROOT ++ [main_folder_name now job]) ->
      package_created fs fs' (Main.OUTPUT_ROOT ++ [main_folder_name now job])
      /\ Main.container_folder pkg
         = Main.path_str (Main.OUTPUT_ROOT ++ [main_folder_name now job])) /\
  (forall (job : App.JobInput) (fs fs' : FS.t) (info : App.PackageInfo),
      App.generate_full_package RESUME_PROMPT COVER_PROMPT ANSWERS_PROMPT format_hint
        app_dumps ollama_chat now job fs = (Ok info, fs') ->
      fs !! App.OUTPUT_ROOT = Some FS.Dir ->
      nothing_at fs (App.OUTPUT_ROOT ++ [app_folder_name now job]) ->
      package_created fs fs' (App.OUTPUT_ROOT ++ [app_folder_name now job])
      /\ App.folder_name info = app_folder_name now job) /\
  (valid_datetime now -> is_stamp (strftime_stamp now) = true) /\
  (forall (job : Main.JobInput) (fs : FS.t) (raw : str) (fit : Q)
          (reasoning cover resume : str) (answers : list str),
      call_ollama SYSTEM_PROMPT (Main.user_prompt_of job) = Ok raw ->
      Main.parse_model_output raw = Ok (fit, reasoning, cover, resume, answers) ->
      fs !! [lit "app"] = Some FS.Dir ->
      fs !! Main.OUTPUT_ROOT = Some FS.Dir ->
      nothing_at fs (Main.OUTPUT_ROOT ++ [main_folder_name now job]) ->
      encodable cover = true -> encodable resume = true ->
      encodable (Main.answers_text_from 1 answers) = true ->
      encodable (main_dumps (main_meta HOST_OUTPUT_ROOT now job fit reasoning)) = true ->
      exists pkg fs',
        Main.process_job HOST_OUTPUT_ROOT SYSTEM_PROMPT main_dumps call_ollama now job fs
        = (Ok pkg, fs')
        /\ Main.fit_score pkg = fit /\ Main.fit_label pkg = Main.map_score_to_label fit
        /\ Main.reasoning pkg = reasoning /\ Main.cover_letter pkg = cover
        /\ Main.resume pkg = resume /\ Main.short_answers pkg = answers) /\
  (forall (job : App.JobInput) (fs : FS.t) (resume cover : str) (answers : list str),
      App.generate_resume RESUME_PROMPT format_hint ollama_chat job = Ok resume ->
      App.generate_cover_letter COVER_PROMPT format_hint ollama_chat job = Ok cover ->
      App.generate_short_answers ANSWERS_PROMPT ollama_chat job = Ok answers ->
      fs !! App.OUTPUT_ROOT = Some FS.Dir ->
      nothing_at fs (App.OUTPUT_ROOT ++ [app_folder_name now job]) ->
      encodable resume = true -> encodable cover = true ->
      encodable (App.build_short_answers_text answers) = true ->
      encodable (app_dumps (app_meta now job)) = true ->
      exists info fs',
        App.generate_full_package RESUME_PROMPT COVER_PROMPT ANSWERS_PROMPT format_hint
          app_dumps ollama_chat now job fs = (Ok info, fs')
        /\ App.fit_score info = App.estimate_fit_score job
        /\ App.fit_label info = App.label_fit (App.estimate_fit_score job)
        /\ App.folder_name info = app_folder_name now job).
Proof.
  split; [intros; by eapply process_job_creates|].
  split; [intros; by eapply generate_full_package_creates|].
  split; [apply strftime_stamp_shape|].
  split; [apply process_job_succeeds | apply generate_full_package_succeeds].
Qed.

End Assembly.

Lemma root_only_nothing_at (name : str) : nothing_at root_only (Main.OUTPUT_ROOT ++ [name]).
Proof.
  intros q [k ->]. unfold root_only.
  rewrite !lookup_insert_ne; [apply lookup_empty|..];
    intros H; apply (f_equal length) in H; rewrite !length_app in H; simpl in H; lia.
Qed.

Lemma acme_run_eq :
  Main.process_job (lit "./job-packages") [] (fun _ => lit "{}")
    (fun _ _ => Ok acme_response) jan_2nd acme_job root_only
  = (Ok acme_package, snd acme_run).
Proof.
  change (acme_run = (Ok acme_package, snd acme_run)).
  assert (E : fst acme_run = Ok acme_package) by (vm_compute; reflexivity).
  rewrite <- E. apply surjective_pairing.
Qed.

Lemma package_folder_created_witness :
  package_created root_only (snd acme_run)
    (Main.OUTPUT_ROOT ++ [main_folder_name jan_2nd acme_job])
  /\ Main.container_folder acme_package
     = Main.path_str (Main.OUTPUT_ROOT ++ [main_folder_name jan_2nd acme_job]).
Proof.
  apply (proj1 (package_folder_created (lit "./job-packages") [] (fun _ => lit "{}")
                  (fun _ _ => Ok acme_response) [] [] [] App.hint_value
                  (fun _ => []) (fun _ => Ok []) jan_2nd)
           acme_job root_only (snd acme_run) acme_package).
  - exact acme_run_eq.
  - reflexivity.
  - reflexivity.
  - apply root_only_nothing_at.
Defined.

(** The claim as stated fails: with the tagged response of the end-to-end
    scenario (fit score 88, label "Strong fit") the assembly succeeds, and
    the new folder is named with the timestamp first and in the letter
    case of the input; no folder <company>_<title>_<timestamp> exists
    afterwards, with either sanitizer. *)
Lemma process_job_folder_starts_with_stamp :
  fst acme_run = Ok acme_package
  /\ snd acme_run !! (Main.OUTPUT_ROOT ++ [lit "20240102_030405_Acme_Corp_Staff_Engineer"])
     = Some FS.Dir
  /\ snd acme_run !! (Main.OUTPUT_ROOT ++ [lit "acme_corp_staff_engineer_20240102_030405"])
     = None
  /\ snd acme_run !! (Main.OUTPUT_ROOT ++ [lit "Acme_Corp_Staff_Engineer_20240102_030405"])
     = None.
Proof. repeat split; vm_compute; reflexivity. Qed.

(** * The local estimate and the seniority hint of a submission *)

(** C8.  The local estimate is 70, plus 5 when the seniority hint is one
    of senior, lead, director, executive, plus 5 when the job description
    is longer than 1500 characters, clamped to [0, 100] (the clamp never
    changes the value, which is 70, 75 or 80). *)
Theorem estimate_fit_score_spec (job : App.JobInput) :
  (App.estimate_fit_score job == clamp 0 100 (70 + seniority_bonus job + length_bonus job))%Q /\
  (App.estimate_fit_score job == 70 + seniority_bonus job + length_bonus job)%Q /\
  (0 <= App.estimate_fit_score job)%Q /\ (App.estimate_fit_score job <= 100)%Q /\
  App.estimate_fit_score job ∈ [70%Q; 75%Q; 80%Q].
Proof.
  unfold App.estimate_fit_score, seniority_bonus, length_bonus, clamp.
  destruct job as [r c t l jd [h|]]; simpl;
    [destruct h|]; destruct (1500 <? length jd); vm_compute;
    (split; [reflexivity|split; [reflexivity|split; [discriminate|split; [discriminate|]]]]);
    set_solver.
Qed.

Lemma SeniorityHint_of_None (v : str) :
  v ∉ List.map App.hint_value App.all_hints -> App.SeniorityHint_of v = None.
Proof.
  intros Hv. unfold App.SeniorityHint_of.
  destruct (List.find _ _) as [h|] eqn:E; [|reflexivity].
  apply find_some in E as [_ E]. unfold str_eqb in E.
  apply bool_decide_eq_true in E. subst v. exfalso. apply Hv.
  destruct h; set_solver.
Qed.

Section Submit.
Variable RESUME_PROMPT COVER_PROMPT ANSWERS_PROMPT : list str.
Variable format_hint : App.SeniorityHint -> str.
Variable json_dumps : json -> str.
Variable ollama_chat : str -> result str.

(** C10.  A submission whose seniority hint is a non-empty string outside
    the six values of the enumeration is not rejected: the hint of the
    [JobInput] is unset, the seniority bonus is not applied, and [submit]
    behaves exactly as for the same form with no hint. *)
Theorem submit_invalid_hint_coerced (now : datetime) (err_time : str)
    (form : App.SubmitForm) (fs : FS.t) (buffer : list (str * str)) :
  App.f_seniority_hint form <> [] ->
  App.f_seniority_hint form ∉ List.map App.hint_value App.all_hints ->
  App.seniority_hint (App.job_input_of form) = None /\
  App.job_input_of form = App.job_input_of (with_hint form []) /\
  App.submit RESUME_PROMPT COVER_PROMPT ANSWERS_PROMPT format_hint json_dumps
    ollama_chat now err_time form fs buffer
  = App.submit RESUME_PROMPT COVER_PROMPT ANSWERS_PROMPT format_hint json_dumps
      ollama_chat now err_time (with_hint form []) fs buffer /\
  seniority_bonus (App.job_input_of form) = 0%Q /\
  App.estimate_fit_score (App.job_input_of form)
  = if 1500 <? length (App.f_job_description form) then 75%Q else 70%Q.
Proof.
  intros Hne Hbad.
  assert (Hjob : App.job_input_of form = App.job_input_of (with_hint form [])).
  { unfold App.job_input_of. destruct form as [r c t l jd h]; simpl in *.
    rewrite (SeniorityHint_of_None h Hbad). destruct h; reflexivity. }
  assert (Hnone : App.seniority_hint (App.job_input_of form) = None).
  { rewrite Hjob. reflexivity. }
  split; [exact Hnone|]. split; [exact Hjob|]. split.
  - unfold App.submit. rewrite Hjob. reflexivity.
  - split.
    + unfold seniority_bonus. rewrite Hnone. reflexivity.
    + unfold App.estimate_fit_score. rewrite Hnone.
      change (App.job_description (App.job_input_of form)) with (App.f_job_description form).
      destruct (1500 <? length (App.f_job_description form)); reflexivity.
Qed.
End Submit.

Lemma submit_invalid_hint_coerced_witness :
  App.seniority_hint (App.job_input_of senior_manager_form) = None.
Proof.
  apply (submit_invalid_hint_coerced [] [] [] App.hint_value (fun _ => [])
           (fun _ => Ok []) jan_2nd [] senior_manager_form ∅ []).
  - discriminate.
  - vm_compute. intros H. repeat (inversion H as [|? ? ? H']; clear H; rename H' into H).
Defined.

(** * The dashboard listing *)

Lemma one_folder_entries (meta : str) :
  FS.sorted_entries_desc (one_folder meta) Main.OUTPUT_ROOT
  = [lit "20240102_030405_Acme_Corp_Staff_Engineer"].
Proof. vm_compute. reflexivity. Qed.

Lemma one_folder_facts (meta : str) :
  FS.exists_ (one_folder meta) Main.OUTPUT_ROOT = true
  /\ FS.is_dir (one_folder meta) Main.OUTPUT_ROOT = true
  /\ FS.is_dir (one_folder meta)
       (Main.OUTPUT_ROOT ++ [lit "20240102_030405_Acme_Corp_Staff_Engineer"]) = true
  /\ FS.node_at (one_folder meta)
       ((Main.OUTPUT_ROOT ++ [lit "20240102_030405_Acme_Corp_Staff_Engineer"])
        ++ [lit "meta.json"]) = Some (FS.File meta).
Proof. repeat split; vm_compute; reflexivity. Qed.

(** C9 (code defect).  The listing can fail, and it can return more rows
    than [limit]: with one folder whose metadata file holds the JSON text
    "[]" (readable and parseable, but not an object) the call with the
    limit 20 raises [AttributeError], as [meta.get] is outside the [try];
    with one folder whose metadata file holds "{}" the call with the limit
    0 returns one row, as the limit is tested after the row is added. *)
Theorem get_recent_jobs_defects (json_load : str -> option json) :
  json_load (lit "[]") = Some (JArr []) ->
  json_load (lit "{}") = Some (JObj []) ->
  Main.get_recent_jobs json_load (one_folder (lit "[]")) 20
  = Raise (AttributeError (lit "object has no attribute 'get'"))
  /\ exists row, Main.get_recent_jobs json_load (one_folder (lit "{}")) 0 = Ok [row].
Proof.
  intros Harr Hobj. split.
  - destruct (one_folder_facts (lit "[]")) as (E1 & E2 & E3 & E4).
    unfold Main.get_recent_jobs. rewrite E1, E2, one_folder_entries.
    cbn [negb Main.recent_loop]. rewrite E3, E4, Harr. reflexivity.
  - destruct (one_folder_facts (lit "{}")) as (E1 & E2 & E3 & E4).
    unfold Main.get_recent_jobs. rewrite E1, E2, one_folder_entries.
    cbn [negb Main.recent_loop]. rewrite E3, E4, Hobj. cbn [negb]. eauto.
Qed.

Lemma get_recent_jobs_defects_witness :
  Main.get_recent_jobs tiny_json_load (one_folder (lit "[]")) 20
  = Raise (AttributeError (lit "object has no attribute 'get'")).
Proof.
  apply (get_recent_jobs_defects tiny_json_load); reflexivity.
Defined.

(** What the claim says of the sound cases does hold there: a missing
    output root gives the empty list, and a folder without a metadata
    record is skipped. *)
Lemma get_recent_jobs_sound_cases (json_load : str -> option json) :
  json_load (lit "{}") = Some (JObj []) ->
  Main.get_recent_jobs json_load ∅ 20 = Ok []
  /\ exists row, Main.get_recent_jobs json_load two_folders 20 = Ok [row].
Proof.
  intros Hobj. split; [reflexivity|].
  assert (E1 : FS.exists_ two_folders Main.OUTPUT_ROOT = true) by (vm_compute; reflexivity).
  assert (E2 : FS.is_dir two_folders Main.OUTPUT_ROOT = true) by (vm_compute; reflexivity).
  assert (E3 : FS.sorted_entries_desc two_folders Main.OUTPUT_ROOT
               = [lit "20240102_030406_Other_Role";
                  lit "20240102_030405_Acme_Corp_Staff_Engineer"])
    by (vm_compute; reflexivity).
  assert (E4 : FS.is_dir two_folders
                 (Main.OUTPUT_ROOT ++ [lit "20240102_030406_Other_Role"]) = true)
    by (vm_compute; reflexivity).
  assert (E5 : FS.node_at two_folders
                 ((Main.OUTPUT_ROOT ++ [lit "20240102_030406_Other_Role"])
                  ++ [lit "meta.json"]) = None)
    by (vm_compute; reflexivity).
  assert (E6 : FS.is_dir two_folders
                 (Main.OUTPUT_ROOT ++ [lit "20240102_030405_Acme_Corp_Staff_Engineer"]) = true)
    by (vm_compute; reflexivity).
  assert (E7 : FS.node_at two_folders
                 ((Main.OUTPUT_ROOT ++ [lit "20240102_030405_Acme_Corp_Staff_Engineer"])
                  ++ [lit "meta.json"]) = Some (FS.File (lit "{}")))
    by (vm_compute; reflexivity).
  unfold Main.get_recent_jobs. rewrite E1, E2, E3.
  cbn [negb Main.recent_loop]. rewrite E4, E5. cbn [negb]. rewrite E6, E7, Hobj.
  cbn [negb]. eauto.
Qed.

(** * Further properties of the code *)

(** ** Trimming *)

Lemma lstrip_idem (s : str) : lstrip (lstrip s) = lstrip s.
Proof.
  induction s as [|c s IH]; simpl; [done|].
  destruct (isspace c) eqn:E; [done|]. simpl. by rewrite E.
Qed.

Lemma lstrip_app_nonspace (a : str) (c : char) (b : str) :
  isspace c = false -> lstrip (a ++ c :: b) = lstrip a ++ c :: b.
Proof.
  intros Hc. induction a as [|x a IH]; simpl.
  - by rewrite Hc.
  - destruct (isspace x); [exact IH | done].
Qed.

Lemma rstrip_cons (c : char) (t : str) :
  isspace c = false -> rstrip (c :: t) = c :: rstrip t.
Proof.
  intros Hc. unfold rstrip. simpl.
  rewrite lstrip_app_nonspace by done. by rewrite rev_app_distr.
Qed.

Lemma lstrip_fixed_cases (s : str) :
  lstrip s = s <-> match s with [] => True | c :: _ => isspace c = false end.
Proof.
  destruct s as [|c s]; simpl; [done|].
  destruct (isspace c) eqn:E; [|done].
  split; [|done]. intros H.
  destruct (lstrip_split s) as (ws & Hs & _).
  apply (f_equal length) in H. apply (f_equal length) in Hs.
  rewrite length_app in Hs. simpl in H. lia.
Qed.

Lemma strip_lstrip_fixed (s : str) : lstrip (strip s) = strip s.
Proof.
  unfold strip. destruct (lstrip s) as [|c t] eqn:E; [done|].
  assert (Hc : isspace c = false).
  { pose proof (lstrip_idem s) as H. rewrite E in H.
    by apply (lstrip_fixed_cases (c :: t)) in H. }
  rewrite rstrip_cons by done. simpl. by rewrite Hc.
Qed.

Lemma strip_rstrip_fixed (s : str) : rstrip (strip s) = strip s.
Proof.
  unfold strip, rstrip. by rewrite rev_involutive, lstrip_idem.
Qed.

Lemma strip_idem (s : str) : strip (strip s) = strip s.
Proof.
  unfold strip at 1. rewrite strip_lstrip_fixed. apply strip_rstrip_fixed.
Qed.

Lemma strip_fixed_intro (s : str) :
  lstrip s = s -> rstrip s = s -> strip s = s.
Proof. intros H1 H2. unfold strip. by rewrite H1. Qed.

Lemma rstrip_split (s : str) :
  exists ws, s = rstrip s ++ ws /\ Forall (fun c => isspace c = true) ws.
Proof.
  destruct (lstrip_split (rev s)) as (ws & Hs & Hws).
  exists (rev ws). split; [|by apply List.Forall_rev].
  unfold rstrip. rewrite <- rev_app_distr, <- Hs. by rewrite rev_involutive.
Qed.

Lemma strip_split (s : str) :
  exists a b, s = a ++ strip s ++ b
              /\ Forall (fun c => isspace c = true) a
              /\ Forall (fun c => isspace c = true) b.
Proof.
  destruct (lstrip_split s) as (a & Hs & Ha).
  destruct (rstrip_split (lstrip s)) as (b & Hl & Hb).
  exists a, b. split; [|done]. unfold strip. by rewrite <- Hl.
Qed.

Lemma occurs_strip (sub s : str) : occurs sub (strip s) -> occurs sub s.
Proof.
  intros (pre & post & H). destruct (strip_split s) as (a & b & Hs & _).
  exists (a ++ pre), (post ++ b). rewrite Hs, H. by rewrite <- !app_assoc.
Qed.

Lemma occurs_app_mid (sub a s b : str) : occurs sub s -> occurs sub (a ++ s ++ b).
Proof.
  intros (pre & post & ->). exists (a ++ pre), (post ++ b). by rewrite <- !app_assoc.
Qed.

Lemma occurs_refl (s : str) : occurs s s.
Proof. exists [], []. by rewrite app_nil_r. Qed.

Lemma occurs_trans (a b c : str) : occurs a b -> occurs b c -> occurs a c.
Proof. intros Hab (pre & post & ->). by apply occurs_app_mid. Qed.

Lemma contains_occurs (sub s : str) : contains sub s = true <-> occurs sub s.
Proof.
  unfold contains. destruct (find sub s) as [i|] eqn:E.
  - split; [|done]. intros _. apply find_Some in E as (pre & post & -> & _). by exists pre, post.
  - split; [done|]. intros H. by apply find_None in E.
Qed.

Lemma contains_not_occurs (sub s : str) : contains sub s = false <-> ~ occurs sub s.
Proof. rewrite <- contains_occurs. by destruct (contains sub s). Qed.

Lemma strip_spaces_l (ws s : str) :
  Forall (fun c => isspace c = true) ws -> strip (ws ++ s) = strip s.
Proof. intros H. unfold strip. by rewrite lstrip_spaces. Qed.

Lemma lstrip_all_spaces (ws : str) :
  Forall (fun c => isspace c = true) ws -> lstrip ws = [].
Proof. induction 1 as [|c ws Hc _ IH]; simpl; [done|]. by rewrite Hc. Qed.

Lemma rstrip_spaces_r (s ws : str) :
  Forall (fun c => isspace c = true) ws -> rstrip (s ++ ws) = rstrip s.
Proof.
  intros H. unfold rstrip. rewrite rev_app_distr.
  by rewrite lstrip_spaces by (by apply List.Forall_rev).
Qed.

Lemma lstrip_app_spaces_r (s ws : str) :
  Forall (fun c => isspace c = true) ws ->
  lstrip (s ++ ws) = match lstrip s with [] => [] | _ :: _ => lstrip s ++ ws end.
Proof.
  intros H. induction s as [|c s IH]; simpl.
  - by apply lstrip_all_spaces.
  - destruct (isspace c); [exact IH | done].
Qed.

Lemma strip_spaces_r (s ws : str) :
  Forall (fun c => isspace c = true) ws -> strip (s ++ ws) = strip s.
Proof.
  intros H. unfold strip. rewrite lstrip_app_spaces_r by done.
  destruct (lstrip s) as [|c t] eqn:E; [done|]. by rewrite rstrip_spaces_r.
Qed.

(** ** Runs of newlines *)

Lemma nl_runs_ok_occurs (k : nat) (s : str) :
  occurs [NL; NL; NL] s -> nl_runs_ok k s = false.
Proof.
  intros (pre & post & ->). revert k. induction pre as [|c pre IH]; intros k.
  - simpl. destruct k as [|[|k]]; reflexivity.
  - simpl. destruct (c =? NL)%N; [|apply IH].
    rewrite IH. apply andb_false_r.
Qed.

Lemma nl_runs_ok_false (k : nat) (s : str) :
  nl_runs_ok k s = false -> occurs [NL; NL; NL] (replicate k NL ++ s).
Proof.
  revert k. induction s as [|c s IH]; intros k; simpl; [done|].
  destruct (c =? NL)%N eqn:E.
  - apply N.eqb_eq in E. subst c. intros H.
    assert (Hr : replicate k NL ++ NL :: s = replicate (S k) NL ++ s).
    { rewrite replicate_S_end, <- app_assoc. reflexivity. }
    apply andb_false_iff in H as [H|H].
    + apply Nat.ltb_ge in H. rewrite Hr.
      replace (S k) with ((k - 2) + 3) by lia. rewrite replicate_add.
      exists (replicate (k - 2) NL), s. by rewrite <- app_assoc.
    + rewrite Hr. by apply IH.
  - intros H. apply IH in H. simpl in H.
    destruct H as (pre & post & ->).
    exists (replicate k NL ++ c :: pre), post. by rewrite <- app_assoc.
Qed.

Lemma nl_runs_ok_iff (s : str) : nl_runs_ok 0 s = true <-> ~ occurs [NL; NL; NL] s.
Proof.
  split.
  - intros H Ho. by rewrite (nl_runs_ok_occurs 0 s Ho) in H.
  - intros H. destruct (nl_runs_ok 0 s) eqn:E; [done|].
    exfalso. by apply H, (nl_runs_ok_false 0).
Qed.

Lemma nl_runs_ok_emit (k : nat) (c : char) (s : str) :
  (c =? NL)%N = false ->
  nl_runs_ok 0 (Main.emit_newlines k ++ c :: s) = nl_runs_ok 0 s.
Proof.
  intros Hc. unfold Main.emit_newlines.
  destruct k as [|[|[|k]]]; simpl; by rewrite Hc.
Qed.

Lemma collapse_newlines_go_ok (k : nat) (s : str) :
  nl_runs_ok 0 (Main.collapse_newlines_go k s) = true.
Proof.
  revert k. induction s as [|c s IH]; intros k; simpl.
  - unfold Main.emit_newlines. by destruct k as [|[|[|k]]].
  - destruct (c =? NL)%N eqn:E; [apply IH|].
    rewrite nl_runs_ok_emit by done. apply IH.
Qed.

Lemma collapse_newlines_go_fixed (k : nat) (s : str) :
  k <= 2 -> nl_runs_ok k s = true ->
  Main.collapse_newlines_go k s = replicate k NL ++ s.
Proof.
  revert k. induction s as [|c s IH]; intros k Hk H; simpl in *.
  - rewrite app_nil_r. unfold Main.emit_newlines.
    by destruct k as [|[|[|k]]]; [..|lia].
  - destruct (c =? NL)%N eqn:E.
    + apply N.eqb_eq in E. subst c. apply andb_true_iff in H as [H1 H2].
      apply Nat.ltb_lt in H1. rewrite IH by (done || lia).
      rewrite replicate_S_end, <- app_assoc. reflexivity.
    + rewrite IH by (done || lia). unfold Main.emit_newlines.
      by destruct k as [|[|[|k]]]; [..|lia].
Qed.

(** ** Lines *)

(** Induction along the way [splitlines] reads a text. *)
Lemma splitlines_go_ind (P : str -> str -> list str -> Prop) :
  (forall cur, P cur [] (match cur with [] => [] | _ => [cur] end)) ->
  (forall cur, P cur [CR] [cur]) ->
  (forall cur t, P [] t (splitlines_go [] t) ->
                 P cur (CR :: NL :: t) (cur :: splitlines_go [] t)) ->
  (forall cur d t, (d =? NL)%N = false ->
                   P [] (d :: t) (splitlines_go [] (d :: t)) ->
                   P cur (CR :: d :: t) (cur :: splitlines_go [] (d :: t))) ->
  (forall cur c t, (c =? CR)%N = false -> is_linebreak c = true ->
                   P [] t (splitlines_go [] t) ->
                   P cur (c :: t) (cur :: splitlines_go [] t)) ->
  (forall cur c t, is_linebreak c = false ->
                   P (cur ++ [c]) t (splitlines_go (cur ++ [c]) t) ->
                   P cur (c :: t) (splitlines_go (cur ++ [c]) t)) ->
  forall cur s, P cur s (splitlines_go cur s).
Proof.
  intros Hnil Hcr Hcrnl Hcrd Hbr Hch cur s.
  remember (length s) as n eqn:Hn. revert cur s Hn.
  induction n as [n IH] using lt_wf_ind. intros cur s Hn.
  destruct s as [|c t]; [apply Hnil|].
  cbn [splitlines_go]. destruct (c =? CR)%N eqn:E.
  - apply N.eqb_eq in E. subst c.
    destruct t as [|d t']; [apply Hcr|].
    destruct (d =? NL)%N eqn:Ed.
    + apply N.eqb_eq in Ed. subst d. apply Hcrnl.
      eapply IH; [|reflexivity]. simpl in *. lia.
    + apply Hcrd; [done|]. eapply IH; [|reflexivity]. simpl in *. lia.
  - destruct (is_linebreak c) eqn:L.
    + apply Hbr; [done..|]. eapply IH; [|reflexivity]. simpl in *. lia.
    + apply Hch; [done|]. eapply IH; [|reflexivity]. simpl in *. lia.
Qed.

Lemma splitlines_go_single (cur s : str) :
  single_line cur -> Forall single_line (splitlines_go cur s).
Proof.
  revert cur s.
  apply (splitlines_go_ind (fun cur s ls => single_line cur -> Forall single_line ls)).
  - intros cur H. destruct cur; [constructor | by constructor].
  - intros cur H. by constructor.
  - intros cur t IH H. constructor; [done|]. apply IH. constructor.
  - intros cur d t _ IH H. constructor; [done|]. apply IH. constructor.
  - intros cur c t _ _ IH H. constructor; [done|]. apply IH. constructor.
  - intros cur c t L IH H. apply IH. apply Forall_app. split; [done|]. by constructor.
Qed.

Lemma splitlines_single (s : str) : Forall single_line (splitlines s).
Proof. apply splitlines_go_single. constructor. Qed.

Lemma single_line_newline_only (s : str) : single_line s -> newline_only s.
Proof.
  unfold single_line, newline_only. intros Hs. eapply Forall_impl; [exact Hs|].
  simpl. intros c H H'. congruence.
Qed.

Lemma newline_only_join (ls : list str) :
  Forall single_line ls -> newline_only (join [NL] ls).
Proof.
  induction 1 as [|l ls Hl Hls IH]; [constructor|].
  destruct ls as [|l2 ls']; [by apply single_line_newline_only|].
  change (join [NL] (l :: l2 :: ls')) with (l ++ [NL] ++ join [NL] (l2 :: ls')).
  apply Forall_app. split; [by apply single_line_newline_only|].
  apply Forall_app. split; [by repeat constructor | done].
Qed.

Lemma newline_only_emit (k : nat) : newline_only (Main.emit_newlines k).
Proof. unfold Main.emit_newlines. destruct (k <? 3); [apply Forall_replicate|]; by repeat constructor. Qed.

Lemma newline_only_collapse_go (k : nat) (s : str) :
  newline_only s -> newline_only (Main.collapse_newlines_go k s).
Proof.
  intros H. revert k. induction H as [|c s Hc Hs IH]; intros k; simpl.
  - apply newline_only_emit.
  - destruct (c =? NL)%N; [apply IH|].
    apply Forall_app. split; [apply newline_only_emit|]. constructor; [done | apply IH].
Qed.

Lemma Forall_filter_lines (Q : str -> Prop) (f : str -> bool) (ls : list str) :
  Forall Q ls -> Forall Q (List.filter f ls).
Proof.
  induction 1 as [|l ls Hl _ IH]; simpl; [constructor|].
  destruct (f l); [by constructor | done].
Qed.

Lemma clean_model_text_unfold (text : str) :
  text <> [] ->
  Main.clean_model_text text
  = strip (Main.collapse_newlines (join [NL] (List.filter Main.keep_line (splitlines
      (Main.sub_links (remove_fences
         (unquote
            (replace [BACKSLASH; 116%N] [TAB]
               (replace [BACKSLASH; 114%N] [CR]
                  (replace [BACKSLASH; 110%N] [NL] text)))))))))).
Proof. destruct text; [done | reflexivity]. Qed.

(** X1.  The result of [clean_model_text] is trimmed (stripping it again
    changes nothing, on either side) and holds no run of three newlines,
    whatever the input. *)
Theorem clean_model_text_tidy (text : str) :
  lstrip (Main.clean_model_text text) = Main.clean_model_text text /\
  rstrip (Main.clean_model_text text) = Main.clean_model_text text /\
  strip (Main.clean_model_text text) = Main.clean_model_text text /\
  ~ occurs [NL; NL; NL] (Main.clean_model_text text).
Proof.
  destruct (decide (text = [])) as [->|Hne].
  - repeat split; try reflexivity. intros (pre & post & H). by destruct pre.
  - rewrite (clean_model_text_unfold text Hne).
    split; [apply strip_lstrip_fixed|]. split; [apply strip_rstrip_fixed|].
    split; [apply strip_idem|].
    intros Ho. apply occurs_strip in Ho.
    apply (nl_runs_ok_occurs 0) in Ho.
    unfold Main.collapse_newlines in Ho. by rewrite collapse_newlines_go_ok in Ho.
Qed.

(** X2.  In the result of [clean_model_text] the newline is the only line
    boundary: no carriage return, vertical tab, form feed, U+001C..U+001E,
    U+0085, U+2028 or U+2029 is left, whatever the input. *)
Theorem clean_model_text_newline_only (text : str) :
  newline_only (Main.clean_model_text text).
Proof.
  destruct (decide (text = [])) as [->|Hne]; [constructor|].
  rewrite (clean_model_text_unfold text Hne).
  apply Forall_strip. apply newline_only_collapse_go.
  apply newline_only_join. apply Forall_filter_lines. apply splitlines_single.
Qed.

(** ** Text without markup *)

Lemma replace_go_absent (h : char) (old' new s : str) :
  Forall (fun c => (c =? h)%N = false) s -> replace_go (h :: old') new 0 s = s.
Proof.
  induction 1 as [|c s Hc _ IH]; [done|].
  cbn [replace_go startswith]. rewrite N.eqb_sym, Hc. simpl. by rewrite IH.
Qed.

Lemma link_at_None (c : char) (t : str) : (c =? 91)%N = false -> Main.link_at (c :: t) = None.
Proof.
  intros H. apply N.eqb_neq in H. unfold Main.link_at.
  destruct c as [|p]; [done|].
  repeat (destruct p as [p|p|]; try reflexivity). all: done.
Qed.

Lemma sub_links_go_absent (s : str) :
  Forall (fun c => (c =? 91)%N = false) s -> Main.sub_links_go 0 s = s.
Proof.
  induction 1 as [|c s Hc _ IH]; [done|].
  cbn [Main.sub_links_go]. rewrite link_at_None by done. by rewrite IH.
Qed.

Lemma markup_free (s : str) :
  Forall (fun c => is_markup_char c = false) s ->
  Forall (fun c => (c =? BACKSLASH)%N = false) s
  /\ Forall (fun c => (c =? BACKTICK)%N = false) s
  /\ Forall (fun c => (c =? 91)%N = false) s.
Proof.
  intros H. repeat split; (eapply Forall_impl; [exact H|]); simpl; intros c Hc;
    unfold is_markup_char in Hc; apply orb_false_iff in Hc as [Hc H3];
    apply orb_false_iff in Hc as [H1 H2]; done.
Qed.

Lemma not_newline_only_CR (t : str) : ~ newline_only (CR :: t).
Proof. intros H. apply Forall_cons in H as [H _]. specialize (H eq_refl). discriminate. Qed.

Lemma join_cons2 (sep l : str) (ls : list str) :
  ls <> [] -> join sep (l :: ls) = l ++ sep ++ join sep ls.
Proof. destruct ls; [done | reflexivity]. Qed.

Lemma join_splitlines_go (cur s : str) :
  newline_only s -> (forall pre, cur ++ s <> pre ++ [NL]) ->
  join [NL] (splitlines_go cur s) = cur ++ s.
Proof.
  revert cur s.
  apply (splitlines_go_ind (fun cur s ls =>
           newline_only s -> (forall pre, cur ++ s <> pre ++ [NL]) -> join [NL] ls = cur ++ s)).
  - intros cur _ _. rewrite app_nil_r. by destruct cur.
  - intros cur H. by apply not_newline_only_CR in H.
  - intros cur t _ H. by apply not_newline_only_CR in H.
  - intros cur d t _ _ H. by apply not_newline_only_CR in H.
  - intros cur c t _ L IH H Hend.
    apply Forall_cons in H as [Hc Ht]. specialize (Hc L). subst c.
    assert (Hne : t <> []) by (intros ->; by apply (Hend cur)).
    assert (Hj : join [NL] (splitlines_go [] t) = t).
    { apply IH; [done|]. intros pre Hpre. simpl in Hpre. subst t.
      apply (Hend (cur ++ NL :: pre)). by rewrite <- app_assoc. }
    rewrite join_cons2; [by rewrite Hj|].
    intros Hnil. rewrite Hnil in Hj. by subst t.
  - intros cur c t L IH H Hend.
    apply Forall_cons in H as [_ Ht]. rewrite IH; [by rewrite <- app_assoc|done|].
    intros pre. rewrite <- app_assoc. apply Hend.
Qed.

Lemma splitlines_go_occurs (cur s : str) :
  Forall (fun l => occurs l (cur ++ s)) (splitlines_go cur s).
Proof.
  revert cur s.
  apply (splitlines_go_ind (fun cur s ls => Forall (fun l => occurs l (cur ++ s)) ls)).
  - intros cur. destruct cur; [constructor|]. constructor; [|constructor].
    rewrite app_nil_r. apply occurs_refl.
  - intros cur. constructor; [|constructor]. by exists [], [CR].
  - intros cur t IH. constructor; [by exists [], (CR :: NL :: t)|].
    eapply Forall_impl; [exact IH|]. simpl. intros l (pre & post & ->).
    exists (cur ++ CR :: NL :: pre), post. by rewrite <- app_assoc.
  - intros cur d t _ IH. constructor; [by exists [], (CR :: d :: t)|].
    eapply Forall_impl; [exact IH|]. simpl. intros l (pre & post & ->).
    exists (cur ++ CR :: pre), post. by rewrite <- app_assoc.
  - intros cur c t _ _ IH. constructor; [by exists [], (c :: t)|].
    eapply Forall_impl; [exact IH|]. simpl. intros l (pre & post & ->).
    exists (cur ++ c :: pre), post. by rewrite <- app_assoc.
  - intros cur c t _ IH. by rewrite <- app_assoc in IH.
Qed.

Lemma keep_line_no_ellipsis (l : str) : ~ occurs Main.ELLIPSIS l -> Main.keep_line l = true.
Proof.
  intros H. unfold Main.keep_line.
  assert (Hs : ~ occurs Main.ELLIPSIS (strip l)) by (intros Ho; by apply H, occurs_strip).
  destruct (startswith (strip l) Main.ELLIPSIS) eqn:E.
  - exfalso. apply Hs. apply startswith_iff in E as [r ->]. by exists [], r.
  - apply contains_not_occurs in Hs. rewrite Hs. by rewrite andb_false_r.
Qed.

Lemma filter_all {A} (f : A -> bool) (l : list A) :
  Forall (fun x => f x = true) l -> List.filter f l = l.
Proof. induction 1 as [|x l Hx _ IH]; simpl; [done|]. by rewrite Hx, IH. Qed.

Lemma strip_fixed_parts (s : str) : strip s = s -> lstrip s = s /\ rstrip s = s.
Proof.
  intros H. split.
  - pose proof (strip_lstrip_fixed s) as H1. by rewrite H in H1.
  - pose proof (strip_rstrip_fixed s) as H1. by rewrite H in H1.
Qed.

Lemma rstrip_fixed_last (s pre : str) (c : char) :
  rstrip s = s -> s = pre ++ [c] -> isspace c = false.
Proof.
  intros H ->. destruct (isspace c) eqn:E; [|done]. exfalso.
  rewrite (rstrip_spaces_r pre [c]) in H by (by repeat constructor).
  destruct (rstrip_split pre) as (ws & Hp & _).
  apply (f_equal length) in H. apply (f_equal length) in Hp.
  rewrite !length_app in *. simpl in H. lia.
Qed.

(** X3.  Text without markup passes through [clean_model_text] unchanged:
    a trimmed text with no backslash, backtick or opening bracket, no line
    boundary other than the newline, no three dots in a row and no three
    newlines in a row is returned as it is. *)
Theorem clean_model_text_plain (text : str) :
  Forall (fun c => is_markup_char c = false) text ->
  newline_only text ->
  ~ occurs Main.ELLIPSIS text ->
  ~ occurs [NL; NL; NL] text ->
  strip text = text ->
  Main.clean_model_text text = text.
Proof.
  intros Hm Hnl Hell Hruns Htrim.
  destruct (decide (text = [])) as [->|Hne]; [reflexivity|].
  rewrite (clean_model_text_unfold text Hne).
  destruct (markup_free text Hm) as (Hb & Hq & Hl).
  assert (E1 : replace [BACKSLASH; 110%N] [NL] text = text)
    by (by apply (replace_go_absent BACKSLASH)).
  assert (E2 : replace [BACKSLASH; 114%N] [CR] text = text)
    by (by apply (replace_go_absent BACKSLASH)).
  assert (E3 : replace [BACKSLASH; 116%N] [TAB] text = text)
    by (by apply (replace_go_absent BACKSLASH)).
  assert (E4 : unquote text = text)
    by (by apply (replace_go_absent BACKSLASH (lit "u0022"))).
  assert (E5 : remove_fences text = text)
    by (by apply (replace_go_absent BACKTICK)).
  rewrite E1, E2, E3, E4, E5. unfold Main.sub_links.
  rewrite sub_links_go_absent by done.
  rewrite filter_all.
  - unfold splitlines. rewrite join_splitlines_go; [|done|].
    + simpl. unfold Main.collapse_newlines.
      rewrite collapse_newlines_go_fixed; [done | lia | by apply nl_runs_ok_iff].
    + simpl. intros pre Hpre.
      apply strip_fixed_parts in Htrim as [_ Hr].
      by pose proof (rstrip_fixed_last text pre NL Hr Hpre).
  - pose proof (splitlines_go_occurs [] text) as Hocc.
    eapply Forall_impl; [exact Hocc|]. simpl. intros l Hl'.
    apply keep_line_no_ellipsis. intros Ho. apply Hell. by eapply occurs_trans.
Qed.

Lemma clean_model_text_plain_witness :
  Main.clean_model_text (lit "Dear team," ++ [NL; NL] ++ lit "I would like to apply.")
  = lit "Dear team," ++ [NL; NL] ++ lit "I would like to apply.".
Proof.
  apply clean_model_text_plain.
  - vm_compute. repeat (constructor; [done|]). constructor.
  - vm_compute. repeat (constructor; [done|]). constructor.
  - apply contains_not_occurs. reflexivity.
  - apply contains_not_occurs. reflexivity.
  - reflexivity.
Defined.

(** ** The lines of the normalized text *)

Lemma single_line_head (c : char) (l : str) :
  single_line (c :: l) -> (c =? CR)%N = false /\ is_linebreak c = false /\ single_line l.
Proof.
  intros H. apply Forall_cons in H as [Hc Hl]. split; [|done].
  destruct (c =? CR)%N eqn:E; [|done]. apply N.eqb_eq in E. by subst c.
Qed.

Lemma splitlines_go_app_single (cur l rest : str) :
  single_line l -> splitlines_go cur (l ++ rest) = splitlines_go (cur ++ l) rest.
Proof.
  revert cur. induction l as [|c l IH]; intros cur H.
  - by rewrite app_nil_r.
  - apply single_line_head in H as (H1 & H2 & H3).
    simpl. rewrite H1, H2, (IH _ H3). by rewrite <- app_assoc.
Qed.

Lemma splitlines_go_NL (cur rest : str) :
  splitlines_go cur (NL :: rest) = cur :: splitlines_go [] rest.
Proof. reflexivity. Qed.

Lemma splitlines_join (P : str -> Prop) (ls : list str) :
  Forall single_line ls -> Forall P ls -> Forall P (splitlines (join [NL] ls)).
Proof.
  intros Hs. induction Hs as [|l ls Hl Hls IH]; intros HP; [constructor|].
  apply Forall_cons in HP as [Pl Pls]. unfold splitlines in *.
  destruct ls as [|l2 ls'].
  - simpl. rewrite <- (app_nil_r l), splitlines_go_app_single by done.
    simpl. destruct l; [constructor | by repeat constructor].
  - change (join [NL] (l :: l2 :: ls')) with (l ++ NL :: join [NL] (l2 :: ls')).
    rewrite splitlines_go_app_single by done. simpl app.
    rewrite splitlines_go_NL. constructor; [done | by apply IH].
Qed.

Lemma splitlines_go_replicate (cur rest : str) (k : nat) :
  splitlines_go cur (replicate (S k) NL ++ rest)
  = cur :: replicate k [] ++ splitlines_go [] rest.
Proof.
  revert cur. induction k as [|k IH]; intros cur; [reflexivity|].
  change (replicate (S (S k)) NL ++ rest) with (NL :: (replicate (S k) NL ++ rest)).
  rewrite splitlines_go_NL, IH. reflexivity.
Qed.

Lemma Forall_lines_runs (P : str -> Prop) (cur rest : str) (j k : nat) :
  P [] ->
  Forall P (splitlines_go cur (replicate (S j) NL ++ rest)) ->
  Forall P (splitlines_go cur (replicate (S k) NL ++ rest)).
Proof.
  intros Pnil. rewrite !splitlines_go_replicate.
  intros H. apply Forall_cons in H as [Pc H]. apply Forall_app in H as [_ H].
  constructor; [done|]. apply Forall_app. split; [|done].
  by apply Forall_replicate.
Qed.

Lemma emit_newlines_replicate (k : nat) :
  Main.emit_newlines k = replicate (Nat.min k 2) NL.
Proof. unfold Main.emit_newlines. by destruct k as [|[|[|k]]]. Qed.

Lemma Forall_lines_emit (P : str -> Prop) (cur rest : str) (k : nat) :
  P [] ->
  Forall P (splitlines_go cur (replicate k NL ++ rest)) ->
  Forall P (splitlines_go cur (Main.emit_newlines k ++ rest)).
Proof.
  intros Pnil H. rewrite emit_newlines_replicate.
  destruct k as [|k]; [done|].
  replace (Nat.min (S k) 2) with (S (Nat.min k 1)) by lia.
  by apply (Forall_lines_runs P cur rest k).
Qed.

Lemma splitlines_collapse_go (P : str -> Prop) (k : nat) (cur s : str) :
  P [] -> newline_only s ->
  Forall P (splitlines_go cur (replicate k NL ++ s)) ->
  Forall P (splitlines_go cur (Main.collapse_newlines_go k s)).
Proof.
  intros Pnil Hs. revert k cur. induction Hs as [|c s Hc Hs IH]; intros k cur H.
  - simpl. rewrite <- (app_nil_r (Main.emit_newlines k)). by apply Forall_lines_emit.
  - simpl. destruct (c =? NL)%N eqn:E.
    + apply N.eqb_eq in E. subst c. apply IH.
      by rewrite replicate_S_end, <- app_assoc.
    + assert (L : is_linebreak c = false).
      { destruct (is_linebreak c) eqn:L; [|done].
        specialize (Hc eq_refl). subst c. discriminate. }
      assert (Ecr : (c =? CR)%N = false).
      { destruct (c =? CR)%N eqn:Ecr; [|done]. apply N.eqb_eq in Ecr. by subst c. }
      apply Forall_lines_emit; [done|].
      destruct k as [|k].
      * simpl in *. rewrite Ecr, L in *. apply (IH 0). exact H.
      * rewrite splitlines_go_replicate in *.
        apply Forall_cons in H as [Pc H]. apply Forall_app in H as [Hr H].
        constructor; [done|]. apply Forall_app. split; [done|].
        simpl in *. rewrite Ecr, L in *. apply (IH 0). exact H.
Qed.

(** Dropping white space in front of the text only shortens its first
    line and removes lines of white space. *)
Lemma splitlines_go_drop_cur (P : str -> Prop) (cur s : str) :
  (forall w l, Forall (fun c => isspace c = true) w -> P (w ++ l) -> P l) ->
  forall w, Forall (fun c => isspace c = true) w ->
            Forall P (splitlines_go (w ++ cur) s) -> Forall P (splitlines_go cur s).
Proof.
  intros Pw. revert cur s.
  apply (splitlines_go_ind (fun cur s ls =>
           forall w, Forall (fun c => isspace c = true) w ->
                     Forall P (splitlines_go (w ++ cur) s) -> Forall P ls)).
  - intros cur w Hw H. simpl in H. destruct cur as [|c cur]; [constructor|].
    destruct (w ++ c :: cur) eqn:E; [by destruct w|]. rewrite <- E in H.
    apply Forall_cons in H as [H _]. constructor; [by eapply Pw | constructor].
  - intros cur w Hw H. simpl in H. apply Forall_cons in H as [H _].
    constructor; [by eapply Pw | constructor].
  - intros cur t _ w Hw H. simpl in H. apply Forall_cons in H as [H Ht].
    constructor; [by eapply Pw | done].
  - intros cur d t Ed _ w Hw H. cbn [splitlines_go] in H.
    rewrite N.eqb_refl, Ed in H. apply Forall_cons in H as [H Ht].
    constructor; [by eapply Pw | done].
  - intros cur c t Ec L _ w Hw H. cbn [splitlines_go] in H. rewrite Ec, L in H.
    apply Forall_cons in H as [H Ht]. constructor; [by eapply Pw | done].
  - intros cur c t L IH w Hw H. cbn [splitlines_go] in H.
    assert (Ec : (c =? CR)%N = false).
    { destruct (c =? CR)%N eqn:Ec; [|done]. apply N.eqb_eq in Ec. by subst c. }
    rewrite Ec, L, <- app_assoc in H. by apply (IH w).
Qed.

Lemma newline_only_head (c : char) (s : str) :
  newline_only (c :: s) ->
  newline_only s /\
  (c = NL \/ ((c =? CR)%N = false /\ is_linebreak c = false)).
Proof.
  intros H. apply Forall_cons in H as [Hc Hs]. split; [done|].
  destruct (is_linebreak c) eqn:L; [left; by apply Hc|]. right. split; [|done].
  destruct (c =? CR)%N eqn:Ec; [|done]. apply N.eqb_eq in Ec. by subst c.
Qed.

Lemma splitlines_go_drop_front (P : str -> Prop) (a : str) :
  (forall w l, Forall (fun c => isspace c = true) w -> P (w ++ l) -> P l) ->
  Forall (fun c => isspace c = true) a -> newline_only a ->
  forall cur s, Forall (fun c => isspace c = true) cur ->
                Forall P (splitlines_go cur (a ++ s)) -> Forall P (splitlines_go [] s).
Proof.
  intros Pw Ha. induction Ha as [|c a Hc Ha IH]; intros Hnl cur s Hcur H.
  - apply (splitlines_go_drop_cur P [] s Pw cur Hcur). by rewrite app_nil_r.
  - change ((c :: a) ++ s) with (c :: (a ++ s)) in H.
    apply newline_only_head in Hnl as [Hnl [->|[Ec L]]].
    + rewrite splitlines_go_NL in H. apply Forall_cons in H as [_ H].
      by apply (IH Hnl []).
    + cbn [splitlines_go] in H. rewrite Ec, L in H.
      apply (IH Hnl (cur ++ [c])); [|done].
      apply Forall_app. split; [done | by repeat constructor].
Qed.

(** The line being read is complete once only white space follows. *)
Lemma splitlines_go_cur_kept (P : str -> Prop) (b : str) :
  (forall w l, Forall (fun c => isspace c = true) w -> P (l ++ w) -> P l) ->
  Forall (fun c => isspace c = true) b -> newline_only b ->
  forall cur, cur <> [] -> Forall P (splitlines_go cur b) -> P cur.
Proof.
  intros Pw Hb. induction Hb as [|c b Hc Hb IH]; intros Hnl cur Hne H.
  - simpl in H. destruct cur; [done|]. by apply Forall_cons in H as [H _].
  - apply newline_only_head in Hnl as [Hnl [->|[Ec L]]].
    + rewrite splitlines_go_NL in H. by apply Forall_cons in H as [H _].
    + cbn [splitlines_go] in H. rewrite Ec, L in H.
      apply IH in H; [|done|by destruct cur].
      apply (Pw [c]); [by repeat constructor | done].
Qed.

Lemma splitlines_go_drop_back (P : str -> Prop) (b : str) :
  (forall w l, Forall (fun c => isspace c = true) w -> P (l ++ w) -> P l) ->
  Forall (fun c => isspace c = true) b -> newline_only b ->
  forall s, newline_only s ->
  forall cur, Forall P (splitlines_go cur (s ++ b)) -> Forall P (splitlines_go cur s).
Proof.
  intros Pw Hb Hnb s Hs. induction Hs as [|c s Hc Hs IH]; intros cur H.
  - simpl in *. destruct cur as [|x cur]; [constructor|].
    constructor; [|constructor]. by apply (splitlines_go_cur_kept P b).
  - change ((c :: s) ++ b) with (c :: (s ++ b)) in H.
    destruct (newline_only_head c s ltac:(by constructor)) as [_ [->|[Ec L]]].
    + rewrite splitlines_go_NL in *. apply Forall_cons in H as [Pc H].
      constructor; [done | by apply IH].
    + cbn [splitlines_go] in *. rewrite Ec, L in *. by apply IH.
Qed.

Lemma keep_line_spaces_l (w l : str) :
  Forall (fun c => isspace c = true) w -> Main.keep_line (w ++ l) = Main.keep_line l.
Proof. intros H. unfold Main.keep_line. by rewrite strip_spaces_l. Qed.

Lemma keep_line_spaces_r (w l : str) :
  Forall (fun c => isspace c = true) w -> Main.keep_line (l ++ w) = Main.keep_line l.
Proof. intros H. unfold Main.keep_line. by rewrite strip_spaces_r. Qed.

Lemma splitlines_strip_kept (s : str) :
  newline_only s ->
  Forall (fun l => Main.keep_line l = true) (splitlines s) ->
  Forall (fun l => Main.keep_line l = true) (splitlines (strip s)).
Proof.
  intros Hnl H. destruct (strip_split s) as (a & b & Hs & Ha & Hb).
  rewrite Hs in Hnl, H. apply Forall_app in Hnl as [Hna Hnl].
  apply Forall_app in Hnl as [Hns Hnb]. unfold splitlines in *.
  apply (splitlines_go_drop_back _ b); [|done..|].
  { intros w l Hw Hk. by rewrite keep_line_spaces_r in Hk. }
  apply (splitlines_go_drop_front _ a) with (cur := []); [|done..].
  intros w l Hw Hk. by rewrite keep_line_spaces_l in Hk.
Qed.

(** X4.  No line of the result of [clean_model_text] is a placeholder:
    every line of the result passes the test of the loop that drops lines
    (it does not start with three dots after trimming, and does not hold
    both "continued" and three dots), so cleaning the lines again would
    drop nothing. *)
Theorem clean_model_text_no_placeholder (text : str) :
  Forall (fun line => Main.keep_line line = true)
         (splitlines (Main.clean_model_text text)).
Proof.
  destruct (decide (text = [])) as [->|Hne]; [constructor|].
  rewrite (clean_model_text_unfold text Hne).
  set (ls := List.filter Main.keep_line _).
  assert (Hsingle : Forall single_line ls).
  { apply Forall_filter_lines, splitlines_single. }
  assert (Hkept : Forall (fun l => Main.keep_line l = true) ls).
  { apply List.Forall_forall. intros l Hl. by apply filter_In in Hl as [_ Hl]. }
  apply splitlines_strip_kept.
  - apply newline_only_collapse_go. by apply newline_only_join.
  - unfold splitlines, Main.collapse_newlines.
    apply splitlines_collapse_go; [reflexivity | by apply newline_only_join |].
    by apply (splitlines_join _ ls).
Qed.

(** ** What [extract_block] returns *)

Lemma find_first (sub s : str) (k : nat) :
  find sub s = Some k -> forall pre post, s = pre ++ sub ++ post -> k <= length pre.
Proof.
  revert k. induction s as [|c s IH]; intros k; cbn [find].
  - destruct (startswith [] sub); [|done]. intros [= <-] pre post _. lia.
  - destruct (startswith (c :: s) sub) eqn:E; [intros [= <-] pre post _; lia|].
    destruct (find sub s) as [j|] eqn:Ej; [|done]. simpl. intros [= <-] pre post H.
    destruct pre as [|x pre].
    + exfalso. simpl in H. rewrite H, startswith_app in E. done.
    + simpl in H. injection H as -> ->. simpl.
      specialize (IH j eq_refl pre post eq_refl). lia.
Qed.

Lemma find_before (sub s : str) (k : nat) :
  sub <> [] -> find sub s = Some k -> ~ occurs sub (take k s).
Proof.
  intros Hne Hf (pre & post & H).
  assert (Hs : s = pre ++ sub ++ (post ++ drop k s)).
  { rewrite <- (take_drop k s) at 1. rewrite H. by rewrite <- !app_assoc. }
  pose proof (find_first sub s k Hf _ _ Hs) as Hk.
  apply (f_equal length) in H. rewrite length_take, !length_app in H.
  destruct sub; [done|]. simpl in H. lia.
Qed.

Lemma occurs_nil (s : str) : occurs [] s.
Proof. by exists [], s. Qed.

Lemma occurs_take_drop (s : str) (i n : nat) : occurs (take n (drop i s)) s.
Proof.
  exists (take i s), (drop n (drop i s)).
  by rewrite take_drop, take_drop.
Qed.

Lemma occurs_strip_self (s : str) : occurs (strip s) s.
Proof. destruct (strip_split s) as (a & b & H & _). by exists a, b. Qed.

(** X5.  The block that [extract_block] returns is a piece of the text
    (nothing is invented), it is trimmed, and a non-empty end tag never
    occurs inside it; without the start tag the block is empty. *)
Theorem extract_block_inside (text start_tag end_tag : str) :
  occurs (Main.extract_block text start_tag end_tag) text /\
  strip (Main.extract_block text start_tag end_tag)
  = Main.extract_block text start_tag end_tag /\
  (end_tag <> [] -> ~ occurs end_tag (Main.extract_block text start_tag end_tag)) /\
  (~ occurs start_tag text -> Main.extract_block text start_tag end_tag = []).
Proof.
  unfold Main.extract_block.
  destruct (find start_tag text) as [i|] eqn:Ei.
  - destruct (find_Some _ _ _ Ei) as (pre & post & Htext & Hlen).
    unfold find_from, slice.
    assert ((length text <? i + length start_tag) = false) as ->.
    { apply Nat.ltb_ge. rewrite Htext, !length_app. lia. }
    split; [|split; [|split]].
    + eapply occurs_trans; [apply occurs_strip_self | apply occurs_take_drop].
    + apply strip_idem.
    + intros Hne Ho. apply occurs_strip in Ho.
      destruct (find end_tag (drop (i + length start_tag) text)) as [k|] eqn:Ek; simpl in Ho.
      * rewrite Nat.add_sub' in Ho. by apply (find_before end_tag _ k Hne Ek).
      * rewrite take_ge in Ho by (rewrite length_drop; lia).
        by apply find_None in Ek.
    + intros Habs. exfalso. apply Habs. rewrite Htext. by exists pre, post.
  - split; [apply occurs_nil|]. split; [reflexivity|]. split; [|done].
    intros Hne (pre & post & H). destruct pre; [by destruct end_tag | done].
Qed.

Lemma extract_block_inside_witness :
  lit "END" <> []
  /\ ~ occurs (lit "END") (Main.extract_block (lit "A: body END") (lit "A:") (lit "END")).
Proof.
  split; [discriminate|].
  apply (proj1 (proj2 (proj2 (extract_block_inside (lit "A: body END") (lit "A:")
                                  (lit "END"))))).
  discriminate.
Defined.

(** ** The fit score *)

Lemma span_Forall (P : char -> bool) (s a b : str) :
  span P s = (a, b) -> Forall (fun c => P c = true) a.
Proof.
  revert a b. induction s as [|c s IH]; intros a b; simpl.
  - intros [= <- <-]. constructor.
  - destruct (P c) eqn:E; [|intros [= <- <-]; constructor].
    destruct (span P s) as [a' b'] eqn:Es. intros [= <- <-].
    constructor; [done|]. by eapply IH.
Qed.

Lemma fit_score_at_digits (s ds fs : str) :
  Main.fit_score_at s = Some (ds, fs) ->
  Forall (fun c => isdigit c = true) ds /\ Forall (fun c => isdigit c = true) fs.
Proof.
  unfold Main.fit_score_at. destruct (startswith s _); [|done].
  destruct (span isdigit (lstrip (drop 10 s))) as [ds' r1] eqn:E1.
  apply span_Forall in E1. destruct ds' as [|d ds']; [done|].
  destruct r1 as [|c r2]; [intros [= <- <-]; split; [done | constructor]|].
  destruct (span isdigit r2) as [fs' r3] eqn:E2. apply span_Forall in E2.
  destruct c as [|p]; [intros [= <- <-]; split; [done | constructor]|].
  repeat (destruct p as [p|p|]; try (intros [= <- <-]; split; [done | constructor])).
  intros [= <- <-]. done.
Qed.

Lemma fit_score_search_digits (s ds fs : str) :
  Main.fit_score_search s = Some (ds, fs) ->
  Forall (fun c => isdigit c = true) ds /\ Forall (fun c => isdigit c = true) fs.
Proof.
  induction s as [|c s IH]; cbn [Main.fit_score_search].
  - destruct (Main.fit_score_at []) as [m|] eqn:E; [|done].
    intros [= ->]. by eapply fit_score_at_digits.
  - destruct (Main.fit_score_at (c :: s)) as [m|] eqn:E; [|exact IH].
    intros [= ->]. by eapply fit_score_at_digits.
Qed.

Lemma int_of_digits_fold_nonneg (ds : str) (acc : Z) :
  Forall (fun c => isdigit c = true) ds -> (0 <= acc)%Z ->
  (0 <= fold_left (fun acc d => 10 * acc + (Z.of_N d - 48)) ds acc)%Z.
Proof.
  intros H. revert acc. induction H as [|d ds Hd _ IH]; intros acc Hacc; simpl; [done|].
  apply IH. unfold isdigit, in_range in Hd.
  apply andb_true_iff in Hd as [H1 H2]. apply N.leb_le in H1. lia.
Qed.

Lemma int_of_digits_nonneg (ds : str) :
  Forall (fun c => isdigit c = true) ds -> (0 <= int_of_digits ds)%Z.
Proof. intros H. by apply int_of_digits_fold_nonneg. Qed.

Lemma float_of_decimal_nonneg (ds fs : str) :
  Forall (fun c => isdigit c = true) ds -> Forall (fun c => isdigit c = true) fs ->
  (0 <= Main.float_of_decimal ds fs)%Q.
Proof.
  intros Hds Hfs. apply int_of_digits_nonneg in Hds, Hfs.
  unfold Main.float_of_decimal. destruct fs as [|f fs].
  - unfold Qle. simpl. lia.
  - rewrite Qred_correct.
    apply (Qle_trans _ (inject_Z (int_of_digits ds) + 0)).
    + unfold Qle. simpl. lia.
    + apply Qplus_le_compat; [apply Qle_refl|]. unfold Qle. simpl. lia.
Qed.

(** X6.  The fit score that [parse_model_output] returns is never
    negative: the pattern reads digits only, with no sign. *)
Theorem parse_fit_score_nonneg (raw : str) (fit : Q) (reasoning cover resume : str)
    (answers : list str) :
  Main.parse_model_output raw = Ok (fit, reasoning, cover, resume, answers) ->
  (0 <= fit)%Q.
Proof.
  unfold Main.parse_model_output.
  destruct (Main.fit_score_search raw) as [[ds fs]|] eqn:E; [|done].
  intros [= <- _ _ _ _]. apply fit_score_search_digits in E as [Hds Hfs].
  by apply float_of_decimal_nonneg.
Qed.

Lemma parse_fit_score_nonneg_witness :
  Main.parse_model_output (lit "FIT_SCORE: 73") = Ok (73%Q, [], [], [], [[]; []; []])
  /\ (0 <= 73)%Q.
Proof.
  split; [reflexivity|].
  apply (parse_fit_score_nonneg (lit "FIT_SCORE: 73") 73 [] [] [] [[]; []; []]).
  reflexivity.
Defined.

(** ** Decimal digits read back *)

Lemma digits_go_read (fuel n : nat) (acc : str) :
  n < fuel ->
  fold_left (fun a d => 10 * a + (Z.of_N d - 48))%Z (digits_go fuel n acc) 0%Z
  = fold_left (fun a d => 10 * a + (Z.of_N d - 48))%Z acc (Z.of_nat n).
Proof.
  revert n acc. induction fuel as [|fuel IH]; intros n acc Hn; [lia|].
  rewrite digits_go_S. destruct (n / 10) as [|q] eqn:E.
  - cbn [fold_left]. f_equal. lia.
  - rewrite <- E. rewrite IH by lia. cbn [fold_left]. f_equal. lia.
Qed.

Lemma int_of_str_of_nat (n : nat) : int_of_digits (str_of_nat n) = Z.of_nat n.
Proof. unfold int_of_digits, str_of_nat. by rewrite digits_go_read by lia. Qed.

Lemma digits_go_digits (fuel n : nat) (acc : str) :
  Forall (fun c => isdigit c = true) acc ->
  Forall (fun c => isdigit c = true) (digits_go fuel n acc).
Proof.
  revert n acc. induction fuel as [|fuel IH]; intros n acc H; [done|].
  rewrite digits_go_S.
  assert (H' : Forall (fun c => isdigit c = true) (N.of_nat (48 + n mod 10) :: acc))
    by (constructor; [apply digit_char | done]).
  destruct (n / 10) as [|q] eqn:E; [done|]. by apply IH.
Qed.

Lemma digits_go_length (fuel n : nat) (acc : str) :
  length acc <= length (digits_go fuel n acc).
Proof.
  revert n acc. induction fuel as [|fuel IH]; intros n acc; [done|].
  rewrite digits_go_S. destruct (n / 10) as [|q]; [simpl; lia|].
  etrans; [|apply IH]. simpl. lia.
Qed.

Lemma str_of_nat_digits (n : nat) :
  Forall (fun c => isdigit c = true) (str_of_nat n) /\ str_of_nat n <> [].
Proof.
  split; [apply digits_go_digits; constructor|].
  unfold str_of_nat. rewrite digits_go_S.
  destruct (n / 10) as [|q]; [done|].
  intros H. pose proof (digits_go_length n (S q) [N.of_nat (48 + n mod 10)]) as Hl.
  rewrite H in Hl. simpl in Hl. lia.
Qed.

Lemma find_digits_None (sub ds : str) :
  match sub with c :: _ => isdigit c = false | [] => False end ->
  Forall (fun c => isdigit c = true) ds -> find sub ds = None.
Proof.
  intros Hsub Hds. apply find_None. intros (pre & post & ->).
  destruct sub as [|c sub]; [done|].
  apply Forall_app in Hds as [_ Hds]. apply Forall_cons in Hds as [Hc _]. congruence.
Qed.

Lemma score_line_no_tag (tag ds : str) :
  clear_of tag (lit "FIT_SCORE: ") = true ->
  match tag with c :: _ => isdigit c = false | [] => False end ->
  Forall (fun c => isdigit c = true) ds ->
  ~ occurs tag (lit "FIT_SCORE: " ++ ds).
Proof.
  intros Hclear Htag Hds. apply find_None.
  rewrite find_skip_lit by done. by rewrite find_digits_None.
Qed.

(** X7.  A response that is only the score line is read back exactly:
    for every whole number [n] (below 2^53, where a float holds it
    exactly) the text "FIT_SCORE: " followed by the decimal digits of [n]
    parses to the fit score [n], with empty sections and three empty
    answers.  The score is not clamped to the range 0 to 100. *)
Theorem parse_score_line (n : N) :
  (n < 2 ^ 53)%N ->
  Main.parse_model_output (lit "FIT_SCORE: " ++ str_of_nat (N.to_nat n))
  = Ok (inject_Z (Z.of_N n), [], [], [], [[]; []; []]).
Proof.
  intros _. destruct (str_of_nat_digits (N.to_nat n)) as [Hds Hne].
  set (ds := str_of_nat (N.to_nat n)) in *.
  assert (Hsearch : Main.fit_score_search (lit "FIT_SCORE: " ++ ds) = Some (ds, [])).
  { assert (Hat : Main.fit_score_at (lit "FIT_SCORE: " ++ ds) = Some (ds, [])).
    { unfold Main.fit_score_at.
      change (startswith (lit "FIT_SCORE: " ++ ds) (lit "FIT_SCORE:")) with true.
      change (drop 10 (lit "FIT_SCORE: " ++ ds)) with (32%N :: ds).
      change (lstrip (32%N :: ds)) with (lstrip ds).
      destruct ds as [|d ds'] eqn:Eds; [done|].
      apply Forall_cons in Hds as [Hd Hds'].
      rewrite (lstrip_head _ _ (digit_not_space _ Hd)).
      rewrite <- (app_nil_r (d :: ds')).
      rewrite span_app_stop; [by rewrite app_nil_r | by constructor | done]. }
    destruct (lit "FIT_SCORE: " ++ ds); cbn [Main.fit_score_search]; by rewrite Hat. }
  unfold Main.parse_model_output. rewrite Hsearch.
  assert (Habs : forall tag, In tag [lit "REASONING:"; lit "COVER_LETTER:"; lit "RESUME:";
                                      lit "SHORT_ANSWERS:"] ->
                             ~ occurs tag (lit "FIT_SCORE: " ++ ds)).
  { intros tag Hin. simpl in Hin.
    destruct Hin as [<-|[<-|[<-|[<-|[]]]]]; by apply score_line_no_tag. }
  rewrite !extract_block_absent_nl by (apply Habs; simpl; tauto).
  rewrite !extract_block_absent by (apply Habs; simpl; tauto).
  unfold Main.float_of_decimal. subst ds. rewrite int_of_str_of_nat.
  rewrite N_nat_Z. reflexivity.
Qed.

Lemma parse_score_line_witness :
  Main.parse_model_output (lit "FIT_SCORE: " ++ str_of_nat (N.to_nat 250))
  = Ok (inject_Z (Z.of_N 250), [], [], [], [[]; []; []]).
Proof. apply (parse_score_line 250). reflexivity. Defined.

(** ** The shape of the short answers *)

Lemma span_app (P : char -> bool) (s a b : str) : span P s = (a, b) -> s = a ++ b.
Proof.
  revert a b. induction s as [|c s IH]; intros a b; simpl.
  - by intros [= <- <-].
  - destruct (P c); [|by intros [= <- <-]].
    destruct (span P s) as [a' b'] eqn:E. intros [= <- <-].
    simpl. f_equal. by apply IH.
Qed.

Lemma rstrip_fixed_suffix (p x : str) : rstrip (p ++ x) = p ++ x -> rstrip x = x.
Proof.
  unfold rstrip. intros H.
  apply (f_equal (@rev N)) in H. rewrite rev_involutive, rev_app_distr in H.
  apply lstrip_fixed_cases in H.
  assert (Hx : lstrip (rev x) = rev x).
  { apply lstrip_fixed_cases. by destruct (rev x). }
  by rewrite Hx, rev_involutive.
Qed.

Lemma strip_enumerator_trimmed (l : str) :
  strip l = l -> strip (Main.strip_enumerator l) = Main.strip_enumerator l.
Proof.
  intros Hl. unfold Main.strip_enumerator.
  destruct (span isdigit l) as [ds r] eqn:Es. apply span_app in Es.
  destruct ds as [|d ds]; [done|].
  destruct (lstrip r) as [|c r'] eqn:Er; [done|].
  destruct (Main.is_enum_punct c); [|done].
  apply strip_fixed_intro; [apply lstrip_idem|].
  apply strip_fixed_parts in Hl as [_ Hr].
  destruct (lstrip_split r) as (ws & Hws & _). rewrite Er in Hws.
  destruct (lstrip_split r') as (ws' & Hws' & _).
  apply (rstrip_fixed_suffix ((d :: ds) ++ ws ++ c :: ws')).
  assert (E : ((d :: ds) ++ ws ++ c :: ws') ++ lstrip r' = l).
  { symmetry. rewrite Es, Hws. rewrite Hws' at 1. by rewrite <- !app_assoc. }
  by rewrite E.
Qed.

Lemma strip_enumerator_single (l : str) :
  single_line l -> single_line (Main.strip_enumerator l).
Proof.
  intros Hl. unfold Main.strip_enumerator.
  destruct (span isdigit l) as [ds r] eqn:Es. apply span_app in Es.
  destruct ds as [|d ds]; [done|].
  destruct (lstrip r) as [|c r'] eqn:Er; [done|].
  destruct (Main.is_enum_punct c); [|done].
  apply Forall_lstrip. subst l. apply Forall_app in Hl as [_ Hr].
  apply (Forall_lstrip _ r) in Hr. rewrite Er in Hr. by apply Forall_cons in Hr as [_ Hr].
Qed.

Lemma short_answers_of_Forall (Q : str -> Prop) (block : str) :
  Q [] -> Forall Q (numbered_answers block) -> Forall Q (Main.short_answers_of block).
Proof.
  intros Qnil H. unfold Main.short_answers_of. cbv zeta. rewrite flat_map_answers.
  fold (numbered_answers block).
  destruct (numbered_answers block) as [|a [|b [|c [|d l]]]]; simpl;
    repeat match goal with
           | H : Forall _ (_ :: _) |- _ => apply Forall_cons in H as [? H]
           end; repeat constructor; done.
Qed.

(** X8.  Each of the three short answers of [parse_model_output] is a
    single line (it holds no line boundary) and is trimmed, whatever the
    block holds. *)
Theorem short_answers_single_trimmed (block : str) :
  Forall (fun a => single_line a /\ strip a = a) (Main.short_answers_of block).
Proof.
  apply short_answers_of_Forall; [by split; [constructor|]|].
  unfold numbered_answers. apply List.Forall_forall. intros a Ha.
  apply in_map_iff in Ha as (l & <- & Hl). apply filter_In in Hl as [Hl _].
  apply in_map_iff in Hl as (line & <- & Hline).
  pose proof (splitlines_single block) as Hs.
  rewrite List.Forall_forall in Hs. specialize (Hs line Hline). split.
  - apply strip_enumerator_single. by apply Forall_strip.
  - apply strip_enumerator_trimmed. apply strip_idem.
Qed.

Lemma paragraphs_facts (raw : str) :
  Forall (fun a => strip a = a /\ a <> []) (paragraphs raw).
Proof.
  unfold paragraphs. apply List.Forall_forall. intros a Ha.
  apply filter_In in Ha as [Ha Hne]. apply in_map_iff in Ha as (p & <- & _).
  split; [apply strip_idem|]. by destruct (strip p).
Qed.

Lemma short_answer_parts_cases (raw : str) :
  match paragraphs raw with
  | [] => App.short_answer_parts raw = [[]; []; []]
  | [a] => App.short_answer_parts raw = [a; a; a]
  | [a; b] => App.short_answer_parts raw = [a; b; b]
  | a :: b :: c :: _ => App.short_answer_parts raw = [a; b; c]
  end.
Proof.
  unfold App.short_answer_parts. fold nonempty. fold (paragraphs raw).
  by destruct (paragraphs raw) as [|a [|b [|c l]]].
Qed.

(** X9.  The three short answers of [generate_short_answers] are trimmed,
    and they are empty all together or not at all: either the raw text has
    no paragraph and the answers are three empty strings, or every answer
    is a non-empty paragraph of the raw text (the last one repeated when
    there are fewer than three). *)
Theorem short_answer_parts_all_or_none (raw : str) :
  Forall (fun a => strip a = a) (App.short_answer_parts raw) /\
  ((paragraphs raw = [] /\ App.short_answer_parts raw = [[]; []; []]) \/
   (paragraphs raw <> [] /\
    Forall (fun a => a <> [] /\ a ∈ paragraphs raw) (App.short_answer_parts raw))).
Proof.
  pose proof (paragraphs_facts raw) as H. pose proof (short_answer_parts_cases raw) as Hc.
  destruct (paragraphs raw) as [|a [|b [|c l]]]; rewrite Hc.
  - split; [by repeat constructor | by left].
  - apply Forall_cons in H as [[Ha Na] _].
    split; [by repeat constructor|]. right. split; [done|].
    repeat constructor; (done || set_solver).
  - apply Forall_cons in H as [[Ha Na] H]. apply Forall_cons in H as [[Hb Nb] _].
    split; [by repeat constructor|]. right. split; [done|].
    repeat constructor; (done || set_solver).
  - apply Forall_cons in H as [[Ha Na] H]. apply Forall_cons in H as [[Hb Nb] H].
    apply Forall_cons in H as [[Hc' Nc] _].
    split; [by repeat constructor|]. right. split; [done|].
    repeat constructor; (done || set_solver).
Qed.

(** ** Sanitizing a name twice *)

Lemma lstrip_chars_split (P : char -> bool) (s : str) :
  exists a, s = a ++ lstrip_chars P s /\ Forall (fun c => P c = true) a.
Proof.
  induction s as [|c s (a & IH & Ha)]; simpl.
  - by exists [].
  - destruct (P c) eqn:E.
    + exists (c :: a). split; [simpl; congruence | by constructor].
    + by exists [].
Qed.

Lemma lstrip_chars_idem (P : char -> bool) (s : str) :
  lstrip_chars P (lstrip_chars P s) = lstrip_chars P s.
Proof.
  induction s as [|c s IH]; simpl; [done|].
  destruct (P c) eqn:E; [done|]. simpl. by rewrite E.
Qed.

Lemma lstrip_chars_app_keep (P : char -> bool) (a : str) (c : char) (b : str) :
  P c = false -> lstrip_chars P (a ++ c :: b) = lstrip_chars P a ++ c :: b.
Proof.
  intros Hc. induction a as [|x a IH]; simpl.
  - by rewrite Hc.
  - destruct (P x); [exact IH | done].
Qed.

Lemma lstrip_chars_fixed_cases (P : char -> bool) (s : str) :
  lstrip_chars P s = s <-> match s with [] => True | c :: _ => P c = false end.
Proof.
  destruct s as [|c s]; simpl; [done|].
  destruct (P c) eqn:E; [|done].
  split; [|done]. intros H.
  destruct (lstrip_chars_split P s) as (ws & Hs & _).
  apply (f_equal length) in H. apply (f_equal length) in Hs.
  rewrite length_app in Hs. simpl in H. lia.
Qed.

Lemma strip_chars_split (P : char -> bool) (s : str) :
  exists a b, s = a ++ strip_chars P s ++ b.
Proof.
  destruct (lstrip_chars_split P s) as (a & Hs & _).
  destruct (lstrip_chars_split P (rev (lstrip_chars P s))) as (b & Hb & _).
  exists a, (rev b). unfold strip_chars.
  rewrite <- rev_app_distr, <- Hb, rev_involutive. exact Hs.
Qed.

Lemma strip_chars_idem (P : char -> bool) (s : str) :
  strip_chars P (strip_chars P s) = strip_chars P s.
Proof.
  unfold strip_chars.
  assert (Hl : lstrip_chars P (rev (lstrip_chars P (rev (lstrip_chars P s))))
               = rev (lstrip_chars P (rev (lstrip_chars P s)))).
  { destruct (lstrip_chars P s) as [|c t] eqn:E; [done|].
    assert (Hc : P c = false).
    { pose proof (lstrip_chars_idem P s) as H. rewrite E in H.
      by apply (lstrip_chars_fixed_cases P (c :: t)) in H. }
    simpl. rewrite lstrip_chars_app_keep by done.
    rewrite rev_app_distr. simpl. by rewrite Hc. }
  rewrite Hl, rev_involutive. by rewrite lstrip_chars_idem.
Qed.

Lemma alnum_not_underscore (c : char) : Main.is_alnum c = true -> (c =? UNDERSCORE)%N = false.
Proof. intros H. apply N.eqb_neq. intros ->. discriminate. Qed.

Lemma sep_ok_sub_runs (b : bool) (s : str) :
  sep_ok b (sub_runs_go (fun c => negb (Main.is_alnum c)) [UNDERSCORE] b s) = true.
Proof.
  revert b. induction s as [|c s IH]; intros b; simpl; [done|].
  destruct (Main.is_alnum c) eqn:E; simpl.
  - rewrite E. apply IH.
  - destruct b; [apply IH|]. simpl. apply IH.
Qed.

Lemma sub_runs_sep_ok (b : bool) (s : str) :
  sep_ok b s = true ->
  sub_runs_go (fun c => negb (Main.is_alnum c)) [UNDERSCORE] b s = s.
Proof.
  revert b. induction s as [|c s IH]; intros b; simpl; [done|].
  destruct (Main.is_alnum c) eqn:E; simpl.
  - intros H. by rewrite IH.
  - intros H. apply andb_true_iff in H as [H H3]. apply andb_true_iff in H as [H1 H2].
    apply N.eqb_eq in H1. subst c. apply negb_true_iff in H2. subst b.
    by rewrite IH.
Qed.

Lemma sep_ok_weaken (b : bool) (s : str) : sep_ok b s = true -> sep_ok false s = true.
Proof.
  destruct s as [|c s]; simpl; [done|]. destruct (Main.is_alnum c); [done|].
  intros H. apply andb_true_iff in H as [H H3]. apply andb_true_iff in H as [H1 H2].
  by rewrite H1, H3.
Qed.

Lemma sep_ok_suffix (b : bool) (a s : str) : sep_ok b (a ++ s) = true -> sep_ok false s = true.
Proof.
  revert b. induction a as [|c a IH]; intros b; simpl; [apply sep_ok_weaken|].
  destruct (Main.is_alnum c); [apply IH|].
  intros H. apply andb_true_iff in H as [_ H]. by apply IH in H.
Qed.

Lemma sep_ok_prefix (b : bool) (s x : str) : sep_ok b (s ++ x) = true -> sep_ok b s = true.
Proof.
  revert b. induction s as [|c s IH]; intros b; simpl; [done|].
  destruct (Main.is_alnum c); [apply IH|].
  intros H. apply andb_true_iff in H as [H H3]. rewrite H. by apply IH in H3.
Qed.

Lemma sep_ok_no_double (b : bool) (s : str) :
  sep_ok b s = true -> ~ occurs [UNDERSCORE; UNDERSCORE] s.
Proof.
  intros H (pre & post & ->). apply sep_ok_suffix in H. simpl in H. done.
Qed.

Lemma sanitize_part_main_cases (text : str) :
  Main.sanitize_part text = lit "job" \/
  (Main.sanitize_part text <> [] /\
   Main.sanitize_part text
   = strip_chars Main.is_underscore
       (sub_runs (fun c => negb (Main.is_alnum c)) [UNDERSCORE] text)).
Proof.
  unfold Main.sanitize_part. destruct text as [|c0 t0]; [by left|].
  destruct (strip_chars _ _) as [|c s]; [by left | by right].
Qed.

Lemma sanitize_part_main_sep_ok (text : str) :
  sep_ok false (Main.sanitize_part text) = true
  /\ strip_chars Main.is_underscore (Main.sanitize_part text) = Main.sanitize_part text.
Proof.
  destruct (sanitize_part_main_cases text) as [->|[_ ->]]; [by split|].
  split; [|apply strip_chars_idem].
  destruct (strip_chars_split Main.is_underscore
              (sub_runs (fun c => negb (Main.is_alnum c)) [UNDERSCORE] text))
    as (a & b & H).
  pose proof (sep_ok_sub_runs false text) as Hok. unfold sub_runs in H. rewrite H in Hok.
  apply sep_ok_suffix in Hok. by apply sep_ok_prefix in Hok.
Qed.

(** X10.  The sanitizer of [main.py] is idempotent, and its result has
    no underscore at either end and no two underscores in a row: a name
    that it produced is returned unchanged when sanitized again. *)
Theorem sanitize_part_main_idempotent (text : str) :
  Main.sanitize_part (Main.sanitize_part text) = Main.sanitize_part text /\
  strip_chars Main.is_underscore (Main.sanitize_part text) = Main.sanitize_part text /\
  ~ occurs [UNDERSCORE; UNDERSCORE] (Main.sanitize_part text).
Proof.
  destruct (sanitize_part_main_sep_ok text) as [Hok Hfix].
  split; [|split; [done | by eapply sep_ok_no_double]].
  assert (Hne : Main.sanitize_part text <> []).
  { destruct (sanitize_part_main_cases text) as [->|[H _]]; done. }
  set (r := Main.sanitize_part text) in *.
  unfold Main.sanitize_part at 1. destruct r as [|c r'] eqn:Er; [done|].
  unfold sub_runs. rewrite sub_runs_sep_ok by done. rewrite Hfix. reflexivity.
Qed.

Lemma slug_char_facts (c : char) :
  is_slug_char c = true -> isspace c = false /\ lower_char c = [c].
Proof.
  intros H. unfold is_slug_char in H.
  assert (Hr : (97 <= c <= 122 \/ 48 <= c <= 57 \/ c = 95)%N).
  { unfold is_lower_az, isdigit, in_range, UNDERSCORE in H.
    rewrite ?orb_true_iff, ?andb_true_iff, ?N.leb_le, ?N.eqb_eq in H. lia. }
  clear H. split; [bool_N|].
  unfold lower_char.
  assert (is_upper_AZ c = false) as -> by bool_N.
  assert ((c =? 304)%N = false) as -> by (apply N.eqb_neq; lia).
  assert ((c =? 8490)%N = false) as -> by (apply N.eqb_neq; lia).
  done.
Qed.

Lemma strip_no_space (s : str) :
  Forall (fun c => isspace c = false) s -> strip s = s.
Proof.
  intros H. apply strip_fixed_intro.
  - apply lstrip_fixed_cases. destruct H; done.
  - unfold rstrip. apply List.Forall_rev in H.
    assert (Hl : lstrip (rev s) = rev s).
    { apply lstrip_fixed_cases. destruct H; done. }
    by rewrite Hl, rev_involutive.
Qed.

Lemma sanitize_part_app_slug (s fallback : str) :
  is_slug s = true -> App.sanitize_part s fallback = s.
Proof.
  intros H. unfold is_slug in H. destruct s as [|c0 s0] eqn:Es; [done|].
  rewrite <- Es in *. apply forallb_Forall in H.
  assert (Hsp : Forall (fun c => isspace c = false) s).
  { eapply Forall_impl; [exact H|]. intros c Hc. by apply slug_char_facts. }
  assert (Hlow : Forall (fun c => lower_char c = [c]) s).
  { eapply Forall_impl; [exact H|]. intros c Hc. by apply slug_char_facts. }
  unfold App.sanitize_part. rewrite (strip_no_space s Hsp).
  rewrite Es at 1. rewrite (lower_fixed s Hlow). unfold sub_runs.
  rewrite (sub_runs_go_none _ _ _ s Hsp). unfold remove_chars.
  rewrite filter_all.
  - by rewrite Es.
  - eapply Forall_impl; [exact H|]. simpl. intros c Hc.
    unfold is_slug_char in Hc. by rewrite Hc.
Qed.

(** X11.  The sanitizer of [app/utils.py] leaves a name of the form
    [a-z0-9_]+ as it is, so it is idempotent whenever the fallback token
    has that form: sanitizing its own result again, with any fallback,
    changes nothing. *)
Theorem sanitize_part_app_idempotent (text fallback fallback' : str) :
  is_slug fallback = true ->
  App.sanitize_part (App.sanitize_part text fallback) fallback'
  = App.sanitize_part text fallback.
Proof.
  intros Hfb. apply sanitize_part_app_slug.
  unfold App.sanitize_part.
  destruct (strip text) as [|c0 s0]; [done|].
  set (cleaned := remove_chars _ _).
  assert (Hall : Forall (fun c => is_slug_char c = true) cleaned).
  { subst cleaned. unfold remove_chars. apply List.Forall_forall.
    intros c Hc. apply filter_In in Hc as [_ Hc].
    by rewrite negb_involutive in Hc. }
  destruct cleaned as [|c s]; [done|].
  unfold is_slug. by apply forallb_Forall.
Qed.

Lemma sanitize_part_app_idempotent_witness :
  App.sanitize_part (App.sanitize_part (lit "Acme, Inc.") (lit "company")) (lit "untitled")
  = App.sanitize_part (lit "Acme, Inc.") (lit "company").
Proof. apply sanitize_part_app_idempotent. reflexivity. Defined.

(** ** Stamps and folder names *)

Lemma pad2_digits (n : nat) :
  n < 100 -> pad2 n = [N.of_nat (48 + n / 10); N.of_nat (48 + n mod 10)].
Proof.
  intros H. unfold pad2. destruct (n <? 10) eqn:E.
  - apply Nat.ltb_lt in E. unfold str_of_nat. rewrite digits_go_S.
    replace (n / 10) with 0 by lia. reflexivity.
  - apply Nat.ltb_ge in E. unfold str_of_nat.
    replace (S n) with (S (S (n - 1))) by lia. rewrite digits_go_S.
    destruct (n / 10) as [|q] eqn:E1; [exfalso; lia|]. rewrite <- E1.
    rewrite digits_go_S. replace (n / 10 / 10) with 0 by lia.
    replace (n / 10 mod 10) with (n / 10) by lia. reflexivity.
Qed.

Lemma str_of_nat_4_digits (n : nat) :
  1000 <= n < 10 * 1000 ->
  str_of_nat n = [N.of_nat (48 + n / 10 / 10 / 10 mod 10); N.of_nat (48 + n / 10 / 10 mod 10);
                  N.of_nat (48 + n / 10 mod 10); N.of_nat (48 + n mod 10)].
Proof.
  intros H. unfold str_of_nat.
  replace (S n) with (S (S (S (S (n - 3))))) by lia. rewrite digits_go_S.
  destruct (n / 10) as [|q] eqn:E; [exfalso; lia|]. rewrite <- E.
  rewrite digits_go_S.
  destruct (n / 10 / 10) as [|q2] eqn:E2; [exfalso; lia|]. rewrite <- E2.
  rewrite digits_go_S.
  destruct (n / 10 / 10 / 10) as [|q3] eqn:E3; [exfalso; lia|]. rewrite <- E3.
  rewrite digits_go_S. replace (n / 10 / 10 / 10 / 10) with 0 by lia.
  reflexivity.
Qed.

Lemma two_digits_inj (n m : nat) :
  n < 100 -> m < 100 ->
  N.of_nat (48 + n / 10) = N.of_nat (48 + m / 10) ->
  N.of_nat (48 + n mod 10) = N.of_nat (48 + m mod 10) -> n = m.
Proof.
  intros. lia.
Qed.

Lemma four_digits_inj (n m : nat) :
  N.of_nat (48 + n / 10 / 10 / 10 mod 10) = N.of_nat (48 + m / 10 / 10 / 10 mod 10) ->
  N.of_nat (48 + n / 10 / 10 mod 10) = N.of_nat (48 + m / 10 / 10 mod 10) ->
  N.of_nat (48 + n / 10 mod 10) = N.of_nat (48 + m / 10 mod 10) ->
  N.of_nat (48 + n mod 10) = N.of_nat (48 + m mod 10) ->
  1000 <= n < 10 * 1000 -> 1000 <= m < 10 * 1000 -> n = m.
Proof.
  intros. lia.
Qed.

Lemma strftime_stamp_digits (d : datetime) :
  valid_datetime d ->
  strftime_stamp d
  = str_of_nat (N.to_nat (year d))
    ++ [N.of_nat (48 + N.to_nat (month d) / 10); N.of_nat (48 + N.to_nat (month d) mod 10);
        N.of_nat (48 + N.to_nat (day d) / 10); N.of_nat (48 + N.to_nat (day d) mod 10);
        UNDERSCORE;
        N.of_nat (48 + N.to_nat (hour d) / 10); N.of_nat (48 + N.to_nat (hour d) mod 10);
        N.of_nat (48 + N.to_nat (minute d) / 10); N.of_nat (48 + N.to_nat (minute d) mod 10);
        N.of_nat (48 + N.to_nat (second d) / 10); N.of_nat (48 + N.to_nat (second d) mod 10)].
Proof.
  intros (Hy & Hm & Hd & Hh & Hn & Hs). unfold strftime_stamp.
  rewrite !pad2_digits by lia. reflexivity.
Qed.

Lemma strftime_stamp_length (d : datetime) :
  valid_datetime d -> length (strftime_stamp d) = 15.
Proof.
  intros H. rewrite (strftime_stamp_digits d H).
  destruct H as (Hy & _). rewrite str_of_nat_4_digits by lia. reflexivity.
Qed.

Lemma cons_eq_inv {A} (x y : A) (l k : list A) : x :: l = y :: k -> x = y /\ l = k.
Proof. by intros [= -> ->]. Qed.

Lemma strftime_stamp_inj (d1 d2 : datetime) :
  valid_datetime d1 -> valid_datetime d2 ->
  strftime_stamp d1 = strftime_stamp d2 -> d1 = d2.
Proof.
  intros H1 H2 H.
  rewrite (strftime_stamp_digits d1 H1), (strftime_stamp_digits d2 H2) in H.
  destruct H1 as (Hy1 & Hm1 & Hd1 & Hh1 & Hn1 & Hs1).
  destruct H2 as (Hy2 & Hm2 & Hd2 & Hh2 & Hn2 & Hs2).
  rewrite !str_of_nat_4_digits in H by lia.
  cbn [app] in H.
  apply cons_eq_inv in H as [Y1 H]. apply cons_eq_inv in H as [Y2 H].
  apply cons_eq_inv in H as [Y3 H]. apply cons_eq_inv in H as [Y4 H].
  apply cons_eq_inv in H as [M1 H]. apply cons_eq_inv in H as [M2 H].
  apply cons_eq_inv in H as [D1 H]. apply cons_eq_inv in H as [D2 H].
  apply cons_eq_inv in H as [_ H].
  apply cons_eq_inv in H as [Hh H]. apply cons_eq_inv in H as [Hl H].
  apply cons_eq_inv in H as [N1 H]. apply cons_eq_inv in H as [N2 H].
  apply cons_eq_inv in H as [S1 H]. apply cons_eq_inv in H as [S2 _].
  assert (Ey : N.to_nat (year d1) = N.to_nat (year d2))
    by (apply four_digits_inj; [assumption..|clear - Hy1; lia|clear - Hy2; lia]).
  assert (Em : N.to_nat (month d1) = N.to_nat (month d2))
    by (apply two_digits_inj; [clear - Hm1; lia|clear - Hm2; lia|assumption..]).
  assert (Ed : N.to_nat (day d1) = N.to_nat (day d2))
    by (apply two_digits_inj; [clear - Hd1; lia|clear - Hd2; lia|assumption..]).
  assert (Eh : N.to_nat (hour d1) = N.to_nat (hour d2))
    by (apply two_digits_inj; [clear - Hh1; lia|clear - Hh2; lia|assumption..]).
  assert (En : N.to_nat (minute d1) = N.to_nat (minute d2))
    by (apply two_digits_inj; [clear - Hn1; lia|clear - Hn2; lia|assumption..]).
  assert (Es : N.to_nat (second d1) = N.to_nat (second d2))
    by (apply two_digits_inj; [clear - Hs1; lia|clear - Hs2; lia|assumption..]).
  clear - Ey Em Ed Eh En Es.
  destruct d1, d2; simpl in *. f_equal; lia.
Qed.

Section FolderNames.
Variable HOST_OUTPUT_ROOT : str.
Variable RESUME_PROMPT COVER_PROMPT ANSWERS_PROMPT : list str.
Variable format_hint : App.SeniorityHint -> str.
Variable json_dumps : json -> str.
Variable ollama_chat : str -> result str.

Lemma create_job_folder_name (now : datetime) (job : Main.JobInput) (fs fs' : FS.t)
    (r : FS.path * option str * str) :
  Main.create_job_folder HOST_OUTPUT_ROOT now job fs = (Ok r, fs') ->
  r.1.1 = Main.OUTPUT_ROOT ++ [main_folder_name now job]
  /\ r.2 = main_folder_name now job.
Proof.
  unfold Main.create_job_folder. intros H.
  apply bind_ok_inv in H as ([] & s & _ & H). apply ret_inv in H as [-> _]. done.
Qed.

Lemma generate_full_package_name (now : datetime) (job : App.JobInput) (fs fs' : FS.t)
    (info : App.PackageInfo) :
  App.generate_full_package RESUME_PROMPT COVER_PROMPT ANSWERS_PROMPT format_hint
    json_dumps ollama_chat now job fs = (Ok info, fs') ->
  App.folder_name info = app_folder_name now job
  /\ App.job_dir info = App.path_str (App.OUTPUT_ROOT ++ [app_folder_name now job])
  /\ App.fit_score info = App.estimate_fit_score job
  /\ App.fit_label info = App.label_fit (App.estimate_fit_score job).
Proof.
  unfold App.generate_full_package. intros H.
  apply bind_ok_inv in H as ([] & s1 & _ & H).
  apply bind_ok_inv in H as ([] & s2 & _ & H).
  apply bind_ok_inv in H as (r & s3 & _ & H).
  apply bind_ok_inv in H as (c & s4 & _ & H).
  apply bind_ok_inv in H as (a & s5 & _ & H).
  apply bind_ok_inv in H as ([] & s6 & _ & H).
  apply bind_ok_inv in H as ([] & s7 & _ & H).
  apply bind_ok_inv in H as ([] & s8 & _ & H).
  apply bind_ok_inv in H as ([] & s9 & _ & H).
  apply ret_inv in H as [-> _]. done.
Qed.

(** X12.  Two packages get the same folder name only when they are
    created within the same second: in both variants the folder names made
    at two valid times (years of four digits) differ whenever the times
    differ, whatever the companies and titles are, because the time stamp
    is injective and has a fixed width. *)
Theorem folder_name_fixes_the_second (now1 now2 : datetime) :
  valid_datetime now1 -> valid_datetime now2 ->
  (strftime_stamp now1 = strftime_stamp now2 -> now1 = now2) /\
  (forall (job1 job2 : Main.JobInput) (fs1 fs2 fs1' fs2' : FS.t)
          (r1 r2 : FS.path * option str * str),
      Main.create_job_folder HOST_OUTPUT_ROOT now1 job1 fs1 = (Ok r1, fs1') ->
      Main.create_job_folder HOST_OUTPUT_ROOT now2 job2 fs2 = (Ok r2, fs2') ->
      r1.2 = r2.2 -> now1 = now2) /\
  (forall (job1 job2 : App.JobInput) (fs1 fs2 fs1' fs2' : FS.t)
          (info1 info2 : App.PackageInfo),
      App.generate_full_package RESUME_PROMPT COVER_PROMPT ANSWERS_PROMPT format_hint
        json_dumps ollama_chat now1 job1 fs1 = (Ok info1, fs1') ->
      App.generate_full_package RESUME_PROMPT COVER_PROMPT ANSWERS_PROMPT format_hint
        json_dumps ollama_chat now2 job2 fs2 = (Ok info2, fs2') ->
      App.folder_name info1 = App.folder_name info2 -> now1 = now2).
Proof.
  intros V1 V2.
  pose proof (strftime_stamp_length now1 V1) as L1.
  pose proof (strftime_stamp_length now2 V2) as L2.
  split; [by apply strftime_stamp_inj|]. split.
  - intros job1 job2 fs1 fs2 fs1' fs2' r1 r2 H1 H2 E.
    apply create_job_folder_name in H1 as [_ E1].
    apply create_job_folder_name in H2 as [_ E2].
    rewrite E1, E2 in E. unfold main_folder_name in E.
    apply app_inj_1 in E as [E _]; [|congruence].
    by apply strftime_stamp_inj.
  - intros job1 job2 fs1 fs2 fs1' fs2' info1 info2 H1 H2 E.
    apply generate_full_package_name in H1 as [E1 _].
    apply generate_full_package_name in H2 as [E2 _].
    rewrite E1, E2 in E. unfold app_folder_name in E.
    rewrite !(app_assoc _ _ (strftime_stamp _)) in E.
    rewrite !(app_assoc _ _ [UNDERSCORE]) in E.
    apply app_inj_2 in E as [_ E]; [|congruence].
    by apply strftime_stamp_inj.
Qed.

End FolderNames.

Lemma folder_name_fixes_the_second_witness :
  valid_datetime jan_2nd
  /\ (strftime_stamp jan_2nd = strftime_stamp jan_2nd -> jan_2nd = jan_2nd).
Proof.
  assert (V : valid_datetime jan_2nd) by (vm_compute; repeat split; discriminate).
  split; [exact V|].
  exact (proj1 (folder_name_fixes_the_second [] [] [] [] App.hint_value (fun _ => [])
                  (fun _ => Ok []) jan_2nd jan_2nd V V)).
Defined.

(** ** What the assemblers leave on disk *)

Lemma mkdir_chain_ok (pre rest : FS.path) (fs fs' : FS.t) (u : unit) :
  FS.mkdir_chain pre rest fs = (Ok u, fs') ->
  fs ⊆ fs' /\ forall k, k < length rest -> fs' !! (pre ++ take (S k) rest) = Some FS.Dir.
Proof.
  revert pre fs. induction rest as [|n rest IH]; intros pre fs H.
  - cbn in H. destruct u. injection H as <-. split; [done|]. simpl. lia.
  - cbn [FS.mkdir_chain] in H.
    destruct (fs !! (pre ++ [n])) as [[|c]|] eqn:E; [| done |].
    + apply IH in H as [Hsub Hk]. split; [done|].
      intros [|k] Hlt.
      * change (take 1 (n :: rest)) with [n]. by eapply lookup_weaken.
      * simpl in Hlt. specialize (Hk k ltac:(lia)).
        by rewrite <- app_assoc in Hk.
    + apply IH in H as [Hsub Hk]. split.
      * etrans; [|exact Hsub]. by apply insert_subseteq.
      * intros [|k] Hlt.
        -- change (take 1 (n :: rest)) with [n].
           eapply lookup_weaken; [|exact Hsub]. apply lookup_insert_eq.
        -- simpl in Hlt. specialize (Hk k ltac:(lia)).
           by rewrite <- app_assoc in Hk.
Qed.

Lemma mkdir_ok_dir (p : FS.path) (fs fs' : FS.t) (u : unit) :
  p <> [] -> FS.mkdir_parents_exist_ok p fs = (Ok u, fs') ->
  fs ⊆ fs' /\ fs' !! p = Some FS.Dir.
Proof.
  intros Hp H. apply mkdir_chain_ok in H as [Hsub Hk]. split; [done|].
  specialize (Hk (length p - 1)).
  rewrite take_ge in Hk by lia. apply Hk. destruct p; [done | simpl; lia].
Qed.

Lemma mkdir_chain_raise (pre rest : FS.path) (fs fs' : FS.t) (e : exn) :
  FS.mkdir_chain pre rest fs = (Raise e, fs') -> exists m, e = OSError m.
Proof.
  revert pre fs. induction rest as [|n rest IH]; intros pre fs H; [done|].
  cbn [FS.mkdir_chain] in H.
  destruct (fs !! (pre ++ [n])) as [[|c]|]; [by eapply IH | | by eapply IH].
  injection H as <- _. eauto.
Qed.

Lemma write_text_raise (p : FS.path) (data : str) (fs fs' : FS.t) (e : exn) :
  FS.write_text p data fs = (Raise e, fs') -> exists m, e = OSError m.
Proof.
  unfold FS.write_text. destruct (negb _); [intros [= <- _]; eauto|].
  destruct (FS.node_at fs p) as [[|c]|]; [intros [= <- _]; eauto | |];
    destruct (existsb _ _); intros [= <- _] || intros [=]; eauto.
Qed.

Lemma bind_raise_inv {S A B} (m : M S A) (k : A -> M S B) (s s' : S) (e : exn) :
  bind m k s = (Raise e, s') ->
  m s = (Raise e, s') \/ exists a s1, m s = (Ok a, s1) /\ k a s1 = (Raise e, s').
Proof. unfold bind. destruct (m s) as [[a|e0] s1]; [eauto|]. intros [= -> ->]. by left. Qed.

Ltac look_up :=
  repeat first
    [ rewrite lookup_insert_eq
    | rewrite lookup_insert_ne
        by first [ apply child_ne | symmetry; apply child_ne
                 | intros E%app_inv_head; discriminate
                 | intros E%(f_equal length); rewrite ?length_app in E; simpl in E; lia ] ].

Section MainAssembly.
Variable HOST_OUTPUT_ROOT SYSTEM_PROMPT : str.
Variable main_dumps : json -> str.
Variable call_ollama : str -> str -> result str.

Lemma process_job_call_fails (now : datetime) (job : Main.JobInput) (fs : FS.t) (e : exn) :
  call_ollama SYSTEM_PROMPT (Main.user_prompt_of job) = Raise e ->
  Main.process_job HOST_OUTPUT_ROOT SYSTEM_PROMPT main_dumps call_ollama now job fs
  = (Raise (HTTPException 500 (lit "Error talking to Ollama: " ++ exn_str e)), fs).
Proof. intros H. unfold Main.process_job, bind, lift. by rewrite H. Qed.

Lemma process_job_parse_fails (now : datetime) (job : Main.JobInput) (fs : FS.t)
    (raw : str) (e : exn) :
  call_ollama SYSTEM_PROMPT (Main.user_prompt_of job) = Ok raw ->
  Main.parse_model_output raw = Raise e ->
  Main.process_job HOST_OUTPUT_ROOT SYSTEM_PROMPT main_dumps call_ollama now job fs
  = (Raise e, fs).
Proof. intros H1 H2. unfold Main.process_job, bind, lift. by rewrite H1, H2. Qed.

Lemma parse_raise_500 (raw : str) (e : exn) :
  Main.parse_model_output raw = Raise e -> exists d, e = HTTPException 500 d.
Proof.
  unfold Main.parse_model_output.
  destruct (Main.fit_score_search raw) as [[ds fs]|]; [done|]. intros [= <-]. eauto.
Qed.

(** X13.  [process_job] touches the file system only after the model
    call and the parse have succeeded.  A failed call is reported as an
    HTTP error 500 whose detail quotes the error; a failed parse is
    reported as the parser's error; in both cases the file system is left
    as it was.  Every HTTP error that [process_job] raises has the status
    500 and leaves the file system unchanged (errors of the file system
    itself are not HTTP errors). *)
Theorem process_job_fails_before_writing (now : datetime) (job : Main.JobInput) (fs : FS.t) :
  (forall e,
      call_ollama SYSTEM_PROMPT (Main.user_prompt_of job) = Raise e ->
      Main.process_job HOST_OUTPUT_ROOT SYSTEM_PROMPT main_dumps call_ollama now job fs
      = (Raise (HTTPException 500 (lit "Error talking to Ollama: " ++ exn_str e)), fs)) /\
  (forall raw e,
      call_ollama SYSTEM_PROMPT (Main.user_prompt_of job) = Ok raw ->
      Main.parse_model_output raw = Raise e ->
      Main.process_job HOST_OUTPUT_ROOT SYSTEM_PROMPT main_dumps call_ollama now job fs
      = (Raise e, fs)) /\
  (forall status detail fs',
      Main.process_job HOST_OUTPUT_ROOT SYSTEM_PROMPT main_dumps call_ollama now job fs
      = (Raise (HTTPException status detail), fs') ->
      status = 500 /\ fs' = fs).
Proof.
  split; [apply process_job_call_fails|]. split; [apply process_job_parse_fails|].
  intros status detail fs' H.
  destruct (call_ollama SYSTEM_PROMPT (Main.user_prompt_of job)) as [raw|e] eqn:Ecall.
  2:{ rewrite (process_job_call_fails _ _ _ _ Ecall) in H. by injection H as <- _ <-. }
  destruct (Main.parse_model_output raw) as [[[[[fit reasoning] cover] resume] answers]|e]
    eqn:Eparse.
  2:{ rewrite (process_job_parse_fails _ _ _ _ _ Ecall Eparse) in H.
      injection H as -> <-. by apply parse_raise_500 in Eparse as [d [= -> _]]. }
  exfalso. unfold Main.process_job in H.
  unfold bind at 1 in H. unfold lift at 1 in H. rewrite Ecall in H.
  unfold bind at 1 in H. unfold lift at 1 in H. rewrite Eparse in H.
  apply bind_raise_inv in H as [H|([[d hp] nm] & s1 & _ & H)].
  { unfold Main.create_job_folder in H.
    apply bind_raise_inv in H as [H|([] & s0 & _ & H)]; [|done].
    by apply mkdir_chain_raise in H as [m [=]]. }
  apply bind_raise_inv in H as [H|([] & s2 & _ & H)];
    [by apply write_text_raise in H as [m [=]]|].
  apply bind_raise_inv in H as [H|([] & s3 & _ & H)];
    [by apply write_text_raise in H as [m [=]]|].
  apply bind_raise_inv in H as [H|([] & s4 & _ & H)];
    [by apply write_text_raise in H as [m [=]]|].
  apply bind_raise_inv in H as [H|([] & s5 & _ & H)];
    [by apply write_text_raise in H as [m [=]]|].
  done.
Qed.

Lemma process_job_inv (now : datetime) (job : Main.JobInput) (fs fs' : FS.t)
    (pkg : Main.PackageOutput) :
  Main.process_job HOST_OUTPUT_ROOT SYSTEM_PROMPT main_dumps call_ollama now job fs
  = (Ok pkg, fs') ->
  exists raw fs1,
    call_ollama SYSTEM_PROMPT (Main.user_prompt_of job) = Ok raw
    /\ Main.parse_model_output raw
       = Ok (Main.fit_score pkg, Main.reasoning pkg, Main.cover_letter pkg,
             Main.resume pkg, Main.short_answers pkg)
    /\ FS.mkdir_parents_exist_ok (Main.OUTPUT_ROOT ++ [main_folder_name now job]) fs
       = (Ok tt, fs1)
    /\ fs' = <[(Main.OUTPUT_ROOT ++ [main_folder_name now job]) ++ [lit "meta.json"]
               := FS.File (main_dumps (main_meta HOST_OUTPUT_ROOT now job
                                         (Main.fit_score pkg) (Main.reasoning pkg)))]>
             (<[(Main.OUTPUT_ROOT ++ [main_folder_name now job]) ++ [lit "short_answers.txt"]
                := FS.File (Main.answers_text_from 1 (Main.short_answers pkg))]>
             (<[(Main.OUTPUT_ROOT ++ [main_folder_name now job]) ++ [lit "resume_full.txt"]
                := FS.File (Main.resume pkg)]>
             (<[(Main.OUTPUT_ROOT ++ [main_folder_name now job]) ++ [lit "cover_letter.txt"]
                := FS.File (Main.cover_letter pkg)]> fs1)))
    /\ Main.fit_label pkg = Main.map_score_to_label (Main.fit_score pkg)
    /\ Main.container_folder pkg
       = Main.path_str (Main.OUTPUT_ROOT ++ [main_folder_name now job]).
Proof.
  intros H. unfold Main.process_job in H.
  apply bind_ok_inv in H as (raw & s1 & H1 & H). apply lift_ok_inv in H1 as [Hcall ->].
  apply bind_ok_inv in H as ([[[[fit reasoning] cover] resume] answers] & s2 & H2 & H).
  apply lift_ok_inv in H2 as [Hparse ->].
  apply bind_ok_inv in H as ([[job_dir host_path] name] & s3 & H3 & H).
  unfold Main.create_job_folder in H3.
  apply bind_ok_inv in H3 as ([] & s3' & Hmk & H3).
  apply ret_inv in H3 as [[= -> -> ->] ->].
  fold (main_folder_name now job) in *.
  apply bind_ok_inv in H as ([] & s4 & Hw1 & H). apply write_text_inv in Hw1 as ->.
  apply bind_ok_inv in H as ([] & s5 & Hw2 & H). apply write_text_inv in Hw2 as ->.
  apply bind_ok_inv in H as ([] & s6 & Hw3 & H). apply write_text_inv in Hw3 as ->.
  apply bind_ok_inv in H as ([] & s7 & Hw4 & H). apply write_text_inv in Hw4 as ->.
  apply ret_inv in H as [-> ->].
  exists raw, s3'. split; [|split; [|split; [|split; [|split]]]];
    [|exact Hparse|exact Hmk|reflexivity..].
  destruct (call_ollama SYSTEM_PROMPT (Main.user_prompt_of job)); by inversion Hcall.
Qed.

Lemma process_job_files (now : datetime) (job : Main.JobInput)
    (fs fs' : FS.t) (pkg : Main.PackageOutput) :
  Main.process_job HOST_OUTPUT_ROOT SYSTEM_PROMPT main_dumps call_ollama now job fs
  = (Ok pkg, fs') ->
  fs' !! (Main.OUTPUT_ROOT ++ [main_folder_name now job]) = Some FS.Dir /\
  fs' !! ((Main.OUTPUT_ROOT ++ [main_folder_name now job]) ++ [lit "cover_letter.txt"])
  = Some (FS.File (Main.cover_letter pkg)) /\
  fs' !! ((Main.OUTPUT_ROOT ++ [main_folder_name now job]) ++ [lit "resume_full.txt"])
  = Some (FS.File (Main.resume pkg)) /\
  fs' !! ((Main.OUTPUT_ROOT ++ [main_folder_name now job]) ++ [lit "short_answers.txt"])
  = Some (FS.File (Main.answers_text_from 1 (Main.short_answers pkg))) /\
  fs' !! ((Main.OUTPUT_ROOT ++ [main_folder_name now job]) ++ [lit "meta.json"])
  = Some (FS.File (main_dumps (main_meta HOST_OUTPUT_ROOT now job
                                 (Main.fit_score pkg) (Main.reasoning pkg)))) /\
  Main.fit_label pkg = Main.map_score_to_label (Main.fit_score pkg) /\
  (forall q x, fs !! q = Some x ->
               (forall f, q <> (Main.OUTPUT_ROOT ++ [main_folder_name now job]) ++ [f]) ->
               fs' !! q = Some x).
Proof.
  intros H. apply process_job_inv in H as (raw & fs1 & _ & _ & Hmk & -> & Hlabel & _).
  set (d := Main.OUTPUT_ROOT ++ [main_folder_name now job]) in *.
  apply mkdir_ok_dir in Hmk as [Hsub Hd]; [|done].
  split; [|split; [|split; [|split; [|split; [|split]]]]].
  - rewrite !lookup_insert_ne by apply child_ne. exact Hd.
  - rewrite !lookup_insert_ne by (intros E%app_inv_head; discriminate).
    apply lookup_insert_eq.
  - rewrite !lookup_insert_ne by (intros E%app_inv_head; discriminate).
    apply lookup_insert_eq.
  - rewrite !lookup_insert_ne by (intros E%app_inv_head; discriminate).
    apply lookup_insert_eq.
  - apply lookup_insert_eq.
  - exact Hlabel.
  - intros q x Hq Hnot. rewrite !lookup_insert_ne by (intros E; symmetry in E; by apply Hnot in E).
    by eapply lookup_weaken.
Qed.

(** X14.  After a successful [process_job] the files on disk hold what
    was returned: the new folder is a directory, cover_letter.txt and
    resume_full.txt hold the cover letter and the resume of the returned
    package, short_answers.txt holds its answers under the headings
    "Answer 1:", "Answer 2:", ..., meta.json holds the dump of the
    metadata record built from the job and the returned score and
    reasoning, and the returned label is the label of the returned score.
    Every entry that existed before and does not lie directly inside the
    new folder is kept as it was. *)
Theorem process_job_files_hold_package (now : datetime) (job : Main.JobInput)
    (fs fs' : FS.t) (pkg : Main.PackageOutput) :
  Main.process_job HOST_OUTPUT_ROOT SYSTEM_PROMPT main_dumps call_ollama now job fs
  = (Ok pkg, fs') ->
  fs' !! (Main.OUTPUT_ROOT ++ [main_folder_name now job]) = Some FS.Dir /\
  fs' !! ((Main.OUTPUT_ROOT ++ [main_folder_name now job]) ++ [lit "cover_letter.txt"])
  = Some (FS.File (Main.cover_letter pkg)) /\
  fs' !! ((Main.OUTPUT_ROOT ++ [main_folder_name now job]) ++ [lit "resume_full.txt"])
  = Some (FS.File (Main.resume pkg)) /\
  fs' !! ((Main.OUTPUT_ROOT ++ [main_folder_name now job]) ++ [lit "short_answers.txt"])
  = Some (FS.File (Main.answers_text_from 1 (Main.short_answers pkg))) /\
  fs' !! ((Main.OUTPUT_ROOT ++ [main_folder_name now job]) ++ [lit "meta.json"])
  = Some (FS.File (main_dumps (main_meta HOST_OUTPUT_ROOT now job
                                 (Main.fit_score pkg) (Main.reasoning pkg)))) /\
  Main.fit_label pkg = Main.map_score_to_label (Main.fit_score pkg) /\
  (forall q x, fs !! q = Some x ->
               (forall f, q <> (Main.OUTPUT_ROOT ++ [main_folder_name now job]) ++ [f]) ->
               fs' !! q = Some x).
Proof. apply process_job_files. Qed.

(** X15.  A second package for the same company and title within the
    same second does not fail and does not get a folder of its own: when
    [process_job] has succeeded and is run again at the same time for the
    same job (with whatever the model answers then, as long as it parses
    and can be encoded), it succeeds again, creates no new entry, reports
    the same folder, and cover_letter.txt and resume_full.txt then hold
    the texts of the second package. *)
Theorem process_job_same_second_overwrites (now : datetime) (job : Main.JobInput)
    (fs fs' : FS.t) (pkg : Main.PackageOutput)
    (call_again : str -> str -> result str) (raw : str) (fit : Q)
    (reasoning cover resume : str) (answers : list str) :
  Main.process_job HOST_OUTPUT_ROOT SYSTEM_PROMPT main_dumps call_ollama now job fs
  = (Ok pkg, fs') ->
  call_again SYSTEM_PROMPT (Main.user_prompt_of job) = Ok raw ->
  Main.parse_model_output raw = Ok (fit, reasoning, cover, resume, answers) ->
  encodable cover = true -> encodable resume = true ->
  encodable (Main.answers_text_from 1 answers) = true ->
  encodable (main_dumps (main_meta HOST_OUTPUT_ROOT now job fit reasoning)) = true ->
  exists pkg2 fs2,
    Main.process_job HOST_OUTPUT_ROOT SYSTEM_PROMPT main_dumps call_again now job fs'
    = (Ok pkg2, fs2)
    /\ dom fs2 = dom fs'
    /\ Main.container_folder pkg2 = Main.container_folder pkg
    /\ Main.cover_letter pkg2 = cover /\ Main.resume pkg2 = resume
    /\ fs2 !! ((Main.OUTPUT_ROOT ++ [main_folder_name now job]) ++ [lit "cover_letter.txt"])
       = Some (FS.File cover)
    /\ fs2 !! ((Main.OUTPUT_ROOT ++ [main_folder_name now job]) ++ [lit "resume_full.txt"])
       = Some (FS.File resume).
Proof.
  intros H Hcall Hparse E1 E2 E3 E4.
  apply process_job_inv in H as (raw1 & fs1 & _ & _ & Hmk & -> & _ & Hcf).
  set (d := Main.OUTPUT_ROOT ++ [main_folder_name now job]) in *.
  assert (Hd : d <> []) by done.
  apply mkdir_chain_ok in Hmk as [_ Hk].
  set (fs' := <[d ++ [lit "meta.json"] := _]> _).
  assert (Hpre : forall k, k < length d -> fs' !! take (S k) d = Some FS.Dir).
  { intros k Hlt. specialize (Hk k Hlt). simpl in Hk. subst fs'.
    assert (Hld : length d = 3) by reflexivity.
    assert (Hlen : length (take (S k) d) <= 3) by (rewrite length_take; lia).
    rewrite !lookup_insert_ne; [exact Hk|..];
      intros E%(f_equal length); rewrite length_app, Hld in E; cbn [length] in E; lia. }
  assert (Hdir : fs' !! d = Some FS.Dir).
  { specialize (Hpre 2 ltac:(simpl; lia)). by rewrite take_ge in Hpre by (simpl; lia). }
  unfold Main.process_job, bind, lift. rewrite Hcall, Hparse.
  unfold Main.create_job_folder, bind. fold (main_folder_name now job). fold d.
  assert (FS.mkdir_parents_exist_ok d fs' = (Ok tt, fs')) as ->.
  { apply mkdir_chain_existing. exact Hpre. }
  unfold ret.
  rewrite write_text_ok; [|done| | |done]; cycle 1.
  { exact Hdir. }
  { subst fs'. look_up. done. }
  rewrite write_text_ok; [|done| | |done]; cycle 1.
  { look_up. exact Hdir. }
  { subst fs'. look_up. done. }
  rewrite write_text_ok; [|done| | |done]; cycle 1.
  { look_up. exact Hdir. }
  { subst fs'. look_up. done. }
  rewrite write_text_ok; [|done| | |exact E4]; cycle 1.
  { look_up. exact Hdir. }
  { subst fs'. look_up. done. }
  eexists _, _. split; [reflexivity|].
  split; [|split; [by rewrite Hcf|split; [reflexivity|split; [reflexivity|split]]]].
  - rewrite !dom_insert_lookup_L; [done|..]; subst fs'; look_up; eauto.
  - look_up. reflexivity.
  - look_up. reflexivity.
Qed.

End MainAssembly.

Section AppAssembly.
Variable RESUME_PROMPT COVER_PROMPT ANSWERS_PROMPT : list str.
Variable format_hint : App.SeniorityHint -> str.
Variable app_dumps : json -> str.
Variable ollama_chat : str -> result str.

Lemma generate_full_package_inv (now : datetime) (job : App.JobInput) (fs fs' : FS.t)
    (info : App.PackageInfo) :
  App.generate_full_package RESUME_PROMPT COVER_PROMPT ANSWERS_PROMPT format_hint
    app_dumps ollama_chat now job fs = (Ok info, fs') ->
  exists resume cover answers fs1 fs2,
    FS.mkdir_parents_exist_ok App.OUTPUT_ROOT fs = (Ok tt, fs1)
    /\ FS.mkdir_parents_exist_ok (App.OUTPUT_ROOT ++ [app_folder_name now job]) fs1
       = (Ok tt, fs2)
    /\ App.generate_resume RESUME_PROMPT format_hint ollama_chat job = Ok resume
    /\ App.generate_cover_letter COVER_PROMPT format_hint ollama_chat job = Ok cover
    /\ App.generate_short_answers ANSWERS_PROMPT ollama_chat job = Ok answers
    /\ fs' = <[(App.OUTPUT_ROOT ++ [app_folder_name now job]) ++ [lit "meta.json"]
               := FS.File (app_dumps (app_meta now job))]>
             (<[(App.OUTPUT_ROOT ++ [app_folder_name now job]) ++ [lit "short_answers.txt"]
                := FS.File (App.build_short_answers_text answers)]>
             (<[(App.OUTPUT_ROOT ++ [app_folder_name now job]) ++ [lit "cover_letter.txt"]
                := FS.File cover]>
             (<[(App.OUTPUT_ROOT ++ [app_folder_name now job]) ++ [lit "resume_full.txt"]
                := FS.File resume]> fs2))).
Proof.
  intros H. unfold App.generate_full_package in H.
  apply bind_ok_inv in H as ([] & s1 & Hmk0 & H).
  apply bind_ok_inv in H as ([] & s2 & Hmk & H).
  apply bind_ok_inv in H as (r & s3 & H1 & H). apply lift_ok_inv in H1 as [Hr ->].
  apply bind_ok_inv in H as (c & s4 & H1 & H). apply lift_ok_inv in H1 as [Hc ->].
  apply bind_ok_inv in H as (a & s5 & H1 & H). apply lift_ok_inv in H1 as [Ha ->].
  apply bind_ok_inv in H as ([] & s6 & Hw1 & H). apply write_text_inv in Hw1 as ->.
  apply bind_ok_inv in H as ([] & s7 & Hw2 & H). apply write_text_inv in Hw2 as ->.
  apply bind_ok_inv in H as ([] & s8 & Hw3 & H). apply write_text_inv in Hw3 as ->.
  apply bind_ok_inv in H as ([] & s9 & Hw4 & H). apply write_text_inv in Hw4 as ->.
  apply ret_inv in H as [-> ->].
  exists r, c, a, s1, s2. repeat split; done.
Qed.

(** X16.  The variant with one call per artifact creates the folder
    before it calls the model and does not clean up: when the output root
    exists, the folder is new and one of the three model calls fails, the
    error of that call is raised and the new, empty folder is left behind
    (nothing else is created or changed). *)
Theorem generate_full_package_leaves_folder (now : datetime) (job : App.JobInput)
    (fs : FS.t) (e : exn) :
  fs !! App.OUTPUT_ROOT = Some FS.Dir ->
  fs !! (App.OUTPUT_ROOT ++ [app_folder_name now job]) = None ->
  (App.generate_resume RESUME_PROMPT format_hint ollama_chat job = Raise e \/
   (exists resume,
       App.generate_resume RESUME_PROMPT format_hint ollama_chat job = Ok resume /\
       App.generate_cover_letter COVER_PROMPT format_hint ollama_chat job = Raise e) \/
   (exists resume cover,
       App.generate_resume RESUME_PROMPT format_hint ollama_chat job = Ok resume /\
       App.generate_cover_letter COVER_PROMPT format_hint ollama_chat job = Ok cover /\
       App.generate_short_answers ANSWERS_PROMPT ollama_chat job = Raise e)) ->
  App.generate_full_package RESUME_PROMPT COVER_PROMPT ANSWERS_PROMPT format_hint
    app_dumps ollama_chat now job fs
  = (Raise e, <[App.OUTPUT_ROOT ++ [app_folder_name now job] := FS.Dir]> fs).
Proof.
  intros Hroot Hnew Hfail.
  unfold App.generate_full_package, bind, lift.
  assert (FS.mkdir_parents_exist_ok App.OUTPUT_ROOT fs = (Ok tt, fs)) as ->.
  { apply mkdir_chain_existing. intros k Hk. simpl in Hk.
    destruct k as [|k]; [exact Hroot | lia]. }
  fold (app_folder_name now job).
  rewrite mkdir_new_folder; [|intros k Hk; simpl in Hk; destruct k; [exact Hroot | lia]|done].
  destruct Hfail as [H1|[(r & H1 & H2)|(r & c & H1 & H2 & H3)]].
  - by rewrite H1.
  - by rewrite H1, H2.
  - by rewrite H1, H2, H3.
Qed.

(** X17.  In the variant with one call per artifact the fit label never
    varies: the local estimate is 70, 75 or 80, which [label_fit] maps to
    "Good fit" for every job, so every package that [generate_full_package]
    returns carries the score of the estimate and the label "Good fit". *)
Theorem generated_label_is_always_good :
  (forall job : App.JobInput, App.label_fit (App.estimate_fit_score job) = lit "Good fit") /\
  (forall (now : datetime) (job : App.JobInput) (fs fs' : FS.t) (info : App.PackageInfo),
      App.generate_full_package RESUME_PROMPT COVER_PROMPT ANSWERS_PROMPT format_hint
        app_dumps ollama_chat now job fs = (Ok info, fs') ->
      App.fit_score info = App.estimate_fit_score job /\
      App.fit_label info = lit "Good fit").
Proof.
  assert (Hgood : forall job : App.JobInput,
             App.label_fit (App.estimate_fit_score job) = lit "Good fit").
  { intros job. unfold App.estimate_fit_score.
    destruct job as [r c t l jd [h|]]; simpl;
      [destruct h|]; destruct (1500 <? length jd); reflexivity. }
  split; [exact Hgood|].
  intros now job fs fs' info H.
  apply (generate_full_package_name RESUME_PROMPT COVER_PROMPT ANSWERS_PROMPT format_hint
           app_dumps ollama_chat) in H as (_ & _ & Hs & Hl).
  split; [done|]. by rewrite Hl, Hgood.
Qed.

Lemma generate_full_package_on_disk (now : datetime) (job : App.JobInput)
    (fs fs' : FS.t) (info : App.PackageInfo) :
  App.generate_full_package RESUME_PROMPT COVER_PROMPT ANSWERS_PROMPT format_hint
    app_dumps ollama_chat now job fs = (Ok info, fs') ->
  exists resume cover answers,
    App.generate_resume RESUME_PROMPT format_hint ollama_chat job = Ok resume
    /\ App.generate_cover_letter COVER_PROMPT format_hint ollama_chat job = Ok cover
    /\ App.generate_short_answers ANSWERS_PROMPT ollama_chat job = Ok answers
    /\ fs' !! App.OUTPUT_ROOT = Some FS.Dir
    /\ fs' !! (App.OUTPUT_ROOT ++ [app_folder_name now job]) = Some FS.Dir
    /\ fs' !! ((App.OUTPUT_ROOT ++ [app_folder_name now job]) ++ [lit "resume_full.txt"])
       = Some (FS.File resume)
    /\ fs' !! ((App.OUTPUT_ROOT ++ [app_folder_name now job]) ++ [lit "cover_letter.txt"])
       = Some (FS.File cover)
    /\ fs' !! ((App.OUTPUT_ROOT ++ [app_folder_name now job]) ++ [lit "short_answers.txt"])
       = Some (FS.File (App.build_short_answers_text answers))
    /\ fs' !! ((App.OUTPUT_ROOT ++ [app_folder_name now job]) ++ [lit "meta.json"])
       = Some (FS.File (app_dumps (app_meta now job))).
Proof.
  intros H.
  apply generate_full_package_inv in H
    as (resume & cover & answers & fs1 & fs2 & Hmk0 & Hmk & Hr & Hc & Ha & ->).
  set (d := App.OUTPUT_ROOT ++ [app_folder_name now job]) in *.
  apply mkdir_ok_dir in Hmk0 as [_ Hroot]; [|done].
  apply mkdir_ok_dir in Hmk as [Hsub Hd]; [|done].
  exists resume, cover, answers. repeat split; try done.
  - look_up. by eapply lookup_weaken.
  - look_up. exact Hd.
  - look_up. reflexivity.
  - look_up. reflexivity.
  - look_up. reflexivity.
  - look_up. reflexivity.
Qed.

(** X18.  After a successful [generate_full_package] the files hold the
    model's texts as they were returned, with no normalization: the output
    root and the new folder are directories, resume_full.txt and
    cover_letter.txt hold exactly what the resume call and the cover-letter
    call returned, short_answers.txt holds the three answers under the
    headings "Answer 1:" to "Answer 3:", and meta.json holds the dump of
    the metadata record of the job. *)
Theorem generate_full_package_files (now : datetime) (job : App.JobInput)
    (fs fs' : FS.t) (info : App.PackageInfo) :
  App.generate_full_package RESUME_PROMPT COVER_PROMPT ANSWERS_PROMPT format_hint
    app_dumps ollama_chat now job fs = (Ok info, fs') ->
  exists resume cover answers,
    App.generate_resume RESUME_PROMPT format_hint ollama_chat job = Ok resume
    /\ App.generate_cover_letter COVER_PROMPT format_hint ollama_chat job = Ok cover
    /\ App.generate_short_answers ANSWERS_PROMPT ollama_chat job = Ok answers
    /\ fs' !! App.OUTPUT_ROOT = Some FS.Dir
    /\ fs' !! (App.OUTPUT_ROOT ++ [app_folder_name now job]) = Some FS.Dir
    /\ fs' !! ((App.OUTPUT_ROOT ++ [app_folder_name now job]) ++ [lit "resume_full.txt"])
       = Some (FS.File resume)
    /\ fs' !! ((App.OUTPUT_ROOT ++ [app_folder_name now job]) ++ [lit "cover_letter.txt"])
       = Some (FS.File cover)
    /\ fs' !! ((App.OUTPUT_ROOT ++ [app_folder_name now job]) ++ [lit "short_answers.txt"])
       = Some (FS.File (App.build_short_answers_text answers))
    /\ fs' !! ((App.OUTPUT_ROOT ++ [app_folder_name now job]) ++ [lit "meta.json"])
       = Some (FS.File (app_dumps (app_meta now job))).
Proof. apply generate_full_package_on_disk. Qed.

End AppAssembly.

Lemma process_job_same_second_overwrites_witness :
  exists pkg2 fs2,
    Main.process_job (lit "./job-packages") [] (fun _ => lit "{}")
      (fun _ _ => Ok acme_response) jan_2nd acme_job (snd acme_run) = (Ok pkg2, fs2)
    /\ dom fs2 = dom (snd acme_run).
Proof.
  destruct (process_job_same_second_overwrites (lit "./job-packages") [] (fun _ => lit "{}")
              (fun _ _ => Ok acme_response) jan_2nd acme_job root_only (snd acme_run)
              acme_package (fun _ _ => Ok acme_response) acme_response 88
              (lit "Strong match.") (lit "Dear team") (lit "Jane Doe")
              [lit "a"; lit "b"; lit "c"])
    as (pkg2 & fs2 & H & Hdom & _);
    [exact acme_run_eq | reflexivity | vm_compute; reflexivity..|].
  exists pkg2, fs2. split; [exact H | exact Hdom].
Defined.

Lemma process_job_fails_before_writing_witness :
  Main.process_job (lit "./job-packages") [] (fun _ => lit "{}")
    (fun _ _ => Raise (RuntimeError (lit "down"))) jan_2nd acme_job root_only
  = (Raise (HTTPException 500 (lit "Error talking to Ollama: " ++ lit "down")), root_only).
Proof.
  apply (proj1 (process_job_fails_before_writing (lit "./job-packages") [] (fun _ => lit "{}")
                  (fun _ _ => Raise (RuntimeError (lit "down"))) jan_2nd acme_job root_only)
           (RuntimeError (lit "down"))).
  reflexivity.
Defined.

Lemma process_job_files_hold_package_witness :
  snd acme_run !! ((Main.OUTPUT_ROOT ++ [main_folder_name jan_2nd acme_job])
                   ++ [lit "cover_letter.txt"])
  = Some (FS.File (Main.cover_letter acme_package)).
Proof.
  exact (proj1 (proj2 (process_job_files_hold_package (lit "./job-packages") []
                         (fun _ => lit "{}") (fun _ _ => Ok acme_response) jan_2nd acme_job
                         root_only (snd acme_run) acme_package acme_run_eq))).
Defined.

Lemma acme_app_run_eq :
  App.generate_full_package [] [] [] App.hint_value (fun _ => lit "{}") echo_chat
    jan_2nd acme_app_job packages_root
  = (Ok acme_app_info, snd acme_app_run).
Proof.
  change (acme_app_run = (Ok acme_app_info, snd acme_app_run)).
  assert (E : fst acme_app_run = Ok acme_app_info) by (vm_compute; reflexivity).
  rewrite <- E. apply surjective_pairing.
Qed.

Lemma packages_root_nothing_at (name : str) :
  nothing_at packages_root (App.OUTPUT_ROOT ++ [name]).
Proof.
  intros q [k ->]. unfold packages_root.
  rewrite lookup_insert_ne; [apply lookup_empty|].
  intros H; apply (f_equal length) in H; rewrite !length_app in H; simpl in H; lia.
Qed.

Lemma generate_full_package_leaves_folder_witness :
  App.generate_full_package [] [] [] App.hint_value (fun _ => lit "{}") down_chat
    jan_2nd acme_app_job packages_root
  = (Raise (RuntimeError (lit "down")),
     <[App.OUTPUT_ROOT ++ [app_folder_name jan_2nd acme_app_job] := FS.Dir]> packages_root).
Proof.
  apply (generate_full_package_leaves_folder [] [] [] App.hint_value (fun _ => lit "{}")
           down_chat jan_2nd acme_app_job packages_root (RuntimeError (lit "down"))).
  - reflexivity.
  - apply (packages_root_nothing_at (app_folder_name jan_2nd acme_app_job)).
    exists []. by rewrite app_nil_r.
  - left. reflexivity.
Defined.

Lemma generated_label_is_always_good_witness :
  App.fit_score acme_app_info = App.estimate_fit_score acme_app_job
  /\ App.fit_label acme_app_info = lit "Good fit".
Proof.
  apply (proj2 (generated_label_is_always_good [] [] [] App.hint_value (fun _ => lit "{}")
                  echo_chat)
           jan_2nd acme_app_job packages_root (snd acme_app_run) acme_app_info).
  exact acme_app_run_eq.
Defined.

Lemma generate_full_package_files_witness :
  exists resume cover answers,
    App.generate_resume [] App.hint_value echo_chat acme_app_job = Ok resume
    /\ App.generate_cover_letter [] App.hint_value echo_chat acme_app_job = Ok cover
    /\ App.generate_short_answers [] echo_chat acme_app_job = Ok answers
    /\ snd acme_app_run !! App.OUTPUT_ROOT = Some FS.Dir
    /\ snd acme_app_run !! (App.OUTPUT_ROOT ++ [app_folder_name jan_2nd acme_app_job])
       = Some FS.Dir
    /\ snd acme_app_run
       !! ((App.OUTPUT_ROOT ++ [app_folder_name jan_2nd acme_app_job])
           ++ [lit "resume_full.txt"]) = Some (FS.File resume)
    /\ snd acme_app_run
       !! ((App.OUTPUT_ROOT ++ [app_folder_name jan_2nd acme_app_job])
           ++ [lit "cover_letter.txt"]) = Some (FS.File cover)
    /\ snd acme_app_run
       !! ((App.OUTPUT_ROOT ++ [app_folder_name jan_2nd acme_app_job])
           ++ [lit "short_answers.txt"])
       = Some (FS.File (App.build_short_answers_text answers))
    /\ snd acme_app_run
       !! ((App.OUTPUT_ROOT ++ [app_folder_name jan_2nd acme_app_job])
           ++ [lit "meta.json"])
       = Some (FS.File ((fun _ => lit "{}") (app_meta jan_2nd acme_app_job))).
Proof.
  apply (generate_full_package_files [] [] [] App.hint_value (fun _ => lit "{}") echo_chat
           jan_2nd acme_app_job packages_root (snd acme_app_run) acme_app_info).
  exact acme_app_run_eq.
Defined.

(** ** The order of the listing *)

Lemma str_ltb_irrefl (a : str) : FS.str_ltb a a = false.
Proof.
  induction a as [|x a IH]; simpl; [done|].
  rewrite N.ltb_irrefl, N.eqb_refl, IH. done.
Qed.

Lemma str_ltb_trans (a b c : str) :
  FS.str_ltb a b = true -> FS.str_ltb b c = true -> FS.str_ltb a c = true.
Proof.
  revert b c. induction a as [|x a IH]; intros [|y b] [|z c]; simpl; try done.
  rewrite !orb_true_iff, !andb_true_iff, !N.ltb_lt, !N.eqb_eq.
  intros [H1|[H1 H1']] [H2|[H2 H2']].
  - left. lia.
  - left. lia.
  - left. lia.
  - right. split; [lia|]. by eapply IH.
Qed.

Lemma str_ltb_trichotomy (a b : str) :
  FS.str_ltb a b = false -> a <> b -> FS.str_ltb b a = true.
Proof.
  revert b. induction a as [|x a IH]; intros [|y b]; simpl; try done.
  rewrite orb_false_iff, andb_false_iff, orb_true_iff, andb_true_iff.
  rewrite !N.ltb_lt, N.ltb_ge, !N.eqb_eq, N.eqb_neq.
  intros [H1 H2] Hne.
  destruct (decide (x = y)) as [->|Hxy].
  - right. split; [done|]. apply IH; [|congruence].
    destruct H2 as [H2|H2]; done.
  - left. lia.
Qed.

Lemma str_ltb_asym (a b : str) : FS.str_ltb a b = true -> FS.str_ltb b a = false.
Proof.
  intros H. destruct (FS.str_ltb b a) eqn:E; [|done].
  pose proof (str_ltb_trans _ _ _ H E) as Hc. by rewrite str_ltb_irrefl in Hc.
Qed.

Lemma name_ge_trans : Transitive name_ge.
Proof.
  unfold name_ge. intros a b c Hab Hbc.
  destruct (FS.str_ltb a c) eqn:E; [|done]. exfalso.
  destruct (decide (a = b)) as [->|Hne]; [congruence|].
  pose proof (str_ltb_trichotomy a b Hab Hne) as Hba.
  pose proof (str_ltb_trans _ _ _ Hba E) as Hbc'. congruence.
Qed.

Lemma insert_desc_perm (n : str) (l : list str) : FS.insert_desc n l ≡ₚ n :: l.
Proof.
  induction l as [|m l IH]; simpl; [done|].
  destruct (FS.str_ltb m n); [done|]. rewrite IH. apply Permutation_swap.
Qed.

Lemma sort_desc_perm (l : list str) : foldr FS.insert_desc [] l ≡ₚ l.
Proof.
  induction l as [|n l IH]; simpl; [done|]. by rewrite insert_desc_perm, IH.
Qed.

Lemma insert_desc_HdRel (m n : str) (l : list str) :
  name_ge m n -> HdRel name_ge m l -> HdRel name_ge m (FS.insert_desc n l).
Proof.
  intros Hmn Hl. destruct l as [|k l]; simpl; [by constructor|].
  destruct (FS.str_ltb k n); constructor; [done|]. by inversion Hl.
Qed.

Lemma insert_desc_sorted (n : str) (l : list str) :
  Sorted name_ge l -> Sorted name_ge (FS.insert_desc n l).
Proof.
  induction 1 as [|m l Hl IH Hd]; simpl; [by repeat constructor|].
  destruct (FS.str_ltb m n) eqn:E.
  - constructor; [by constructor|]. constructor. by apply str_ltb_asym.
  - constructor; [done|]. by apply insert_desc_HdRel.
Qed.

Lemma sort_desc_sorted (l : list str) : StronglySorted name_ge (foldr FS.insert_desc [] l).
Proof.
  apply (@Sorted_StronglySorted _ _ name_ge_trans).
  induction l as [|n l IH]; simpl; [constructor|]. by apply insert_desc_sorted.
Qed.

Lemma child_name_spec (p q : FS.path) (n : str) :
  FS.child_name p q = Some n <-> q = p ++ [n].
Proof.
  revert q. induction p as [|a p IH]; intros q; simpl.
  - destruct q as [|b [|c q]]; split; try done; by intros [= ->].
  - destruct q as [|b q]; [split; [done | by destruct p]|].
    unfold str_eqb. destruct (bool_decide_reflect (a = b)) as [->|Hne].
    + rewrite IH. split; [by intros -> | by intros [= ->]].
    + split; [done|]. intros [= -> _]. done.
Qed.

Lemma NoDup_child_names (p : FS.path) (l : list (FS.path * FS.node)) :
  NoDup l.*1 -> NoDup (omap (fun kv => FS.child_name p kv.1) l).
Proof.
  induction l as [|[q x] l IH]; simpl; [constructor|]. intros H.
  apply NoDup_cons in H as [Hq Hl]. specialize (IH Hl).
  destruct (FS.child_name p q) as [n|] eqn:E; [|done].
  apply NoDup_cons. split; [|done].
  rewrite list_elem_of_omap. intros ([q' x'] & Hq' & Hc). simpl in Hc.
  apply child_name_spec in E, Hc. subst q q'.
  apply Hq. apply list_elem_of_fmap. by exists (p ++ [n], x').
Qed.

(** The entries of a directory in the listing: exactly the names that
    exist in it, each once, in descending order. *)
Lemma sorted_entries_desc_spec (fs : FS.t) (p : FS.path) :
  (forall n, n ∈ FS.sorted_entries_desc fs p <-> is_Some (fs !! (p ++ [n])))
  /\ NoDup (FS.sorted_entries_desc fs p)
  /\ StronglySorted name_ge (FS.sorted_entries_desc fs p).
Proof.
  unfold FS.sorted_entries_desc.
  set (names := omap (fun kv => FS.child_name p kv.1) (map_to_list fs)).
  assert (Hin : forall n, n ∈ names <-> is_Some (fs !! (p ++ [n]))).
  { intros n. subst names. rewrite list_elem_of_omap. split.
    - intros ([q x] & Hq & Hc). simpl in Hc. apply child_name_spec in Hc. subst q.
      apply elem_of_map_to_list in Hq. eauto.
    - intros [x Hx]. exists (p ++ [n], x). split; [by apply elem_of_map_to_list|].
      simpl. by apply child_name_spec. }
  assert (Hnd : NoDup names).
  { subst names. apply NoDup_child_names, NoDup_fst_map_to_list. }
  split; [|split].
  - intros n. by rewrite sort_desc_perm.
  - by rewrite sort_desc_perm.
  - apply sort_desc_sorted.
Qed.

(** ** The loop of the listing *)

Lemma recent_loop_cons (json_load : str -> option json) (fs : FS.t) (limit : Z)
    (name : str) (rest : list str) (jobs : list Main.JobSummary) :
  bad_meta json_load fs name = false ->
  Main.recent_loop json_load fs limit (name :: rest) jobs
  = match row_of json_load fs name with
    | None => Main.recent_loop json_load fs limit rest jobs
    | Some row =>
        if (limit <=? Z.of_nat (length (jobs ++ [row])))%Z then Ok (jobs ++ [row])
        else Main.recent_loop json_load fs limit rest (jobs ++ [row])
    end.
Proof.
  unfold bad_meta, row_of. cbn [Main.recent_loop]. cbv zeta.
  destruct (FS.is_dir fs (Main.OUTPUT_ROOT ++ [name])); [|done]. simpl negb. cbv iota.
  destruct (FS.node_at fs ((Main.OUTPUT_ROOT ++ [name]) ++ [lit "meta.json"]))
    as [[|content]|]; [done| |done].
  destruct (json_load content) as [[| | | | |meta]|]; done.
Qed.

Lemma recent_loop_rows (json_load : str -> option json) (fs : FS.t) (limit : Z)
    (entries : list str) (jobs : list Main.JobSummary) :
  Forall (fun name => bad_meta json_load fs name = false) entries ->
  Main.recent_loop json_load fs limit entries jobs
  = Ok (jobs ++ take (Z.to_nat (Z.max 1 (limit - Z.of_nat (length jobs))))
                     (omap (row_of json_load fs) entries)).
Proof.
  intros H. revert jobs. induction H as [|name entries Hb _ IH]; intros jobs.
  - simpl. by rewrite take_nil, app_nil_r.
  - rewrite recent_loop_cons by done. cbn [omap list_omap].
    destruct (row_of json_load fs name) as [row|]; [|apply IH].
    rewrite length_app. simpl length.
    destruct (limit <=? Z.of_nat (length jobs + 1))%Z eqn:E.
    + apply Z.leb_le in E.
      replace (Z.to_nat (Z.max 1 (limit - Z.of_nat (length jobs)))) with 1 by lia.
      reflexivity.
    + apply Z.leb_gt in E. rewrite IH. rewrite length_app. simpl length.
      replace (Z.to_nat (Z.max 1 (limit - Z.of_nat (length jobs))))
        with (S (Z.to_nat (Z.max 1 (limit - Z.of_nat (length jobs + 1))))) by lia.
      simpl. by rewrite <- app_assoc.
Qed.

(** X19.  Where no metadata file parses to something other than an
    object, [get_recent_jobs] does not fail and returns exactly the first
    [max 1 limit] rows of the folders that have a readable metadata
    object, in descending order of folder name: folders without a
    meta.json, with an unreadable one, and entries that are not folders
    are skipped.  So it returns at most [limit] rows for a limit of 1 or
    more, and one row (if there is any) for a limit of 0 or less. *)
Theorem get_recent_jobs_rows (json_load : str -> option json) (fs : FS.t) (limit : Z) :
  FS.is_dir fs Main.OUTPUT_ROOT = true ->
  Forall (fun name => bad_meta json_load fs name = false)
         (FS.sorted_entries_desc fs Main.OUTPUT_ROOT) ->
  Main.get_recent_jobs json_load fs limit
  = Ok (take (Z.to_nat (Z.max 1 limit))
             (omap (row_of json_load fs) (FS.sorted_entries_desc fs Main.OUTPUT_ROOT)))
  /\ StronglySorted name_ge (FS.sorted_entries_desc fs Main.OUTPUT_ROOT)
  /\ (forall rows, Main.get_recent_jobs json_load fs limit = Ok rows ->
                   (1 <= limit)%Z -> (Z.of_nat (length rows) <= limit)%Z).
Proof.
  intros Hdir Hgood.
  assert (Heq : Main.get_recent_jobs json_load fs limit
                = Ok (take (Z.to_nat (Z.max 1 limit))
                        (omap (row_of json_load fs)
                           (FS.sorted_entries_desc fs Main.OUTPUT_ROOT)))).
  { unfold Main.get_recent_jobs.
    assert (FS.exists_ fs Main.OUTPUT_ROOT = true) as ->.
    { unfold FS.exists_, FS.is_dir in *. by destruct (FS.node_at fs Main.OUTPUT_ROOT). }
    rewrite Hdir. simpl negb. cbv iota.
    rewrite recent_loop_rows by done. simpl. by rewrite Z.sub_0_r. }
  split; [exact Heq|]. split; [apply sorted_entries_desc_spec|].
  intros rows Hrows Hlim. rewrite Heq in Hrows. injection Hrows as <-.
  rewrite length_take. lia.
Qed.

Lemma get_recent_jobs_rows_witness :
  Main.get_recent_jobs tiny_json_load (one_folder (lit "{}")) 20
  = Ok (take (Z.to_nat (Z.max 1 20))
             (omap (row_of tiny_json_load (one_folder (lit "{}")))
                   (FS.sorted_entries_desc (one_folder (lit "{}")) Main.OUTPUT_ROOT))).
Proof.
  apply (get_recent_jobs_rows tiny_json_load (one_folder (lit "{}")) 20).
  - vm_compute. reflexivity.
  - rewrite one_folder_entries. constructor; [vm_compute; reflexivity | constructor].
Defined.

Lemma recent_loop_head (json_load : str -> option json) (fs : FS.t) (limit : Z)
    (entries : list str) (first : Main.JobSummary) (jobs rows : list Main.JobSummary) :
  Main.recent_loop json_load fs limit entries (first :: jobs) = Ok rows ->
  exists rest, rows = first :: rest.
Proof.
  revert jobs. induction entries as [|name entries IH]; intros jobs.
  - simpl. intros [= <-]. eauto.
  - cbn [Main.recent_loop].
    destruct (negb (FS.is_dir fs (Main.OUTPUT_ROOT ++ [name]))); [apply IH|].
    destruct (FS.node_at fs ((Main.OUTPUT_ROOT ++ [name]) ++ [lit "meta.json"]))
      as [[|content]|]; [apply IH| |apply IH].
    destruct (json_load content) as [[| | | | |meta]|]; try done; try apply IH.
    destruct (_ <=? _)%Z; [intros [= <-]; eauto|].
    change ((first :: jobs) ++ ?x) with (first :: (jobs ++ x)). apply IH.
Qed.

Lemma sorted_head_is_max (l : list str) (top : str) :
  StronglySorted name_ge l -> top ∈ l ->
  (forall n, n ∈ l -> n <> top -> FS.str_ltb n top = true) ->
  exists rest, l = top :: rest.
Proof.
  intros Hs Hin Hmax. destruct Hs as [|h l Hs Hall]; [by apply elem_of_nil in Hin|].
  destruct (decide (h = top)) as [->|Hne]; [eauto|]. exfalso.
  apply elem_of_cons in Hin as [->|Hin]; [done|].
  rewrite List.Forall_forall in Hall. apply list_elem_of_In in Hin.
  specialize (Hall top Hin). unfold name_ge in Hall.
  rewrite (Hmax h) in Hall; [done | set_solver | done].
Qed.

Lemma mkdir_chain_new (pre rest : FS.path) (fs fs' : FS.t) (r : result unit) :
  FS.mkdir_chain pre rest fs = (r, fs') ->
  forall q x, fs' !! q = Some x ->
              fs !! q = Some x \/ exists k, k < length rest /\ q = pre ++ take (S k) rest.
Proof.
  revert pre fs. induction rest as [|n rest IH]; intros pre fs H q x Hq.
  - cbn in H. injection H as _ <-. by left.
  - cbn [FS.mkdir_chain] in H.
    destruct (fs !! (pre ++ [n])) as [[|c]|] eqn:E.
    + destruct (IH _ _ H q x Hq) as [Hold|(k & Hk & ->)]; [by left|].
      right. exists (S k). split; [simpl; lia|]. by rewrite <- app_assoc.
    + injection H as _ <-. by left.
    + destruct (IH _ _ H q x Hq) as [Hold|(k & Hk & ->)].
      * destruct (decide (q = pre ++ [n])) as [->|Hne].
        -- right. exists 0. split; [simpl; lia | done].
        -- left. by rewrite lookup_insert_ne in Hold.
      * right. exists (S k). split; [simpl; lia|]. by rewrite <- app_assoc.
Qed.

Lemma node_at_lookup (fs : FS.t) (p : FS.path) : p <> [] -> FS.node_at fs p = fs !! p.
Proof. by destruct p. Qed.

Lemma is_dir_lookup (fs : FS.t) (p : FS.path) :
  p <> [] -> fs !! p = Some FS.Dir -> FS.is_dir fs p = true /\ FS.exists_ fs p = true.
Proof.
  intros Hp H. unfold FS.is_dir, FS.exists_. rewrite node_at_lookup by done. by rewrite H.
Qed.

Lemma main_meta_members (a b c d e f g h i : json) (dflt : json) :
  let meta := [ (lit "company", a); (lit "title", b); (lit "location", c);
                (lit "seniority_hint", d); (lit "fit_score", e); (lit "fit_label", f);
                (lit "reasoning", g); (lit "container_folder", h);
                (lit "host_folder", i) ] in
  dict_get meta (lit "host_folder") dflt = i /\
  dict_get meta (lit "company") dflt = a /\
  dict_get meta (lit "title") dflt = b /\
  dict_get meta (lit "location") dflt = c /\
  dict_get meta (lit "fit_score") dflt = e /\
  dict_get meta (lit "fit_label") dflt = f.
Proof. repeat split; vm_compute; reflexivity. Qed.

Section RoundTrip.
Variable HOST_OUTPUT_ROOT SYSTEM_PROMPT : str.
Variable json_dumps : json -> str.
Variable call_ollama : str -> str -> result str.
Variable json_load : str -> option json.

(** X20.  A package that was just assembled heads the dashboard listing.
    When [process_job] has succeeded, [json.load] reads back the metadata
    record that was dumped, and the new folder's name is greater than the
    name of every other entry of the output root (as it is when its time
    stamp is the latest), then [get_recent_jobs] with the limit 1 returns
    exactly the row of the new package, and with any limit every listing
    that it returns starts with that row: the folder, the host folder, the
    company, the title, the location, the score and the label are those of
    the job and of the returned package. *)
Theorem new_package_heads_listing (now : datetime) (job : Main.JobInput)
    (fs fs' : FS.t) (pkg : Main.PackageOutput) :
  Main.process_job HOST_OUTPUT_ROOT SYSTEM_PROMPT json_dumps call_ollama now job fs
  = (Ok pkg, fs') ->
  json_load (json_dumps (main_meta HOST_OUTPUT_ROOT now job
                           (Main.fit_score pkg) (Main.reasoning pkg)))
  = Some (main_meta HOST_OUTPUT_ROOT now job (Main.fit_score pkg) (Main.reasoning pkg)) ->
  (forall n, is_Some (fs !! (Main.OUTPUT_ROOT ++ [n])) ->
             n <> main_folder_name now job ->
             FS.str_ltb n (main_folder_name now job) = true) ->
  let row :=
    {| Main.js_folder := Main.container_folder pkg;
       Main.js_host_folder := Main.json_opt (Main.host_folder pkg);
       Main.js_company := JStr (Main.company job);
       Main.js_title := JStr (Main.title job);
       Main.js_location := Main.json_opt (Main.location job);
       Main.js_fit_score := JNum (Main.fit_score pkg);
       Main.js_fit_label := JStr (Main.fit_label pkg) |} in
  Main.get_recent_jobs json_load fs' 1 = Ok [row] /\
  (forall limit rows,
      Main.get_recent_jobs json_load fs' limit = Ok rows -> exists rest, rows = row :: rest).
Proof.
  intros H Hload Hmax row.
  pose proof (process_job_files _ _ _ _ _ _ _ _ _ H)
    as (Hd & _ & _ & _ & Hmeta & Hlabel & Hkeep).
  pose proof (process_job_inv _ _ _ _ _ _ _ _ _ H)
    as (raw & fs1 & _ & _ & Hmk & Hfs' & _ & Hcf).
  set (name := main_folder_name now job) in *.
  set (d := Main.OUTPUT_ROOT ++ [name]) in *.
  assert (Hhost : Main.host_folder pkg
                  = match HOST_OUTPUT_ROOT with
                    | [] => None
                    | _ :: _ => Some (HOST_OUTPUT_ROOT ++ [47%N] ++ name)
                    end).
  { clear -H. unfold Main.process_job in H.
    apply bind_ok_inv in H as (raw & s1 & _ & H).
    apply bind_ok_inv in H as ([[[[fit reasoning] cover] resume] answers] & s2 & _ & H).
    apply bind_ok_inv in H as ([[job_dir host_path] nm] & s3 & H3 & H).
    unfold Main.create_job_folder in H3.
    apply bind_ok_inv in H3 as ([] & s3' & _ & H3).
    apply ret_inv in H3 as [[= -> -> ->] ->].
    apply bind_ok_inv in H as ([] & s4 & _ & H).
    apply bind_ok_inv in H as ([] & s5 & _ & H).
    apply bind_ok_inv in H as ([] & s6 & _ & H).
    apply bind_ok_inv in H as ([] & s7 & _ & H).
    by apply ret_inv in H as [-> _]. }
  (* the output root is a directory after the run *)
  assert (Hroot : fs' !! Main.OUTPUT_ROOT = Some FS.Dir).
  { apply mkdir_chain_ok in Hmk as [_ Hk]. specialize (Hk 1 ltac:(simpl; lia)).
    simpl in Hk. rewrite Hfs'. look_up. exact Hk. }
  (* the new folder is the first entry *)
  destruct (sorted_entries_desc_spec fs' Main.OUTPUT_ROOT) as (Hin & _ & Hsorted).
  destruct (sorted_head_is_max (FS.sorted_entries_desc fs' Main.OUTPUT_ROOT) name Hsorted)
    as [rest Hentries].
  { apply Hin. fold d. eauto. }
  { intros n Hn Hne. apply Hmax; [|done]. apply Hin in Hn as [x Hx].
    rewrite Hfs' in Hx. revert Hx. look_up. intros Hx.
    destruct (mkdir_chain_new _ _ _ _ _ Hmk _ _ Hx) as [Hold|(k & Hk & Hq)]; [eauto|].
    exfalso. apply Hne. rewrite app_nil_l in Hq.
    assert (Hlen : length (take (S k) d) = 3).
    { rewrite <- Hq. reflexivity. }
    assert (Hld : length d = 3) by reflexivity.
    rewrite take_ge in Hq by (rewrite length_take in Hlen; lia).
    unfold d in Hq. by apply app_inv_head in Hq as [= ->]. }
  destruct (is_dir_lookup fs' Main.OUTPUT_ROOT ltac:(done) Hroot) as [Hisdir Hexists].
  assert (Hstep : forall limit,
             Main.get_recent_jobs json_load fs' limit
             = if (limit <=? 1)%Z then Ok [row]
               else Main.recent_loop json_load fs' limit rest [row]).
  { intros limit. unfold Main.get_recent_jobs. rewrite Hexists, Hisdir, Hentries.
    cbn [negb Main.recent_loop]. fold d.
    destruct (is_dir_lookup fs' d ltac:(done) Hd) as [-> _].
    rewrite (node_at_lookup fs' (d ++ [lit "meta.json"])) by (by destruct d).
    rewrite Hmeta.
    rewrite Hload. cbn [negb]. unfold main_meta. fold name.
    match goal with
    | |- context [dict_get ?m _ _] =>
        match m with
        | [(_, ?a); (_, ?b); (_, ?c); (_, ?d0); (_, ?e); (_, ?f); (_, ?g); (_, ?h); (_, ?i)] =>
            destruct (main_meta_members a b c d0 e f g h i (JStr []))
              as (-> & -> & -> & -> & -> & ->)
        end
    end.
    rewrite <- Hhost, <- Hlabel. fold d. rewrite <- Hcf. reflexivity. }
  split.
  - by rewrite Hstep.
  - intros limit rows. rewrite Hstep. destruct (limit <=? 1)%Z.
    + intros [= <-]. by exists [].
    + apply recent_loop_head.
Qed.

End RoundTrip.

Lemma new_package_heads_listing_witness :
  Main.get_recent_jobs
    (fun _ => Some (main_meta (lit "./job-packages") jan_2nd acme_job 88
                      (lit "Strong match.")))
    (snd acme_run) 1
  = Ok [ {| Main.js_folder := Main.container_folder acme_package;
            Main.js_host_folder := Main.json_opt (Main.host_folder acme_package);
            Main.js_company := JStr (Main.company acme_job);
            Main.js_title := JStr (Main.title acme_job);
            Main.js_location := Main.json_opt (Main.location acme_job);
            Main.js_fit_score := JNum (Main.fit_score acme_package);
            Main.js_fit_label := JStr (Main.fit_label acme_package) |} ].
Proof.
  apply (new_package_heads_listing (lit "./job-packages") [] (fun _ => lit "{}")
           (fun _ _ => Ok acme_response)
           (fun _ => Some (main_meta (lit "./job-packages") jan_2nd acme_job 88
                             (lit "Strong match.")))
           jan_2nd acme_job root_only (snd acme_run) acme_package).
  - exact acme_run_eq.
  - reflexivity.
  - intros n [x Hx] _. exfalso.
    rewrite (root_only_nothing_at n (Main.OUTPUT_ROOT ++ [n])) in Hx; [done|].
    exists []. by rewrite app_nil_r.
Defined.

(** ** The error buffer *)

Lemma take_cons_take {A} (n : nat) (x : A) (l : list A) :
  take (S n) (x :: take (S n) l) = take (S n) (x :: l).
Proof. simpl. f_equal. rewrite take_take. f_equal. lia. Qed.

Lemma record_all_snoc (log : list (str * exn)) (t : str) (e : exn) (buffer : list (str * str)) :
  record_all (log ++ [(t, e)]) buffer = App.record_error t e (record_all log buffer).
Proof. unfold record_all. by rewrite fold_left_app. Qed.

(** X21.  The error buffer holds the 20 most recent errors, the newest
    first: after any sequence of calls to [record_error] on an empty
    buffer it is the list of the recorded times and messages in reverse
    order of recording, cut to its first 20 entries; so a new error is
    always at the head, with the text of the exception as its message, and
    the buffer never holds more than 20 entries. *)
Theorem record_error_keeps_newest_20 :
  (forall log : list (str * exn),
      record_all log [] = take 20 (rev (List.map (fun te => (te.1, exn_str te.2)) log))) /\
  (forall (time : str) (exc : exn) (buffer : list (str * str)),
      head (App.record_error time exc buffer) = Some (time, exn_str exc) /\
      length (App.record_error time exc buffer) <= 20 /\
      tail (App.record_error time exc buffer) = take 19 buffer).
Proof.
  split.
  - intros log. induction log as [|[t e] log IH] using rev_ind; [done|].
    rewrite record_all_snoc, IH. unfold App.record_error.
    rewrite map_app, rev_app_distr. simpl rev. simpl app.
    apply take_cons_take.
  - intros time exc buffer. unfold App.record_error. simpl.
    split; [done|]. split; [|done]. rewrite length_take. lia.
Qed.

(** ** A submission always gets a response *)

Lemma keeps_bind {A B : Type} (I : FS.t -> Prop) (m : M FS.t A) (k : A -> M FS.t B) :
  keeps I m -> (forall a, keeps I (k a)) -> keeps I (bind m k).
Proof.
  intros Hm Hk s r s' Hs. unfold bind.
  destruct (m s) as [[a|e] s1] eqn:E.
  - intros H. eapply Hk; [|exact H]. by eapply Hm.
  - intros [= <- <-]. by eapply Hm.
Qed.

Lemma keeps_lift {A : Type} (I : FS.t -> Prop) (r : result A) : keeps I (lift r).
Proof. intros s r' s' Hs [= _ <-]. done. Qed.

Lemma keeps_ret {A : Type} (I : FS.t -> Prop) (a : A) : keeps I (ret a).
Proof. intros s r' s' Hs [= _ <-]. done. Qed.

Lemma mkdir_chain_sub (pre rest : FS.path) (fs fs' : FS.t) (r : result unit) :
  FS.mkdir_chain pre rest fs = (r, fs') -> fs ⊆ fs'.
Proof.
  revert pre fs. induction rest as [|n rest IH]; intros pre fs H.
  - cbn in H. by injection H as _ <-.
  - cbn [FS.mkdir_chain] in H.
    destruct (fs !! (pre ++ [n])) as [[|c]|] eqn:E.
    + by eapply IH.
    + by injection H as _ <-.
    + etrans; [|by eapply IH]. by apply insert_subseteq.
Qed.

Lemma keeps_mkdir (root p : FS.path) :
  keeps (fun s => s !! root = Some FS.Dir) (FS.mkdir_parents_exist_ok p).
Proof.
  intros s r s' Hs H. apply mkdir_chain_sub in H. by eapply lookup_weaken.
Qed.

Lemma keeps_write_text (root p : FS.path) (data : str) :
  p <> root -> keeps (fun s => s !! root = Some FS.Dir) (FS.write_text p data).
Proof.
  intros Hp s r s' Hs. unfold FS.write_text.
  destruct (negb _); [by intros [= _ <-]|].
  destruct (FS.node_at s p) as [[|c]|]; [by intros [= _ <-]| |];
    destruct (existsb _ _); intros [= _ <-]; by rewrite lookup_insert_ne.
Qed.

Section SubmitResponse.
Variable RESUME_PROMPT COVER_PROMPT ANSWERS_PROMPT : list str.
Variable format_hint : App.SeniorityHint -> str.
Variable json_dumps : json -> str.
Variable ollama_chat : str -> result str.

Lemma generate_full_package_root (now : datetime) (job : App.JobInput) (fs fs' : FS.t)
    (r : result App.PackageInfo) :
  (forall c, fs !! App.OUTPUT_ROOT <> Some (FS.File c)) ->
  App.generate_full_package RESUME_PROMPT COVER_PROMPT ANSWERS_PROMPT format_hint
    json_dumps ollama_chat now job fs = (r, fs') ->
  fs' !! App.OUTPUT_ROOT = Some FS.Dir.
Proof.
  intros Hroot. unfold App.generate_full_package.
  set (rest := fun _ : unit => _).
  assert (Hrest : keeps (fun s => s !! App.OUTPUT_ROOT = Some FS.Dir) (rest tt)).
  { subst rest. cbv beta.
    apply keeps_bind; [apply keeps_mkdir|]. intros _.
    apply keeps_bind; [apply keeps_lift|]. intros resume.
    apply keeps_bind; [apply keeps_lift|]. intros cover.
    apply keeps_bind; [apply keeps_lift|]. intros answers.
    apply keeps_bind; [by apply keeps_write_text|]. intros _.
    apply keeps_bind; [by apply keeps_write_text|]. intros _.
    apply keeps_bind; [by apply keeps_write_text|]. intros _.
    apply keeps_bind; [by apply keeps_write_text|]. intros _.
    apply keeps_ret. }
  unfold bind at 1. unfold FS.mkdir_parents_exist_ok, App.OUTPUT_ROOT at 1.
  cbn [FS.mkdir_chain app].
  change [lit "job-packages"] with App.OUTPUT_ROOT.
  destruct (fs !! App.OUTPUT_ROOT) as [[|c]|] eqn:E.
  - intros H. by eapply Hrest.
  - by destruct (Hroot c).
  - intros H. eapply Hrest; [|exact H]. apply lookup_insert_eq.
Qed.

Lemma get_dashboard_stats_ok (buffer : list (str * str)) (fs : FS.t) :
  fs !! App.OUTPUT_ROOT = Some FS.Dir ->
  exists stats, App.get_dashboard_stats buffer fs = (Ok stats, fs)
                /\ App.errors stats = buffer.
Proof.
  intros Hroot. unfold App.get_dashboard_stats, App.get_output_stats, bind.
  assert (FS.mkdir_parents_exist_ok App.OUTPUT_ROOT fs = (Ok tt, fs)) as ->.
  { apply mkdir_chain_existing. intros k Hk. simpl in Hk.
    destruct k as [|k]; [exact Hroot | lia]. }
  unfold get_state, ret. eauto.
Qed.

Lemma submit_responds (now : datetime) (err_time : str) (form : App.SubmitForm)
    (fs : FS.t) (buffer : list (str * str)) :
  (forall c, fs !! App.OUTPUT_ROOT <> Some (FS.File c)) ->
  exists resp fs' buffer',
    App.submit RESUME_PROMPT COVER_PROMPT ANSWERS_PROMPT format_hint json_dumps
      ollama_chat now err_time form fs buffer = (Ok resp, fs', buffer')
    /\ fs' !! App.OUTPUT_ROOT = Some FS.Dir
    /\ App.errors (App.stats resp) = buffer'
    /\ ((exists info,
            App.generate_full_package RESUME_PROMPT COVER_PROMPT ANSWERS_PROMPT
              format_hint json_dumps ollama_chat now (App.job_input_of form) fs
            = (Ok info, fs')
            /\ App.status_code resp = 200 /\ App.last_job resp = Some info
            /\ App.error_message resp = None /\ buffer' = buffer)
        \/ (exists exc,
               App.generate_full_package RESUME_PROMPT COVER_PROMPT ANSWERS_PROMPT
                 format_hint json_dumps ollama_chat now (App.job_input_of form) fs
               = (Raise exc, fs')
               /\ App.status_code resp = 500 /\ App.last_job resp = None
               /\ App.error_message resp = Some (exn_str exc)
               /\ buffer' = App.record_error err_time exc buffer
               /\ head buffer' = Some (err_time, exn_str exc))).
Proof.
  intros Hroot. unfold App.submit. unfold bind at 1.
  destruct (App.generate_full_package RESUME_PROMPT COVER_PROMPT ANSWERS_PROMPT
              format_hint json_dumps ollama_chat now (App.job_input_of form) fs)
    as [[info|exc] fs1] eqn:E;
    pose proof (generate_full_package_root _ _ _ _ _ Hroot E) as Hdir.
  - unfold bind.
    destruct (get_dashboard_stats_ok buffer fs1 Hdir) as (stats & -> & Herr).
    unfold ret. eexists _, _, _. split; [reflexivity|].
    split; [done|]. split; [done|]. left. by exists info.
  - destruct (get_dashboard_stats_ok (App.record_error err_time exc buffer) fs1 Hdir)
      as (stats & -> & Herr).
    eexists _, _, _. split; [reflexivity|].
    split; [done|]. split; [done|]. right. by exists exc.
Qed.

(** X22.  A submission always gets a response unless the output root is
    a regular file: [submit] then returns a page and leaves the output
    root a directory.  When the assembly succeeds the status is 200, the
    page shows the package and the error buffer is unchanged; when it
    raises, the status is 500, the page shows the text of the exception,
    and that text is recorded at the head of the error buffer.  Either way
    the page lists the buffer as it is after the request. *)
Theorem submit_always_responds (now : datetime) (err_time : str) (form : App.SubmitForm)
    (fs : FS.t) (buffer : list (str * str)) :
  (forall c, fs !! App.OUTPUT_ROOT <> Some (FS.File c)) ->
  exists resp fs' buffer',
    App.submit RESUME_PROMPT COVER_PROMPT ANSWERS_PROMPT format_hint json_dumps
      ollama_chat now err_time form fs buffer = (Ok resp, fs', buffer')
    /\ fs' !! App.OUTPUT_ROOT = Some FS.Dir
    /\ App.errors (App.stats resp) = buffer'
    /\ ((exists info,
            App.generate_full_package RESUME_PROMPT COVER_PROMPT ANSWERS_PROMPT
              format_hint json_dumps ollama_chat now (App.job_input_of form) fs
            = (Ok info, fs')
            /\ App.status_code resp = 200 /\ App.last_job resp = Some info
            /\ App.error_message resp = None /\ buffer' = buffer)
        \/ (exists exc,
               App.generate_full_package RESUME_PROMPT COVER_PROMPT ANSWERS_PROMPT
                 format_hint json_dumps ollama_chat now (App.job_input_of form) fs
               = (Raise exc, fs')
               /\ App.status_code resp = 500 /\ App.last_job resp = None
               /\ App.error_message resp = Some (exn_str exc)
               /\ buffer' = App.record_error err_time exc buffer
               /\ head buffer' = Some (err_time, exn_str exc))).
Proof. apply submit_responds. Qed.

End SubmitResponse.

Section Service.
Variable RESUME_PROMPT COVER_PROMPT ANSWERS_PROMPT : list str.
Variable format_hint : App.SeniorityHint -> str.
Variable json_dumps : json -> str.
Variable ollama_chat : str -> result str.

Lemma serve_rendered (requests : list (datetime * str * App.SubmitForm)) (fs : FS.t)
    (buffer : list (str * str)) :
  fs !! App.OUTPUT_ROOT = Some FS.Dir -> length buffer <= 20 ->
  exists rs fs' buffer',
    serve RESUME_PROMPT COVER_PROMPT ANSWERS_PROMPT format_hint json_dumps ollama_chat
      requests fs buffer = (rs, fs', buffer')
    /\ Forall rendered rs /\ length rs = length requests
    /\ fs' !! App.OUTPUT_ROOT = Some FS.Dir /\ length buffer' <= 20.
Proof.
  revert fs buffer. induction requests as [|[[now err_time] form] rest IH];
    intros fs buffer Hroot Hlen.
  - exists [], fs, buffer. by repeat split.
  - cbn [serve].
    destruct (submit_responds RESUME_PROMPT COVER_PROMPT ANSWERS_PROMPT format_hint
                json_dumps ollama_chat now err_time form fs buffer)
      as (resp & fs1 & buffer1 & -> & Hroot1 & _ & Hcases).
    { intros c. by rewrite Hroot. }
    assert (Hlen1 : length buffer1 <= 20).
    { destruct Hcases as [(info & _ & _ & _ & _ & ->)|(exc & _ & _ & _ & _ & -> & _)]; [done|].
      unfold App.record_error. rewrite length_take. lia. }
    destruct (IH fs1 buffer1 Hroot1 Hlen1) as (rs & fs2 & buffer2 & -> & Hrs & Hl & Hr & Hb).
    exists (Ok resp :: rs), fs2, buffer2. split; [done|].
    split; [|by repeat split; simpl; try lia].
    constructor; [|done]. exists resp. split; [done|].
    destruct Hcases as [(info & _ & -> & _)|(exc & _ & -> & _)]; auto.
Qed.

(** X26.  Once the start-up hook has run, no submission makes the
    application fail: after a successful [init_diagnostics], whatever
    forms are submitted one after the other and whatever the model server
    does, every submission is answered by a rendered page with the status
    200 or 500, the output root stays a directory, the error buffer never
    holds more than 20 entries, and the dashboard page can still be
    rendered at the end. *)
Theorem service_keeps_responding (fs0 fs1 : FS.t)
    (requests : list (datetime * str * App.SubmitForm)) :
  App.init_diagnostics fs0 = (Ok tt, fs1) ->
  exists rs fs2 buffer2,
    serve RESUME_PROMPT COVER_PROMPT ANSWERS_PROMPT format_hint json_dumps ollama_chat
      requests fs1 [] = (rs, fs2, buffer2)
    /\ Forall rendered rs /\ length rs = length requests
    /\ fs2 !! App.OUTPUT_ROOT = Some FS.Dir /\ length buffer2 <= 20
    /\ exists page, App.index buffer2 fs2 = (Ok page, fs2)
                    /\ App.status_code page = 200
                    /\ App.errors (App.stats page) = buffer2.
Proof.
  intros Hinit. unfold App.init_diagnostics in Hinit.
  apply mkdir_ok_dir in Hinit as [_ Hroot]; [|done].
  destruct (serve_rendered requests fs1 [] Hroot ltac:(simpl; lia))
    as (rs & fs2 & buffer2 & Hs & Hrs & Hl & Hr & Hb).
  exists rs, fs2, buffer2. repeat (split; [done|]).
  destruct (get_dashboard_stats_ok buffer2 fs2 Hr) as (stats & Hst & Herr).
  unfold App.index, bind. rewrite Hst. unfold ret. eauto.
Qed.

End Service.

(** ** The seniority hint of a submission *)

(** X27.  The values of the seniority enumeration are read back exactly:
    a string is accepted as a seniority hint exactly when it is the value
    of a member, and then it denotes that member; so a submission whose
    hint is the value of a member carries that member in its [JobInput],
    and the estimate adds the seniority bonus exactly for senior, lead,
    director and executive. *)
Theorem seniority_hint_round_trip :
  (forall h, App.SeniorityHint_of (App.hint_value h) = Some h) /\
  (forall v h, App.SeniorityHint_of v = Some h <-> v = App.hint_value h) /\
  (forall form h,
      App.f_seniority_hint form = App.hint_value h ->
      App.seniority_hint (App.job_input_of form) = Some h /\
      seniority_bonus (App.job_input_of form) = (if is_senior_level h then 5 else 0)%Q).
Proof.
  assert (H1 : forall h, App.SeniorityHint_of (App.hint_value h) = Some h)
    by (intros []; vm_compute; reflexivity).
  assert (H2 : forall v h, App.SeniorityHint_of v = Some h <-> v = App.hint_value h).
  { intros v h. split; [|intros ->; apply H1].
    unfold App.SeniorityHint_of. intros H. apply find_some in H as [_ H].
    unfold str_eqb in H. by apply bool_decide_eq_true in H. }
  split; [exact H1|]. split; [exact H2|].
  intros form h Hf.
  assert (Hjob : App.seniority_hint (App.job_input_of form) = Some h).
  { unfold App.job_input_of. cbn [App.seniority_hint]. rewrite Hf.
    rewrite H1. by destruct h. }
  split; [exact Hjob|]. unfold seniority_bonus. by rewrite Hjob.
Qed.

Lemma seniority_hint_round_trip_witness :
  App.seniority_hint (App.job_input_of (with_hint senior_manager_form (lit "lead")))
  = Some App.lead.
Proof.
  apply (proj2 (proj2 seniority_hint_round_trip)
           (with_hint senior_manager_form (lit "lead")) App.lead).
  reflexivity.
Defined.

Lemma submit_always_responds_witness :
  exists resp fs' buffer',
    App.submit [] [] [] App.hint_value (fun _ => lit "{}") down_chat jan_2nd
      (lit "2024-01-02T03:04:05") senior_manager_form ∅ [] = (Ok resp, fs', buffer')
    /\ fs' !! App.OUTPUT_ROOT = Some FS.Dir.
Proof.
  destruct (submit_always_responds [] [] [] App.hint_value (fun _ => lit "{}") down_chat
              jan_2nd (lit "2024-01-02T03:04:05") senior_manager_form ∅ [])
    as (resp & fs' & buffer' & H & Hroot & _).
  - intros c. rewrite lookup_empty. discriminate.
  - exists resp, fs', buffer'. split; [exact H | exact Hroot].
Defined.

Lemma service_keeps_responding_witness :
  exists rs fs2 buffer2,
    serve [] [] [] App.hint_value (fun _ => lit "{}") down_chat
      [(jan_2nd, lit "2024-01-02T03:04:05", senior_manager_form)] packages_root []
    = (rs, fs2, buffer2)
    /\ Forall rendered rs.
Proof.
  destruct (service_keeps_responding [] [] [] App.hint_value (fun _ => lit "{}") down_chat
              ∅ packages_root [(jan_2nd, lit "2024-01-02T03:04:05", senior_manager_form)])
    as (rs & fs2 & buffer2 & H & Hrs & _).
  - reflexivity.
  - exists rs, fs2, buffer2. split; [exact H | exact Hrs].
Defined.

(** ** The statistics of the dashboard *)

Lemma count_perm {A} (f : A -> bool) (l l' : list A) :
  l ≡ₚ l' -> length (List.filter f l) = length (List.filter f l').
Proof.
  induction 1 as [|x l l' _ IH|x y l|l1 l2 l3 _ IH1 _ IH2]; cbn [List.filter].
  - done.
  - destruct (f x); cbn [length]; by rewrite IH.
  - destruct (f x), (f y); reflexivity.
  - by rewrite IH1.
Qed.

Lemma count_ext {A} (f g : A -> bool) (l : list A) :
  (forall x, x ∈ l -> f x = g x) ->
  length (List.filter f l) = length (List.filter g l).
Proof.
  induction l as [|x l IH]; intros H; cbn [List.filter]; [done|].
  rewrite (H x) by set_solver. destruct (g x); cbn [length]; rewrite IH; set_solver.
Qed.

Lemma is_dir_insert_ne (fs : FS.t) (p q : FS.path) (x : FS.node) :
  p <> [] -> p <> q -> FS.is_dir (<[q := x]> fs) p = FS.is_dir fs p.
Proof.
  intros Hp Hne. unfold FS.is_dir. rewrite !node_at_lookup by done.
  by rewrite lookup_insert_ne.
Qed.

(** The number of folders that [get_output_stats] counts. *)
Lemma job_count_insert (fs : FS.t) (root q : FS.path) (x : FS.node) :
  fs !! q = None ->
  length (List.filter (fun n => FS.is_dir (<[q := x]> fs) (root ++ [n]))
            (FS.sorted_entries_desc (<[q := x]> fs) root))
  = match FS.child_name root q, x with
    | Some _, FS.Dir => 1
    | _, _ => 0
    end
    + length (List.filter (fun n => FS.is_dir fs (root ++ [n]))
                (FS.sorted_entries_desc fs root)).
Proof.
  intros Hq. unfold FS.sorted_entries_desc.
  rewrite (count_perm _ _ _ (sort_desc_perm _)).
  rewrite (count_perm _ (foldr _ _ _) _ (sort_desc_perm _)).
  assert (Hp : omap (fun kv => FS.child_name root kv.1) (map_to_list (<[q := x]> fs))
               ≡ₚ omap (fun kv => FS.child_name root kv.1) ((q, x) :: map_to_list fs)).
  { apply omap_Permutation. by apply map_to_list_insert. }
  rewrite (count_perm _ _ _ Hp). cbn [omap list_omap fst].
  assert (Hold : length (List.filter (fun n => FS.is_dir (<[q := x]> fs) (root ++ [n]))
                          (omap (fun kv => FS.child_name root kv.1) (map_to_list fs)))
                 = length (List.filter (fun n => FS.is_dir fs (root ++ [n]))
                             (omap (fun kv => FS.child_name root kv.1) (map_to_list fs)))).
  { apply count_ext. intros n Hn. apply is_dir_insert_ne; [by destruct root|].
    intros <-. apply list_elem_of_omap in Hn as ([q' y] & Hq' & Hc). simpl in Hc.
    apply child_name_spec in Hc. subst q'. apply elem_of_map_to_list in Hq'. congruence. }
  destruct (FS.child_name root q) as [n|] eqn:E; [|by rewrite Hold].
  apply child_name_spec in E. subst q. cbn [List.filter].
  assert (Hn : FS.is_dir (<[root ++ [n] := x]> fs) (root ++ [n])
               = match x with FS.Dir => true | FS.File _ => false end).
  { unfold FS.is_dir. rewrite node_at_lookup by (by destruct root).
    rewrite lookup_insert_eq. by destruct x. }
  rewrite Hn. destruct x; simpl; by rewrite Hold.
Qed.

Lemma bytes_insert (fs : FS.t) (root q : FS.path) (x : FS.node) :
  fs !! q = None ->
  map_fold (bytes_step root) 0 (<[q := x]> fs)
  = bytes_step root q x (map_fold (bytes_step root) 0 fs).
Proof.
  intros Hq. apply map_fold_insert_L; [|done].
  intros j1 j2 z1 z2 y _ _ _. unfold bytes_step.
  destruct z1, z2; try done.
  destruct (App.is_below root j1), (App.is_below root j2); lia.
Qed.

Lemma get_output_stats_value (fs : FS.t) :
  fs !! App.OUTPUT_ROOT = Some FS.Dir ->
  App.get_output_stats fs
  = (Ok {| App.total_jobs :=
             length (List.filter (fun n => FS.is_dir fs (App.OUTPUT_ROOT ++ [n]))
                       (FS.sorted_entries_desc fs App.OUTPUT_ROOT));
           App.total_bytes := map_fold (bytes_step App.OUTPUT_ROOT) 0 fs |}, fs).
Proof.
  intros Hroot. unfold App.get_output_stats, bind.
  assert (FS.mkdir_parents_exist_ok App.OUTPUT_ROOT fs = (Ok tt, fs)) as ->.
  { apply mkdir_chain_existing. intros k Hk. simpl in Hk.
    destruct k as [|k]; [exact Hroot | lia]. }
  reflexivity.
Qed.

Lemma package_file_facts (name f : str) :
  FS.child_name App.OUTPUT_ROOT ((App.OUTPUT_ROOT ++ [name]) ++ [f]) = None
  /\ App.is_below App.OUTPUT_ROOT ((App.OUTPUT_ROOT ++ [name]) ++ [f]) = true
  /\ FS.child_name App.OUTPUT_ROOT (App.OUTPUT_ROOT ++ [name]) = Some name.
Proof. repeat split; vm_compute; reflexivity. Qed.

Section Stats.
Variable RESUME_PROMPT COVER_PROMPT ANSWERS_PROMPT : list str.
Variable format_hint : App.SeniorityHint -> str.
Variable json_dumps : json -> str.
Variable ollama_chat : str -> result str.

(** X23.  The dashboard counts a new package: when [generate_full_package]
    succeeds where the output root exists and nothing exists under the
    name of the new folder, [get_output_stats] afterwards reports one job
    more than before, and a total size that has grown by the UTF-8 sizes
    of the four texts written (the resume, the cover letter, the answers
    text and the metadata dump). *)
Theorem package_counted_by_dashboard (now : datetime) (job : App.JobInput)
    (fs fs' : FS.t) (info : App.PackageInfo) :
  App.generate_full_package RESUME_PROMPT COVER_PROMPT ANSWERS_PROMPT format_hint
    json_dumps ollama_chat now job fs = (Ok info, fs') ->
  fs !! App.OUTPUT_ROOT = Some FS.Dir ->
  nothing_at fs (App.OUTPUT_ROOT ++ [app_folder_name now job]) ->
  exists resume cover answers before after,
    App.generate_resume RESUME_PROMPT format_hint ollama_chat job = Ok resume
    /\ App.generate_cover_letter COVER_PROMPT format_hint ollama_chat job = Ok cover
    /\ App.generate_short_answers ANSWERS_PROMPT ollama_chat job = Ok answers
    /\ App.get_output_stats fs = (Ok before, fs)
    /\ App.get_output_stats fs' = (Ok after, fs')
    /\ App.total_jobs after = S (App.total_jobs before)
    /\ App.total_bytes after
       = App.total_bytes before + utf8_len resume + utf8_len cover
         + utf8_len (App.build_short_answers_text answers)
         + utf8_len (json_dumps (app_meta now job)).
Proof.
  intros H Hroot Hfresh.
  pose proof (generate_full_package_on_disk _ _ _ _ _ _ _ _ _ _ _ H)
    as (_ & _ & _ & _ & _ & _ & Hroot' & _).
  apply generate_full_package_inv in H
    as (resume & cover & answers & fs1 & fs2 & Hmk0 & Hmk & Hr & Hc & Ha & Hfs').
  set (name := app_folder_name now job) in *.
  set (d := App.OUTPUT_ROOT ++ [name]) in *.
  assert (Hd : fs !! d = None) by (apply Hfresh; exists []; by rewrite app_nil_r).
  assert (Hf : forall f, fs !! (d ++ [f]) = None) by (intros f; apply Hfresh; by exists [f]).
  assert (fs1 = fs) as ->.
  { unfold FS.mkdir_parents_exist_ok in Hmk0.
    rewrite mkdir_chain_existing in Hmk0; [by injection Hmk0 as <-|].
    intros k Hk. simpl in Hk. destruct k as [|k]; [exact Hroot | lia]. }
  assert (fs2 = <[d := FS.Dir]> fs) as ->.
  { unfold d in Hmk. rewrite mkdir_new_folder in Hmk; [by injection Hmk as <-| |done].
    intros k Hk. simpl in Hk. destruct k as [|k]; [exact Hroot | lia]. }
  exists resume, cover, answers. eexists _, _.
  split; [done|]. split; [done|]. split; [done|].
  split; [by apply get_output_stats_value|].
  split; [by apply get_output_stats_value|].
  cbn [App.total_jobs App.total_bytes]. rewrite Hfs'.
  destruct (package_file_facts name (lit "meta.json")) as (C4 & B4 & Cd).
  destruct (package_file_facts name (lit "short_answers.txt")) as (C3 & B3 & _).
  destruct (package_file_facts name (lit "cover_letter.txt")) as (C2 & B2 & _).
  destruct (package_file_facts name (lit "resume_full.txt")) as (C1 & B1 & _).
  fold d in C1, C2, C3, C4, B1, B2, B3, B4, Cd.
  split.
  - rewrite job_count_insert by (look_up; apply Hf). rewrite C4.
    rewrite job_count_insert by (look_up; apply Hf). rewrite C3.
    rewrite job_count_insert by (look_up; apply Hf). rewrite C2.
    rewrite job_count_insert by (look_up; apply Hf). rewrite C1.
    rewrite job_count_insert by done. rewrite Cd. reflexivity.
  - rewrite bytes_insert by (look_up; apply Hf).
    rewrite bytes_insert by (look_up; apply Hf).
    rewrite bytes_insert by (look_up; apply Hf).
    rewrite bytes_insert by (look_up; apply Hf).
    rewrite bytes_insert by done.
    unfold bytes_step at 1 2 3 4 5. rewrite B1, B2, B3, B4. lia.
Qed.

End Stats.

Lemma package_counted_by_dashboard_witness :
  exists resume cover answers before after,
    App.generate_resume [] App.hint_value echo_chat acme_app_job = Ok resume
    /\ App.generate_cover_letter [] App.hint_value echo_chat acme_app_job = Ok cover
    /\ App.generate_short_answers [] echo_chat acme_app_job = Ok answers
    /\ App.get_output_stats packages_root = (Ok before, packages_root)
    /\ App.get_output_stats (snd acme_app_run) = (Ok after, snd acme_app_run)
    /\ App.total_jobs after = S (App.total_jobs before)
    /\ App.total_bytes after
       = App.total_bytes before + utf8_len resume + utf8_len cover
         + utf8_len (App.build_short_answers_text answers)
         + utf8_len ((fun _ => lit "{}") (app_meta jan_2nd acme_app_job)).
Proof.
  apply (package_counted_by_dashboard [] [] [] App.hint_value (fun _ => lit "{}") echo_chat
           jan_2nd acme_app_job packages_root (snd acme_app_run) acme_app_info).
  - exact acme_app_run_eq.
  - reflexivity.
  - apply packages_root_nothing_at.
Defined.

(** * The calls to the model server *)

Section Clients.
Variable OLLAMA_HOST MODEL_NAME : str.
Variable post : str -> json -> post_outcome.
Variable repr_json : json -> str.

(** X24.  [call_ollama] returns a content exactly when the decoded
    response is an object whose "message" is an object whose "content" is
    truthy, and then it returns that content; so a text that it returns is
    never empty.  A failed request is reported as a [RuntimeError] that
    quotes the address and the error, and every other error is a
    [RuntimeError] (no content), an [AttributeError] (the response or its
    message is not an object) or the error of decoding the body. *)
Theorem call_ollama_returns_content (system_prompt user_prompt : str) :
  let outcome := post (OLLAMA_HOST ++ lit "/api/chat")
                      (chat_request MODEL_NAME system_prompt user_prompt) in
  let result := Main.call_ollama OLLAMA_HOST MODEL_NAME post repr_json
                  system_prompt user_prompt in
  (forall content,
      result = Ok content <->
      exists members message_members,
        outcome = PostJson (JObj members)
        /\ dict_get members (lit "message") JNull = JObj message_members
        /\ dict_get message_members (lit "content") JNull = content
        /\ truthy content = true) /\
  (forall text, result = Ok (JStr text) -> text <> []) /\
  (forall exc,
      outcome = PostFailed exc ->
      result = Raise (RuntimeError (lit "Error calling Ollama at "
                                    ++ (OLLAMA_HOST ++ lit "/api/chat") ++ lit ": "
                                    ++ exn_str exc))) /\
  (forall e,
      result = Raise e ->
      (exists m, e = RuntimeError m) \/ (exists m, e = AttributeError m)
      \/ outcome = PostUndecodable e).
Proof.
  intros outcome result.
  assert (Hiff : forall content,
             result = Ok content <->
             exists members message_members,
               outcome = PostJson (JObj members)
               /\ dict_get members (lit "message") JNull = JObj message_members
               /\ dict_get message_members (lit "content") JNull = content
               /\ truthy content = true).
  { intros content. subst result outcome. unfold Main.call_ollama.
    fold (chat_request MODEL_NAME system_prompt user_prompt).
    destruct (post _ _) as [e|e|data].
    - split; [done|]. by intros (? & ? & ? & _).
    - split; [done|]. by intros (? & ? & ? & _).
    - destruct data as [| | | | |members];
        try (split; [done|]; by intros (? & ? & [=] & _)).
      cbv zeta.
      destruct (dict_get members (lit "message") JNull) as [|b|q|s|items|mm] eqn:Em;
        cbn [truthy].
      + simpl. split; [done|]. by intros (? & ? & [= <-] & E & _); rewrite Em in E.
      + destruct b; simpl; (split; [done|]);
          by intros (? & ? & [= <-] & E & _); rewrite Em in E.
      + destruct (negb (Qeq_bool q 0)); simpl; (split; [done|]);
          by intros (? & ? & [= <-] & E & _); rewrite Em in E.
      + destruct s; simpl; (split; [done|]);
          by intros (? & ? & [= <-] & E & _); rewrite Em in E.
      + destruct items; simpl; (split; [done|]);
          by intros (? & ? & [= <-] & E & _); rewrite Em in E.
      + destruct mm as [|kv mm].
        * simpl. split; [done|].
          intros (? & mm' & [= <-] & E & Ec & Ht). rewrite Em in E.
          injection E as <-. simpl in Ec. by subst content.
        * destruct (truthy (dict_get (kv :: mm) (lit "content") JNull)) eqn:Et; simpl.
          -- split.
             ++ intros [= <-]. by exists members, (kv :: mm).
             ++ intros (? & mm' & [= <-] & E & Ec & Ht). rewrite Em in E.
                injection E as <-. by rewrite Ec.
          -- split; [done|].
             intros (? & mm' & [= <-] & E & Ec & Ht). rewrite Em in E.
             injection E as <-. rewrite Ec in Et. congruence. }
  split; [exact Hiff|]. split; [|split].
  - intros text H. apply Hiff in H as (_ & _ & _ & _ & _ & Ht). by destruct text.
  - intros exc H. subst result outcome. unfold Main.call_ollama.
    fold (chat_request MODEL_NAME system_prompt user_prompt). by rewrite H.
  - intros e. subst result outcome. unfold Main.call_ollama.
    fold (chat_request MODEL_NAME system_prompt user_prompt).
    destruct (post _ _) as [e0|e0|data].
    + intros [= <-]. left. eauto.
    + intros [= <-]. by right; right.
    + destruct data as [| | | | |members];
        try (intros [= <-]; right; left; eauto).
      cbv zeta. destruct (if truthy _ then _ else _) as [| | | | |mm];
        try (intros [= <-]; right; left; eauto).
      destruct (negb _); [|done]. intros [= <-]. left. eauto.
Qed.

(** X25.  [ollama_chat] returns a message exactly when the decoded
    response is an object whose "response" is truthy, and then it returns
    that message; so a text that it returns is never empty.  An object
    without that field, or with an empty one, gives the [RuntimeError]
    "Ollama response missing 'response' field"; an error of the request
    is passed on as it is. *)
Theorem ollama_chat_returns_response (prompt : str) :
  let outcome := post (OLLAMA_HOST ++ lit "/api/generate")
                      (generate_request MODEL_NAME prompt) in
  let result := App.ollama_chat OLLAMA_HOST MODEL_NAME post prompt in
  (forall message,
      result = Ok message <->
      exists members,
        outcome = PostJson (JObj members)
        /\ dict_get members (lit "response") JNull = message
        /\ truthy message = true) /\
  (forall text, result = Ok (JStr text) -> text <> []) /\
  (forall members,
      outcome = PostJson (JObj members) ->
      truthy (dict_get members (lit "response") JNull) = false ->
      result = Raise (RuntimeError (lit "Ollama response missing 'response' field"))) /\
  (forall exc, outcome = PostFailed exc -> result = Raise exc).
Proof.
  intros outcome result.
  assert (Hiff : forall message,
             result = Ok message <->
             exists members,
               outcome = PostJson (JObj members)
               /\ dict_get members (lit "response") JNull = message
               /\ truthy message = true).
  { intros message. subst result outcome. unfold App.ollama_chat.
    fold (generate_request MODEL_NAME prompt).
    destruct (post _ _) as [e|e|data].
    - split; [done|]. by intros (? & ? & _).
    - split; [done|]. by intros (? & ? & _).
    - destruct data as [| | | | |members];
        try (split; [done|]; by intros (? & [=] & _)).
      cbv zeta.
      destruct (truthy (dict_get members (lit "response") JNull)) eqn:Et; simpl.
      + split.
        * intros [= <-]. by exists members.
        * intros (? & [= <-] & E & _). by rewrite E.
      + split; [done|]. intros (? & [= <-] & E & Ht). rewrite E in Et. congruence. }
  split; [exact Hiff|]. split; [|split].
  - intros text H. apply Hiff in H as (_ & _ & _ & Ht). by destruct text.
  - intros members H Ht. subst result outcome. unfold App.ollama_chat.
    fold (generate_request MODEL_NAME prompt). rewrite H. cbv zeta. by rewrite Ht.
  - intros exc H. subst result outcome. unfold App.ollama_chat.
    fold (generate_request MODEL_NAME prompt). by rewrite H.
Qed.

End Clients.

Lemma call_ollama_returns_content_witness :
  Main.call_ollama (lit "http://localhost:11434") (lit "llama3")
    (fun _ _ => PostFailed (OSError (lit "refused"))) (fun _ => []) [] []
  = Raise (RuntimeError (lit "Error calling Ollama at "
                         ++ (lit "http://localhost:11434" ++ lit "/api/chat") ++ lit ": "
                         ++ exn_str (OSError (lit "refused")))).
Proof.
  apply (proj1 (proj2 (proj2 (call_ollama_returns_content (lit "http://localhost:11434")
                                (lit "llama3")
                                (fun _ _ => PostFailed (OSError (lit "refused")))
                                (fun _ => []) [] [])))
           (OSError (lit "refused"))).
  reflexivity.
Defined.

Lemma ollama_chat_returns_response_witness :
  App.ollama_chat (lit "http://simplejobbot-ollama:11434") (lit "llama3")
    (fun _ _ => PostJson (JObj [(lit "response", JStr [])])) (lit "Hello")
  = Raise (RuntimeError (lit "Ollama response missing 'response' field")).
Proof.
  apply (proj1 (proj2 (proj2 (ollama_chat_returns_response
                                (lit "http://simplejobbot-ollama:11434") (lit "llama3")
                                (fun _ _ => PostJson (JObj [(lit "response", JStr [])]))
                                (lit "Hello"))))
           [(lit "response", JStr [])]); reflexivity.
Defined.
